(** * minipack: a shallow embedding of [src/minipack.ts] and [src/text.ts]

    The development follows the TypeScript sources of the repository:

    - the platform objects the code manipulates ([ArrayBuffer],
      [Uint8Array], [DataView], [TextEncoder], [TextDecoder]) are modelled
      first, with the range checks and the wrap-around the ECMAScript and
      WHATWG Encoding standards give them;
    - [utfEncode], [utfDecode], [pad0] and [hexEncode] are those of
      [src/text.ts];
    - [minipackEncode] and [minipackDecode] are those of [src/minipack.ts].

    [crypto.ts] is not part of the sources at hand: the digest
    [cryptoHash(false, _)] is a parameter of the development, of which only
    the 32-byte output size is assumed.  SHA-256 (FIPS 180-4) is given as an
    instance on which the examples are evaluated.

    Numbers are exact integers (the lengths and cursors of the code stay
    far below 2^53), a call runs from start to end without other tasks
    in between (each [await] is taken at once), and allocation does not
    run out of memory. *)

From Stdlib Require Import ZArith List String Ascii Bool Lia.
From Stdlib Require Import Init.Byte.
From stdpp Require Import base list.

Local Open Scope Z_scope.

(** ** Bytes *)

Module Bytes.

Definition Z_of_byte (b : byte) : Z := Z.of_N (Byte.to_N b).

(** Conversion of a number to an octet keeps the low eight bits
    (ECMAScript [ToUint8]). *)
Definition byte_of_Z (z : Z) : byte :=
  match Byte.of_N (Z.to_N (z mod 256)) with
  | Some b => b
  | None => x00
  end.

Definition bytes_eq_dec : forall x y : list byte, {x = y} + {x <> y} :=
  List.list_eq_dec Byte.byte_eq_dec.

End Bytes.
Export Bytes.

(** ** Completion records

    A call either returns a value or throws.  [RangeError] and [TypeError]
    are raised by the platform objects; [Error] is the [throw new Error()]
    of [minipackDecode]. *)

Inductive exn : Type :=
| RangeError
| TypeError
| Error.

Inductive result (A : Type) : Type :=
| Ok (a : A)
| Throw (e : exn).
Arguments Ok {A} a.
Arguments Throw {A} e.

Definition rbind {A B : Type} (r : result A) (k : A -> result B) : result B :=
  match r with
  | Ok a => k a
  | Throw e => Throw e
  end.

(** ** The store of array buffers

    An [ArrayBuffer] is a mutable byte sequence.  The store lists the
    buffers allocated so far; a buffer is named by its position in the
    store.  A [Uint8Array] is a window on a buffer: several arrays may share
    one buffer, and [subarray] makes a new window on the same buffer. *)

Abbreviation heap := (list (list byte)).

Record Uint8Array : Type := mkU8
  { buffer : nat;        (* the ArrayBuffer the array is a window on *)
    byteOffset : Z;      (* where the window starts in the buffer *)
    byteLength : Z }.    (* number of elements of the window *)

Record DataView : Type := mkDV
  { dv_buffer : nat;
    dv_byteOffset : Z;
    dv_byteLength : Z }.

(** Computations that read and write the store. *)
Definition M (A : Type) : Type := heap -> result (A * heap).

Definition ret {A : Type} (a : A) : M A := fun h => Ok (a, h).

Definition bind {A B : Type} (m : M A) (k : A -> M B) : M B :=
  fun h =>
    match m h with
    | Ok (a, h') => k a h'
    | Throw e => Throw e
    end.

Declare Scope js_scope.
Delimit Scope js_scope with js.
Notation "x <- m ;; k" := (bind m (fun x => k))
  (at level 100, m at next level, right associativity) : js_scope.
Notation "m ;;; k" := (bind m (fun _ => k))
  (at level 100, right associativity) : js_scope.
Notation "'let!' x := r 'in' k" := (rbind r (fun x => k))
  (at level 100, x pattern, r at next level, right associativity) : js_scope.

(** The bytes [off .. off+len) of a byte sequence. *)
Definition slice (bs : list byte) (off len : Z) : list byte :=
  take (Z.to_nat len) (drop (Z.to_nat off) bs).

(** Overwrite the bytes of [bs] from [off] on with [src]. *)
Definition splice (bs : list byte) (off : Z) (src : list byte) : list byte :=
  take (Z.to_nat off) bs ++ src ++ drop (Z.to_nat off + length src)%nat bs.

(** The elements of an array, in order.  A buffer that is not in the store
    is a detached one, of length zero. *)
Definition u8_bytes (h : heap) (a : Uint8Array) : list byte :=
  slice (default [] (h !! buffer a)) (byteOffset a) (byteLength a).

(** An array is well formed in a store when its window lies inside its
    buffer; every array the platform hands out is. *)
Definition view_ok (h : heap) (a : Uint8Array) : bool :=
  match h !! buffer a with
  | Some bs =>
      (0 <=? byteOffset a) && (0 <=? byteLength a)
      && (byteOffset a + byteLength a <=? Z.of_nat (length bs))
  | None => false
  end.

(** An array that covers the whole of its buffer, as [new Uint8Array(n)]
    and a file read make them. *)
Definition whole_buffer (h : heap) (a : Uint8Array) : bool :=
  match h !! buffer a with
  | Some bs => (byteOffset a =? 0) && (byteLength a =? Z.of_nat (length bs))
  | None => false
  end.

(** [new Uint8Array(n)]: a fresh zero-filled buffer of [n] bytes and the
    array that covers it.  Memory exhaustion is not modelled. *)
Definition new_Uint8Array (n : Z) : M Uint8Array :=
  fun h =>
    if n <? 0 then Throw RangeError
    else Ok (mkU8 (length h) 0 n, h ++ [replicate (Z.to_nat n) x00]).

(** [target.set(src, offset)]: copies [src] into [target] from element
    [offset] on; a [RangeError] when it does not fit. *)
Definition u8_set (target : Uint8Array) (src : list byte) (offset : Z) : M unit :=
  fun h =>
    match h !! buffer target with
    | None => Throw TypeError
    | Some bs =>
        if (offset <? 0) || (byteLength target <? Z.of_nat (length src) + offset)
        then Throw RangeError
        else Ok (tt, <[buffer target := splice bs (byteOffset target + offset) src]> h)
    end.

(** [a.subarray(begin, end)]: both ends are clamped to the array; the
    result is a window on the same buffer. *)
Definition clamp_index (len rel : Z) : Z :=
  if rel <? 0 then Z.max (len + rel) 0 else Z.min rel len.

Definition subarray (a : Uint8Array) (begin_ end_ : Z) : Uint8Array :=
  let beginIndex := clamp_index (byteLength a) begin_ in
  let endIndex := clamp_index (byteLength a) end_ in
  mkU8 (buffer a) (byteOffset a + beginIndex) (Z.max (endIndex - beginIndex) 0).

(** [new DataView(buffer, byteOffset)]: the offset is relative to the
    buffer; a [RangeError] when it is past the end of the buffer. *)
Definition new_DataView (buf : nat) (off : Z) (h : heap) : result DataView :=
  match h !! buf with
  | None => Throw TypeError
  | Some bs =>
      if (off <? 0) || (Z.of_nat (length bs) <? off) then Throw RangeError
      else Ok (mkDV buf off (Z.of_nat (length bs) - off))
  end.

(** Big-endian octets of an unsigned 32-bit number, and back. *)
Definition be32_bytes (v : Z) : list byte :=
  let w := v mod 2 ^ 32 in
  [byte_of_Z (Z.shiftr w 24); byte_of_Z (Z.shiftr w 16);
   byte_of_Z (Z.shiftr w 8); byte_of_Z w].

Definition be32_value (bs : list byte) : Z :=
  fold_left (fun acc b => Z.lor (Z.shiftl acc 8) (Z_of_byte b)) bs 0.

(** [view.getUint8(idx)], [view.getUint32(idx)] (big-endian, the default),
    [view.setUint8(idx, v)] and [view.setUint32(idx, v)]; the value written
    is reduced modulo 2^8 and 2^32. *)
Definition getUint8 (v : DataView) (idx : Z) (h : heap) : result Z :=
  if (idx <? 0) || (dv_byteLength v <? idx + 1) then Throw RangeError
  else
    match slice (default [] (h !! dv_buffer v)) (dv_byteOffset v + idx) 1 with
    | [b] => Ok (Z_of_byte b)
    | _ => Throw TypeError
    end.

Definition getUint32 (v : DataView) (idx : Z) (h : heap) : result Z :=
  if (idx <? 0) || (dv_byteLength v <? idx + 4) then Throw RangeError
  else
    match slice (default [] (h !! dv_buffer v)) (dv_byteOffset v + idx) 4 with
    | [_; _; _; _] as bs => Ok (be32_value bs)
    | _ => Throw TypeError
    end.

Definition dv_write (v : DataView) (idx : Z) (src : list byte) : M unit :=
  fun h =>
    if (idx <? 0) || (dv_byteLength v <? idx + Z.of_nat (length src))
    then Throw RangeError
    else
      match h !! dv_buffer v with
      | None => Throw TypeError
      | Some bs => Ok (tt, <[dv_buffer v := splice bs (dv_byteOffset v + idx) src]> h)
      end.

Definition setUint8 (v : DataView) (idx : Z) (x : Z) : M unit :=
  dv_write v idx [byte_of_Z x].

Definition setUint32 (v : DataView) (idx : Z) (x : Z) : M unit :=
  dv_write v idx (be32_bytes x).

(** ** Text: [TextEncoder], [TextDecoder] and [src/text.ts]

    An ECMAScript string is a sequence of 16-bit code units. *)

Abbreviation js_string := (list Z).

Module Text.

(** *** [TextEncoder.prototype.encode]

    The string is first read as a sequence of code points: a lead
    surrogate followed by a trail surrogate is one supplementary code
    point, any other surrogate is replaced by U+FFFD. *)

Definition is_lead (c : Z) : bool := (0xD800 <=? c) && (c <=? 0xDBFF).
Definition is_trail (c : Z) : bool := (0xDC00 <=? c) && (c <=? 0xDFFF).

Fixpoint code_points (s : js_string) : list Z :=
  match s with
  | [] => []
  | c :: s' =>
      if is_lead c then
        match s' with
        | d :: s'' =>
            if is_trail d
            then (0x10000 + Z.shiftl (c - 0xD800) 10 + (d - 0xDC00)) :: code_points s''
            else 0xFFFD :: code_points s'
        | [] => [0xFFFD]
        end
      else if is_trail c then 0xFFFD :: code_points s'
      else c :: code_points s'
  end.

(** The UTF-8 encoder of the WHATWG Encoding standard. *)
Fixpoint utf8_continuation (count : nat) (cp : Z) : list byte :=
  match count with
  | O => []
  | S c =>
      byte_of_Z (Z.lor 0x80 (Z.land (Z.shiftr cp (6 * Z.of_nat c)) 0x3F))
        :: utf8_continuation c cp
  end.

Definition utf8_encode_code_point (cp : Z) : list byte :=
  if cp <=? 0x7F then [byte_of_Z cp]
  else
    let '(count, offset) :=
      if cp <=? 0x7FF then (1%nat, 0xC0)
      else if cp <=? 0xFFFF then (2%nat, 0xE0)
      else (3%nat, 0xF0) in
    byte_of_Z (Z.shiftr cp (6 * Z.of_nat count) + offset)
      :: utf8_continuation count cp.

Definition TextEncoder_encode (s : js_string) : list byte :=
  concat (map utf8_encode_code_point (code_points s)).

(** *** [TextDecoder.prototype.decode]

    The UTF-8 decoder of the WHATWG Encoding standard, in replacement
    mode (the default: [fatal] is false): every error yields U+FFFD. *)

Record utf8_state : Type := mkUtf8
  { code_point : Z;
    bytes_seen : Z;
    bytes_needed : Z;
    lower_boundary : Z;
    upper_boundary : Z }.

Definition utf8_start : utf8_state := mkUtf8 0 0 0 0x80 0xBF.

Inductive handler_result : Type :=
| Continue (st : utf8_state)
| Emit (cp : Z) (st : utf8_state)
| Failure (st : utf8_state)      (* error *)
| Restore (st : utf8_state).     (* error, and the byte is read again *)

Definition in_range (lo hi b : Z) : bool := (lo <=? b) && (b <=? hi).

Definition utf8_handler (st : utf8_state) (b : Z) : handler_result :=
  if bytes_needed st =? 0 then
    if in_range 0x00 0x7F b then Emit b st
    else if in_range 0xC2 0xDF b then
      Continue (mkUtf8 (Z.land b 0x1F) (bytes_seen st) 1
                  (lower_boundary st) (upper_boundary st))
    else if in_range 0xE0 0xEF b then
      Continue (mkUtf8 (Z.land b 0xF) (bytes_seen st) 2
                  (if b =? 0xE0 then 0xA0 else lower_boundary st)
                  (if b =? 0xED then 0x9F else upper_boundary st))
    else if in_range 0xF0 0xF4 b then
      Continue (mkUtf8 (Z.land b 0x7) (bytes_seen st) 3
                  (if b =? 0xF0 then 0x90 else lower_boundary st)
                  (if b =? 0xF4 then 0x8F else upper_boundary st))
    else Failure st
  else if negb (in_range (lower_boundary st) (upper_boundary st) b) then
    Restore utf8_start
  else
    let cp := Z.lor (Z.shiftl (code_point st) 6) (Z.land b 0x3F) in
    let seen := bytes_seen st + 1 in
    if negb (seen =? bytes_needed st) then Continue (mkUtf8 cp seen (bytes_needed st) 0x80 0xBF)
    else Emit cp utf8_start.

(** One byte of input: the code points it yields and the next state.  A
    byte that is read again is handled from the start state, where no
    byte is ever read a third time. *)
Definition utf8_feed (st : utf8_state) (b : Z) : list Z * utf8_state :=
  let fresh (r : handler_result) : list Z * utf8_state :=
    match r with
    | Continue st' => ([], st')
    | Emit cp st' => ([cp], st')
    | Failure st' | Restore st' => ([0xFFFD], st')
    end in
  match utf8_handler st b with
  | Restore st' => let '(out, st'') := fresh (utf8_handler st' b) in (0xFFFD :: out, st'')
  | r => fresh r
  end.

Fixpoint utf8_decode (st : utf8_state) (bs : list byte) : list Z :=
  match bs with
  | [] => if bytes_needed st =? 0 then [] else [0xFFFD]
  | b :: bs' =>
      let '(out, st') := utf8_feed st (Z_of_byte b) in
      out ++ utf8_decode st' bs'
  end.

(** A leading byte order mark is dropped ([ignoreBOM] is false). *)
Definition strip_bom (cps : list Z) : list Z :=
  match cps with
  | cp :: rest => if cp =? 0xFEFF then rest else cps
  | [] => []
  end.

(** Code points back to 16-bit code units. *)
Definition utf16_units (cp : Z) : js_string :=
  if cp <? 0x10000 then [cp]
  else [0xD800 + Z.shiftr (cp - 0x10000) 10; 0xDC00 + Z.land (cp - 0x10000) 0x3FF].

Definition TextDecoder_decode (bs : list byte) : js_string :=
  concat (map utf16_units (strip_bom (utf8_decode utf8_start bs))).

(** *** [src/text.ts] *)

(** [utfEncode(data)]: [new TextEncoder().encode(data)]. *)
Definition utfEncode (data : js_string) : list byte := TextEncoder_encode data.

(** [utfDecode(data)]: [new TextDecoder().decode(data)]. *)
Definition utfDecode (data : list byte) : js_string := TextDecoder_decode data.

(** [Number.prototype.toString(radix)] on a non-negative integer. *)
Definition digit_char (d : Z) : ascii :=
  match String.get (Z.to_nat d) "0123456789abcdefghijklmnopqrstuvwxyz" with
  | Some c => c
  | None => "?"%char
  end.

Fixpoint digits (fuel : nat) (n radix : Z) (acc : string) : string :=
  match fuel with
  | O => acc
  | S fuel' =>
      let acc' := String (digit_char (n mod radix)) acc in
      if n / radix =? 0 then acc' else digits fuel' (n / radix) radix acc'
  end.

Definition Number_toString (n : Z) (radix : option Z) : string :=
  let r := default 10 radix in
  digits (S (Z.to_nat (Z.log2 n))) n r EmptyString.

Definition ascii_upper (c : ascii) : ascii :=
  let n := nat_of_ascii c in
  if ((97 <=? n) && (n <=? 122))%nat then ascii_of_nat (n - 32) else c.

Fixpoint toUpperCase (s : string) : string :=
  match s with
  | EmptyString => EmptyString
  | String c s' => String (ascii_upper c) (toUpperCase s')
  end.

Fixpoint repeat_char (c : ascii) (n : nat) : string :=
  match n with
  | O => EmptyString
  | S n' => String c (repeat_char c n')
  end.

(** [s.padStart(target, "0")]. *)
Definition padStart0 (s : string) (target : Z) : string :=
  (repeat_char "0" (Z.to_nat target - String.length s) ++ s)%string.

(** [pad0(data, digit, radix)]:
    [data.toString(radix).toUpperCase().padStart(digit ?? 2, "0")]. *)
Definition pad0 (data : Z) (digit radix : option Z) : string :=
  padStart0 (toUpperCase (Number_toString data radix)) (default 2 digit).

(** [hexEncode(data)]: [[...data].map(n => pad0(n, 2, 16)).join("")]. *)
Definition hexEncode (data : list byte) : string :=
  String.concat "" (map (fun n => pad0 (Z_of_byte n) (Some 2) (Some 16)) data).

End Text.
Export Text.

(** ** An instance of the digest: SHA-256 (FIPS 180-4)

    The 32-byte digest the Web Cryptography API offers.  The constants are
    computed as the standard defines them, from the square and cube roots
    of the first primes. *)

Module SHA256.

Definition mask32 : Z := 0xFFFFFFFF.
Definition add32 (x y : Z) : Z := Z.land (x + y) mask32.
Definition rotr (n x : Z) : Z :=
  Z.lor (Z.shiftr x n) (Z.land (Z.shiftl x (32 - n)) mask32).

Definition Ch (x y z : Z) : Z :=
  Z.lxor (Z.land x y) (Z.land (Z.lxor x mask32) z).
Definition Maj (x y z : Z) : Z :=
  Z.lxor (Z.lxor (Z.land x y) (Z.land x z)) (Z.land y z).
Definition bsig0 (x : Z) : Z := Z.lxor (Z.lxor (rotr 2 x) (rotr 13 x)) (rotr 22 x).
Definition bsig1 (x : Z) : Z := Z.lxor (Z.lxor (rotr 6 x) (rotr 11 x)) (rotr 25 x).
Definition ssig0 (x : Z) : Z := Z.lxor (Z.lxor (rotr 7 x) (rotr 18 x)) (Z.shiftr x 3).
Definition ssig1 (x : Z) : Z := Z.lxor (Z.lxor (rotr 17 x) (rotr 19 x)) (Z.shiftr x 10).

Definition is_prime (n : nat) : bool :=
  forallb (fun d => negb (Nat.eqb (n mod d) 0)) (seq 2 (n - 2)).

Definition first_primes : list Z := Eval vm_compute in map Z.of_nat (filter (fun n => is_prime n) (seq 2 310)).

(** Integer cube root, bit by bit from the top. *)
Fixpoint icbrt (bit : nat) (n r : Z) : Z :=
  match bit with
  | O => r
  | S bit' =>
      let c := r + 2 ^ Z.of_nat bit' in
      icbrt bit' n (if c * c * c <=? n then c else r)
  end.

Definition round_constants : list Z := Eval vm_compute in
    map (fun p => Z.land (icbrt 40 (p * 2 ^ 96) 0) mask32) first_primes.

Record hash_state : Type := mkHash
  { ha : Z; hb : Z; hc : Z; hd : Z; he : Z; hf : Z; hg : Z; hh : Z }.

Definition initial_hash : hash_state := Eval vm_compute in
    let frac := fun p => Z.land (Z.sqrt (p * 2 ^ 64)) mask32 in
    mkHash (frac 2) (frac 3) (frac 5) (frac 7) (frac 11) (frac 13) (frac 17) (frac 19).

(** Padding: a one bit, zeros up to 56 modulo 64, then the length in bits
    on eight bytes. *)
Definition pad (msg : list byte) : list byte :=
  let len := Z.of_nat (length msg) in
  let zeros := Z.to_nat ((55 - len) mod 64) in
  msg ++ [x80] ++ replicate zeros x00
      ++ be32_bytes (Z.shiftr (8 * len) 32) ++ be32_bytes (8 * len).

Fixpoint chunks (fuel n : nat) (bs : list byte) : list (list byte) :=
  match fuel, bs with
  | S fuel', _ :: _ => take n bs :: chunks fuel' n (drop n bs)
  | _, _ => []
  end.

(** The message schedule, latest word first. *)
Fixpoint schedule (rounds : nat) (ws : list Z) : list Z :=
  match rounds with
  | O => ws
  | S r =>
      let at_ := fun i => nth i ws 0 in
      schedule r (add32 (add32 (ssig1 (at_ 1%nat)) (at_ 6%nat))
                        (add32 (ssig0 (at_ 14%nat)) (at_ 15%nat)) :: ws)
  end.

Definition round (s : hash_state) (kw : Z * Z) : hash_state :=
  let t1 := add32 (add32 (add32 (hh s) (bsig1 (he s))) (Ch (he s) (hf s) (hg s)))
                  (add32 (fst kw) (snd kw)) in
  let t2 := add32 (bsig0 (ha s)) (Maj (ha s) (hb s) (hc s)) in
  mkHash (add32 t1 t2) (ha s) (hb s) (hc s) (add32 (hd s) t1) (he s) (hf s) (hg s).

Definition compress (s : hash_state) (block : list byte) : hash_state :=
  let w16 := map be32_value (chunks 16 4 block) in
  let w64 := rev (schedule 48 (rev w16)) in
  let t := fold_left round (combine round_constants w64) s in
  mkHash (add32 (ha s) (ha t)) (add32 (hb s) (hb t)) (add32 (hc s) (hc t))
         (add32 (hd s) (hd t)) (add32 (he s) (he t)) (add32 (hf s) (hf t))
         (add32 (hg s) (hg t)) (add32 (hh s) (hh t)).

(** Modelled from the spec: [cryptoHash(false, data)] of [crypto.ts],
    which is not among the sources.  The specification describes it as a
    cryptographic digest of 32 bytes, a deterministic function of the
    bytes of [data]; SHA-256, the 32-byte digest of the Web Cryptography
    API, is taken here.  The properties below are proved for every digest
    of 32 bytes; this one is the digest of the evaluated examples. *)
Definition sha256 (msg : list byte) : list byte :=
  let padded := pad msg in
  let s := fold_left compress (chunks (length padded) 64 padded) initial_hash in
  be32_bytes (ha s) ++ be32_bytes (hb s) ++ be32_bytes (hc s) ++ be32_bytes (hd s)
    ++ be32_bytes (he s) ++ be32_bytes (hf s) ++ be32_bytes (hg s) ++ be32_bytes (hh s).

End SHA256.

(** ** [src/minipack.ts] *)

Definition sizeHash : Z := 32.
Definition sizeName : Z := 1.
Definition sizeBody : Z := 4.

(** [type FileInit = [string, Uint8Array]]. *)
Definition FileInit : Type := js_string * Uint8Array.

Definition lift {A : Type} (f : heap -> result A) : M A :=
  fun h => match f h with Ok a => Ok (a, h) | Throw e => Throw e end.

Definition u8_read (a : Uint8Array) : M (list byte) :=
  fun h => Ok (u8_bytes h a, h).

Section Minipack.

(** [cryptoHash(false, data)] of [crypto.ts]; the promise it returns is
    awaited at once, so that it is a function of the bytes of [data]. *)
Variable cryptoHash : list byte -> list byte.

Local Open Scope js_scope.

(** The body of [for(const [k, v] of files)], with the write cursor [i]. *)
Fixpoint encode_loop (archive : Uint8Array) (files : list FileInit) (i : Z) : M Z :=
  match files with
  | [] => ret i
  | (k, v) :: rest =>
      let name := utfEncode k in
      let body := v in
      hash <- (data <- u8_read body ;; ret (cryptoHash data)) ;;
      u8_set archive hash i ;;;
      let i := i + sizeHash in
      dv <- lift (new_DataView (buffer archive) i) ;;
      setUint8 dv 0 (Z.of_nat (length name)) ;;;
      let i := i + sizeName in
      dv <- lift (new_DataView (buffer archive) i) ;;
      setUint32 dv 0 (byteLength body) ;;;
      let i := i + sizeBody in
      u8_set archive name i ;;;
      let i := i + Z.of_nat (length name) in
      data <- u8_read body ;;
      u8_set archive data i ;;;
      let i := i + byteLength body in
      encode_loop archive rest i
  end.

(** The size of the archive, as the [reduce] of the first line computes it. *)
Definition archive_size (files : list FileInit) : Z :=
  fold_left
    (fun a '(k, v) =>
       a + sizeHash + sizeName + sizeBody + Z.of_nat (length (utfEncode k)) + byteLength v)
    files 0.

Definition minipackEncode (files : list FileInit) : M Uint8Array :=
  archive <- new_Uint8Array (archive_size files) ;;
  _ <- encode_loop archive files 0 ;;
  ret archive.

(** The fields of the record at the cursor [i] (lines 57 to 67): the
    stored digest, the name, the body and the cursor after them. *)
Definition read_record (h : heap) (archive : Uint8Array) (i : Z)
  : result (Uint8Array * js_string * Uint8Array * Z) :=
  let hash := subarray archive i (i + sizeHash) in
  let i := i + sizeHash in
  let! dv := new_DataView (buffer archive) i h in
  let! ns := getUint8 dv 0 h in
  let i := i + sizeName in
  let! dv := new_DataView (buffer archive) i h in
  let! bs := getUint32 dv 0 h in
  let i := i + sizeBody in
  let name := utfDecode (u8_bytes h (subarray archive i (i + ns))) in
  let i := i + ns in
  let body := subarray archive i (i + bs) in
  let i := i + bs in
  Ok (hash, name, body, i).

(** One turn of the loop of [minipackDecode] from the cursor [i]: the
    record is read, its digest is compared with that of the body, and the
    entry is the one pushed on [files]. *)
Definition decode_record (h : heap) (archive : Uint8Array) (i : Z)
  : result (FileInit * Z) :=
  let! (hash, name, body, i) := read_record h archive i in
  if negb (String.eqb (hexEncode (u8_bytes h hash))
                      (hexEncode (cryptoHash (u8_bytes h body))))
  then Throw Error
  else Ok ((name, body), i).

(** [for(let i = 0; i < archive.byteLength; false)]: [None] when the
    loop has not finished within [fuel] turns. *)
Fixpoint decode_loop (fuel : nat) (h : heap) (archive : Uint8Array)
         (i : Z) (files : list FileInit) : option (result (list FileInit)) :=
  if i <? byteLength archive then
    match fuel with
    | O => None
    | S fuel' =>
        match decode_record h archive i with
        | Ok (file, i') => decode_loop fuel' h archive i' (files ++ [file])
        | Throw e => Some (Throw e)
        end
    end
  else Some (Ok files).

(** Every turn consumes at least the 37 bytes of a header, so that
    [byteLength / 37 + 1] turns are enough (see [decode_loop_fuel]). *)
Definition decode_fuel (archive : Uint8Array) : nat :=
  Z.to_nat (byteLength archive / (sizeHash + sizeName + sizeBody) + 1).

Definition minipackDecode (h : heap) (archive : Uint8Array)
  : option (result (list FileInit)) :=
  decode_loop (decode_fuel archive) h archive 0 [].

(** The entries of a result, by content. *)
Definition contents (h : heap) (files : list FileInit) : list (js_string * list byte) :=
  map (fun f => (fst f, u8_bytes h (snd f))) files.

End Minipack.

(** Strings of the examples, written in ASCII. *)
Definition str (s : string) : js_string :=
  map (fun c => Z.of_nat (nat_of_ascii c)) (list_ascii_of_string s).


(** ** Definitions used to state the properties *)

(** Reading two hexadecimal digits back, to tell [hexEncode]d strings
    apart. *)
Definition hex_digit_value (c : ascii) : Z :=
  let n := Z.of_nat (nat_of_ascii c) in
  if n <? 65 then n - 48 else n - 55.

Definition unhex (s : string) : option (byte * string) :=
  match s with
  | String c1 (String c2 rest) =>
      Some (byte_of_Z (hex_digit_value c1 * 16 + hex_digit_value c2), rest)
  | _ => None
  end.

(** A string is well formed when its code units are 16-bit numbers and
    every surrogate is half of a pair: a lead followed by a trail. *)
Fixpoint well_formed (s : js_string) : bool :=
  match s with
  | [] => true
  | c :: s' =>
      if is_lead c then
        match s' with
        | d :: s'' => is_trail d && well_formed s''
        | [] => false
        end
      else negb (is_trail c) && (0 <=? c) && (c <=? 0xFFFF) && well_formed s'
  end.

(** The string starts with U+FEFF, the byte order mark. *)
Definition starts_with_bom (s : js_string) : bool :=
  match s with
  | c :: _ => c =? 0xFEFF
  | [] => false
  end.

(** Unicode scalar values: the code points that are not surrogates. *)
Definition scalar (cp : Z) : Prop :=
  0 <= cp <= 0x10FFFF /\ ~ (0xD800 <= cp <= 0xDFFF).

(** Every array of the input is well formed in the store. *)
Definition files_ok (h : heap) (files : list FileInit) : bool :=
  forallb (fun f => view_ok h (snd f)) files.

(** The preconditions the format puts on an entry: a name of at most 255
    bytes once encoded and a body of at most 2^32 - 1 bytes. *)
Definition entry_in_range (f : FileInit) : bool :=
  (Z.of_nat (length (utfEncode (fst f))) <=? 255) && (byteLength (snd f) <=? 2 ^ 32 - 1).

(** What an entry is expected to come back as: the name through the two
    text conversions, and the bytes of the body. *)
Definition entry_content (h : heap) (f : FileInit) : js_string * list byte :=
  (utfDecode (utfEncode (fst f)), u8_bytes h (snd f)).

Section Layout.

Variable cryptoHash : list byte -> list byte.

(** The record of an entry as the format describes it: digest, length of
    the name on one byte, length of the body on four bytes (big-endian),
    name, body.  The two length fields hold what [setUint8] and
    [setUint32] store, the length modulo 2^8 and 2^32. *)
Definition record_layout (h : heap) (f : FileInit) : list byte :=
  let name := utfEncode (fst f) in
  let body := u8_bytes h (snd f) in
  cryptoHash body
    ++ [byte_of_Z (Z.of_nat (length name))]
    ++ be32_bytes (byteLength (snd f))
    ++ name ++ body.

Definition archive_layout (h : heap) (files : list FileInit) : list byte :=
  concat (map (record_layout h) files).

(** The size of a record, from the lengths of its name and body. *)
Definition record_size (f : FileInit) : Z :=
  32 + 1 + 4 + Z.of_nat (length (utfEncode (fst f))) + byteLength (snd f).

(** The two length fields of the record that starts at [i] in a byte
    sequence. *)
Definition header_name_len (whole : list byte) (i : Z) : Z :=
  Z_of_byte (default x00 (whole !! Z.to_nat (i + 32))).

Definition header_body_len (whole : list byte) (i : Z) : Z :=
  be32_value (slice whole (i + 33) 4).

(** The states of the loop of [minipackDecode]: the cursor and the entries
    pushed so far, from the start through turns that did not throw. *)
Inductive loop_reaches (h : heap) (archive : Uint8Array) : Z -> list FileInit -> Prop :=
| reaches_start : loop_reaches h archive 0 []
| reaches_turn (i i' : Z) (files : list FileInit) (file : FileInit) :
    loop_reaches h archive i files ->
    i < byteLength archive ->
    decode_record cryptoHash h archive i = Ok (file, i') ->
    loop_reaches h archive i' (files ++ [file]).

End Layout.

(** ** Inputs of the examples *)

(** A store with one buffer of three bytes, and the array that covers it. *)
Definition ex_store : heap := [[x01; x02; x03]].
Definition ex_body : Uint8Array := mkU8 0 0 3.

(** The entry ("a.txt", three bytes). *)
Definition ex_files : list FileInit := [(str "a.txt", ex_body)].

(** A name that starts with U+FEFF, and a name of 256 bytes. *)
Definition ex_bom_files : list FileInit := [([0xFEFF; 0x61], ex_body)].
Definition ex_long_name_files : list FileInit := [(replicate 256 0x61, ex_body)].

(** A name that ends with an unpaired surrogate. *)
Definition ex_surrogate_files : list FileInit := [([0x61; 0xD800], ex_body)].

(** The archive of the entry ("a", no byte) cut after its header: the
    name_len field says one byte, and no byte follows. *)
Definition ex_truncated : list byte :=
  SHA256.sha256 [] ++ [x01; x00; x00; x00; x00].

(** A record whose stored digest is 32 zero bytes. *)
Definition ex_bad_digest : list byte :=
  replicate 32 x00 ++ [x00; x00; x00; x00; x00].

(** A body of 256 bytes that is also the UTF-8 encoding of a name.  It
    is one byte away from a record: [ex_c5_inner] is the record of a
    119-byte body under a name of 100 bytes, and [ex_c5_body] is that
    record with the byte 11 of its digest (0xF8) replaced by 0x78, which
    makes it ASCII. *)
Definition ex_c5_inner_body : list byte :=
  replicate 112 x78 ++ [x31; x31; x38; x38; x34; x35; x37].

Definition ex_c5_inner : list byte :=
  SHA256.sha256 ex_c5_inner_body ++ [x64; x00; x00; x00; x77]
    ++ replicate 100 x6e ++ ex_c5_inner_body.

Definition ex_c5_body : list byte := <[11%nat := x78]> ex_c5_inner.

Definition ex_c5_name : js_string := map Z_of_byte ex_c5_body.

Definition ex_c5_store : heap := [ex_c5_body].

Definition ex_c5_files : list FileInit := [(ex_c5_name, mkU8 0 0 256)].

(** * More of the sources

    The functions of [src/text.ts] that [minipack.ts] does not call, and
    those of the earlier revision of that module (functions [textHexEncode],
    [textHexDecode], [textPadZero], ...) that differ from them. *)

(** ** Hexadecimal text: [hexDecode], [textHexEncode], [textHexDecode] *)

Module Hex.

(** The class [[0-9a-fA-F]], on code units. *)
Definition is_hex_digit (c : Z) : bool :=
  in_range 0x30 0x39 c || in_range 0x41 0x46 c || in_range 0x61 0x66 c.

(** The value of a digit in a radix up to 36: [0-9], then the letters in
    either case; [None] for any other code unit. *)
Definition digit_value (c : Z) : option Z :=
  if in_range 0x30 0x39 c then Some (c - 0x30)
  else if in_range 0x41 0x5A c then Some (c - 0x41 + 10)
  else if in_range 0x61 0x7A c then Some (c - 0x61 + 10)
  else None.

(** [data.match(/[0-9a-fA-F]{2}/g)]: the matches are found from left to
    right and do not overlap; after a position where two hexadecimal
    digits are not found the search goes on one code unit further.  The
    result is [null] when there is no match. *)
Fixpoint hex_pairs (s : js_string) : list js_string :=
  match s with
  | c1 :: s' =>
      match s' with
      | c2 :: rest =>
          if is_hex_digit c1 && is_hex_digit c2 then [c1; c2] :: hex_pairs rest
          else hex_pairs s'
      | [] => []
      end
  | [] => []
  end.

Definition match_hex_pairs (data : js_string) : option (list js_string) :=
  match hex_pairs data with
  | [] => None
  | ms => Some ms
  end.

(** White space and line terminators, which [trim], [Number] and
    [parseInt] skip. *)
Definition is_line_terminator (c : Z) : bool :=
  (c =? 0x0A) || (c =? 0x0D) || (c =? 0x2028) || (c =? 0x2029).

Definition is_white_space (c : Z) : bool :=
  (c =? 0x09) || (c =? 0x0B) || (c =? 0x0C) || (c =? 0x20) || (c =? 0xA0)
  || (c =? 0x1680) || in_range 0x2000 0x200A c || (c =? 0x202F) || (c =? 0x205F)
  || (c =? 0x3000) || (c =? 0xFEFF).

Definition is_trimmed_away (c : Z) : bool := is_white_space c || is_line_terminator c.

Fixpoint drop_while (p : Z -> bool) (s : js_string) : js_string :=
  match s with
  | c :: s' => if p c then drop_while p s' else s
  | [] => []
  end.

(** The number a run of digits denotes in a radix. *)
Definition digits_number (radix : Z) (ds : list Z) : Z :=
  fold_left (fun acc d => acc * radix + d) ds 0.

(** [Number(`0x${s}`)]: the string is a number when [s], white space at
    its end apart, is made of one hexadecimal digit or more; [None] is
    NaN.  (Exact while the value is below 2^53.) *)
Definition Number_0x (s : js_string) : option Z :=
  let body := rev (drop_while is_trimmed_away (rev s)) in
  match body with
  | [] => None
  | _ =>
      if forallb is_hex_digit body
      then Some (digits_number 16 (map (fun c => default 0 (digit_value c)) body))
      else None
  end.

(** The longest run of digits of the radix at the head of a string. *)
Fixpoint leading_digits (radix : Z) (s : js_string) : list Z :=
  match s with
  | c :: s' =>
      match digit_value c with
      | Some d => if d <? radix then d :: leading_digits radix s' else []
      | None => []
      end
  | [] => []
  end.

(** [parseInt(s, radix)] with a radix from 2 to 36: white space and one
    sign are skipped, then [0x] or [0X] when the radix is 16, and the
    digits that follow are read as far as they go; [None] is NaN.  (Exact
    while the value is below 2^53.  A radix of 0, which the platform
    takes for 10 or 16, is not used by the sources and is not modelled:
    it falls with the radixes that give NaN.) *)
Definition parseInt (s : js_string) (radix : Z) : option Z :=
  if (radix <? 2) || (36 <? radix) then None
  else
    let s1 := drop_while is_trimmed_away s in
    let '(sign, s2) :=
      match s1 with
      | c :: s' => if c =? 0x2D then (-1, s') else if c =? 0x2B then (1, s') else (1, s1)
      | [] => (1, s1)
      end in
    let s3 :=
      match s2 with
      | c0 :: cx :: s' =>
          if (radix =? 16) && (c0 =? 0x30) && ((cx =? 0x78) || (cx =? 0x58)) then s' else s2
      | _ => s2
      end in
    match leading_digits radix s3 with
    | [] => None
    | ds => Some (sign * digits_number radix ds)
    end.

(** An element given to [new Uint8Array([...])]: NaN is 0, and a number
    is taken modulo 2^8. *)
Definition uint8_of_number (n : option Z) : byte := byte_of_Z (default 0 n).

(** [hexDecode(data)] of [src/text.ts]:
    [new Uint8Array(data.match(/[0-9a-fA-F]{2}/g)?.map(s => Number(`0x${s}`)) ?? [])]. *)
Definition hexDecode (data : js_string) : list byte :=
  map uint8_of_number (default [] (option_map (map Number_0x) (match_hex_pairs data))).

(** [textPadZero(data, digit, radix)] of the earlier module:
    [data.toString(radix).padStart(digit ?? 2, "0")]. *)
Definition textPadZero (data : Z) (digit radix : option Z) : string :=
  padStart0 (Number_toString data radix) (default 2 digit).

(** [textHexEncode(data)] of the earlier module:
    [Array.from(data, v => textPadZero(v, 2, 16)).join("")]. *)
Definition textHexEncode (data : list byte) : string :=
  String.concat "" (map (fun v => textPadZero (Z_of_byte v) (Some 2) (Some 16)) data).

(** [textHexDecode(data)] of the earlier module:
    [new Uint8Array(data.match(/[0-9a-fA-F]{2}/g)?.map(v => parseInt(v, 16)) ?? [])]. *)
Definition textHexDecode (data : js_string) : list byte :=
  map uint8_of_number
      (default [] (option_map (map (fun v => parseInt v 16)) (match_hex_pairs data))).

(** [s.toUpperCase()] on the code units of the ASCII letters, which is
    all it changes in a string of hexadecimal digits. *)
Definition upper_unit (c : Z) : Z := if in_range 0x61 0x7A c then c - 0x20 else c.

End Hex.
Export Hex.

(** The upper-case digit [pad0] writes for a value below 16, and the
    lower-case one of [textPadZero]. *)
Definition upper_digit_unit (d : Z) : Z := if d <? 10 then 0x30 + d else 0x37 + d.
Definition lower_digit_unit (d : Z) : Z := if d <? 10 then 0x30 + d else 0x57 + d.


(** ** [trimExtend] (and [textPurgeSuperfluous], which has the same body) *)

Module Trim.

(** [s.trim()]: white space and line terminators are dropped at both
    ends. *)
Definition String_trim (s : js_string) : js_string :=
  rev (drop_while is_trimmed_away (rev (drop_while is_trimmed_away s))).

(** [s.replace(/c/g, "")] for one code unit [c]. *)
Definition remove_unit (c : Z) (s : js_string) : js_string :=
  List.filter (fun x => negb (x =? c)) s.

(** [s.replace(/c+/g, "c")] for one code unit [c]: a match starts at the
    first [c] of a run and takes the whole run; [in_run] tells that the
    code unit before was part of a match. *)
Fixpoint collapse_from (c : Z) (in_run : bool) (s : js_string) : js_string :=
  match s with
  | x :: s' =>
      if x =? c
      then if in_run then collapse_from c true s' else c :: collapse_from c true s'
      else x :: collapse_from c false s'
  | [] => []
  end.

Definition collapse_runs (c : Z) (s : js_string) : js_string := collapse_from c false s.

(** [s.replace(/^ /mg, "")]: with the flag [m], [^] matches at the start
    of the text and after a line terminator of the text as it was given;
    [at_start] tells that the position is such a one. *)
Fixpoint strip_from (at_start : bool) (s : js_string) : js_string :=
  match s with
  | x :: s' =>
      if at_start && (x =? 0x20) then strip_from false s'
      else x :: strip_from (is_line_terminator x) s'
  | [] => []
  end.

Definition strip_line_start (s : js_string) : js_string := strip_from true s.

(** [s.replace(/ $/mg, "")]: with the flag [m], [$] matches at the end of
    the text and before a line terminator. *)
Definition at_line_end (s : js_string) : bool :=
  match s with
  | y :: _ => is_line_terminator y
  | [] => true
  end.

Fixpoint strip_line_end (s : js_string) : js_string :=
  match s with
  | x :: s' =>
      if (x =? 0x20) && at_line_end s' then strip_line_end s'
      else x :: strip_line_end s'
  | [] => []
  end.

(** [trimExtend(data)] of [src/text.ts]:
    [data.trim().replace(/\r/g, "").replace(/ +/g, " ").replace(/\t+/g, "\t")
         .replace(/\n+/g, "\n").replace(/^ /mg, "").replace(/ $/mg, "")]. *)
Definition trimExtend (data : js_string) : js_string :=
  strip_line_end
    (strip_line_start
       (collapse_runs 0x0A
          (collapse_runs 0x09
             (collapse_runs 0x20
                (remove_unit 0x0D (String_trim data)))))).

End Trim.
Export Trim.

(** No two neighbours of a text are in the relation [R]. *)
Fixpoint pairs_ok (R : Z -> Z -> bool) (s : js_string) : bool :=
  match s with
  | x :: s' =>
      match s' with
      | y :: _ => negb (R x y) && pairs_ok R s'
      | [] => true
      end
  | [] => true
  end.

(** The characters [trimExtend] never removes. *)
Definition visible (c : Z) : bool := negb (is_trimmed_away c).

(** [l] is [t] without some of its blank characters. *)
Definition only_blanks_removed (l t : js_string) : Prop :=
  l `sublist_of` t /\ List.filter visible l = List.filter visible t.

(** Neighbours that are both [c]; a space after a line terminator; a
    space before one. *)
Definition both (c x y : Z) : bool := (x =? c) && (y =? c).
Definition after_terminator (x y : Z) : bool := is_line_terminator x && (y =? 0x20).
Definition before_terminator (x y : Z) : bool := (x =? 0x20) && is_line_terminator y.

(** ** [fixWidth] (and [textFixWidth], which has the same table and body) *)

Module Width.

(** The code units of a text of the source file, which is UTF-8. *)
Definition units (s : string) : js_string := utfDecode (list_byte_of_string s).

(** The table of [fixWidth], in the order of the source: [Object.entries]
    gives the entries of an object in the order they were written when,
    as here, no key is an array index. *)
Definition fixWidth_entries : list (string * string) :=
  let quote := String (ascii_of_nat 34) EmptyString in
  let backslash := String (ascii_of_nat 92) EmptyString in
  [("ｳﾞ", "ヴ");
   ("ｶﾞ", "ガ"); ("ｷﾞ", "ギ"); ("ｸﾞ", "グ"); ("ｹﾞ", "ゲ"); ("ｺﾞ", "ゴ");
   ("ｻﾞ", "ザ"); ("ｼﾞ", "ジ"); ("ｽﾞ", "ズ"); ("ｾﾞ", "ゼ"); ("ｿﾞ", "ゾ");
   ("ﾀﾞ", "ダ"); ("ﾁﾞ", "ヂ"); ("ﾂﾞ", "ヅ"); ("ﾃﾞ", "デ"); ("ﾄﾞ", "ド");
   ("ﾊﾞ", "バ"); ("ﾋﾞ", "ビ"); ("ﾌﾞ", "ブ"); ("ﾍﾞ", "ベ"); ("ﾎﾞ", "ボ");
   ("ﾊﾟ", "パ"); ("ﾋﾟ", "ピ"); ("ﾌﾟ", "プ"); ("ﾍﾟ", "ペ"); ("ﾎﾟ", "ポ");
   ("ｱ", "ア"); ("ｲ", "イ"); ("ｳ", "ウ"); ("ｴ", "エ"); ("ｵ", "オ");
   ("ｶ", "カ"); ("ｷ", "キ"); ("ｸ", "ク"); ("ｹ", "ケ"); ("ｺ", "コ");
   ("ｻ", "サ"); ("ｼ", "シ"); ("ｽ", "ス"); ("ｾ", "セ"); ("ｿ", "ソ");
   ("ﾀ", "タ"); ("ﾁ", "チ"); ("ﾂ", "ツ"); ("ﾃ", "テ"); ("ﾄ", "ト");
   ("ﾅ", "ナ"); ("ﾆ", "ニ"); ("ﾇ", "ヌ"); ("ﾈ", "ネ"); ("ﾉ", "ノ");
   ("ﾊ", "ハ"); ("ﾋ", "ヒ"); ("ﾌ", "フ"); ("ﾍ", "ヘ"); ("ﾎ", "ホ");
   ("ﾏ", "マ"); ("ﾐ", "ミ"); ("ﾑ", "ム"); ("ﾒ", "メ"); ("ﾓ", "モ");
   ("ﾔ", "ヤ"); ("ﾕ", "ユ"); ("ﾖ", "ヨ");
   ("ﾗ", "ラ"); ("ﾘ", "リ"); ("ﾙ", "ル"); ("ﾚ", "レ"); ("ﾛ", "ロ");
   ("ﾜ", "ワ"); ("ｦ", "ヲ"); ("ﾝ", "ン");
   ("ｧ", "ァ"); ("ｨ", "ィ"); ("ｩ", "ゥ"); ("ｪ", "ェ"); ("ｫ", "ォ");
   ("ｯ", "ッ");
   ("ｬ", "ャ"); ("ｭ", "ュ"); ("ｮ", "ョ");
   ("､", "、"); ("｡", "。"); ("･", "・"); ("ｰ", "ー"); ("｢", "「"); ("｣", "」");
   ("Ａ", "A"); ("Ｂ", "B"); ("Ｃ", "C"); ("Ｄ", "D"); ("Ｅ", "E"); ("Ｆ", "F"); ("Ｇ", "G"); ("Ｈ", "H"); ("Ｉ", "I"); ("Ｊ", "J"); ("Ｋ", "K"); ("Ｌ", "L"); ("Ｍ", "M");
   ("Ｎ", "N"); ("Ｏ", "O"); ("Ｐ", "P"); ("Ｑ", "Q"); ("Ｒ", "R"); ("Ｓ", "S"); ("Ｔ", "T"); ("Ｕ", "U"); ("Ｖ", "V"); ("Ｗ", "W"); ("Ｘ", "X"); ("Ｙ", "Y"); ("Ｚ", "Z");
   ("ａ", "a"); ("ｂ", "b"); ("ｃ", "c"); ("ｄ", "d"); ("ｅ", "e"); ("ｆ", "f"); ("ｇ", "g"); ("ｈ", "h"); ("ｉ", "i"); ("ｊ", "j"); ("ｋ", "k"); ("ｌ", "l"); ("ｍ", "m");
   ("ｎ", "n"); ("ｏ", "o"); ("ｐ", "p"); ("ｑ", "q"); ("ｒ", "r"); ("ｓ", "s"); ("ｔ", "t"); ("ｕ", "u"); ("ｖ", "v"); ("ｗ", "w"); ("ｘ", "x"); ("ｙ", "y"); ("ｚ", "z");
   ("０", "0"); ("１", "1"); ("２", "2"); ("３", "3"); ("４", "4"); ("５", "5"); ("６", "6"); ("７", "7"); ("８", "8"); ("９", "9");
   ("！", "!"); ("＂", quote); ("＃", "#"); ("＄", "$"); ("％", "%"); ("＆", "&"); ("＇", "'"); ("（", "("); ("）", ")"); ("＊", "*"); ("＋", "+"); ("，", ","); ("－", "-"); ("．", "."); ("／", "/"); ("：", ":");
   ("；", ";"); ("＜", "<"); ("＝", "="); ("＞", ">"); ("？", "?"); ("＠", "@"); ("［", "["); ("＼", backslash); ("］", "]"); ("＾", "^"); ("＿", "_"); ("｀", "`"); ("｛", "{"); ("｜", "|"); ("｝", "}"); ("～", "~"); ("　", " ")]%string.

Definition fixWidth_table : list (js_string * js_string) :=
  map (fun '(k, v) => (units k, units v)) fixWidth_entries.

(** [k] is found at the head of [s]. *)
Fixpoint starts_with (k s : js_string) : bool :=
  match k with
  | [] => true
  | c :: k' =>
      match s with
      | x :: s' => (x =? c) && starts_with k' s'
      | [] => false
      end
  end.

(** [text.replace(new RegExp(k, "g"), v)] for a key [k] that is not empty
    and holds no character of the syntax of regular expressions, and a
    value [v] that holds no [$] pattern: the occurrences of [k] are found
    from left to right and do not overlap; [skip] counts the code units
    of an occurrence that are still to be passed. *)
Fixpoint replace_from (k v : js_string) (skip : nat) (s : js_string) : js_string :=
  match s with
  | x :: s' =>
      match skip with
      | S n => replace_from k v n s'
      | O =>
          if starts_with k s then v ++ replace_from k v (length k - 1) s'
          else x :: replace_from k v 0 s'
      end
  | [] => []
  end.

Definition replace_all (k v s : js_string) : js_string := replace_from k v 0 s.

(** [fixWidth(data)] of [src/text.ts]:
    [Object.entries({...}).reduce((text, [k, v]) => text.replace(new RegExp(k, "g"), v), data)]. *)
Definition reduce_replace (table : list (js_string * js_string)) (data : js_string) : js_string :=
  fold_left (fun text '(k, v) => replace_all k v text) table data.

Definition fixWidth (data : js_string) : js_string := reduce_replace fixWidth_table data.

(** [cleanText(data)] of [src/text.ts]: [trimExtend(fixWidth(data))]. *)
Definition cleanText (data : js_string) : js_string := trimExtend (fixWidth data).

End Width.
Export Width.

(** ** The earlier revision of the text module

    [textEncode], [textDecode], [textPurgeSuperfluous], [textFixWidth] and
    [textGetReady] have the bodies of [utfEncode], [utfDecode],
    [trimExtend], [fixWidth] and [cleanText]; the table of [textFixWidth]
    is that of [fixWidth], entry for entry.  ([textHexEncode],
    [textHexDecode] and [textPadZero], which differ, are above.) *)

Module Earlier.

(** [textEncode(data)]: [new TextEncoder().encode(data)]. *)
Definition textEncode (data : js_string) : list byte := TextEncoder_encode data.

(** [textDecode(data)]: [new TextDecoder().decode(data)]. *)
Definition textDecode (data : list byte) : js_string := TextDecoder_decode data.

(** [textPurgeSuperfluous(data)]:
    [data.trim().replace(/\r/g, "").replace(/ +/g, " ").replace(/\t+/g, "\t")
         .replace(/\n+/g, "\n").replace(/^ /mg, "").replace(/ $/mg, "")]. *)
Definition textPurgeSuperfluous (data : js_string) : js_string :=
  strip_line_end
    (strip_line_start
       (collapse_runs 0x0A
          (collapse_runs 0x09
             (collapse_runs 0x20
                (remove_unit 0x0D (String_trim data)))))).

(** [textFixWidth(data)]:
    [Object.entries({...}).reduce((text, [k, v]) => text.replace(new RegExp(k, "g"), v), data)]. *)
Definition textFixWidth (data : js_string) : js_string := reduce_replace fixWidth_table data.

(** [textGetReady(data)]: [textPurgeSuperfluous(textFixWidth(data))]. *)
Definition textGetReady (data : js_string) : js_string :=
  textPurgeSuperfluous (textFixWidth data).

End Earlier.
Export Earlier.

(** One pass over a text with a table: at each position the first entry
    of the table whose key is found there is applied, and the search goes
    on after the key; what has been written is not read again. *)
Definition first_match (table : list (js_string * js_string)) (s : js_string)
  : option (js_string * js_string) :=
  List.find (fun '(k, _) => starts_with k s) table.

Fixpoint convert_from (table : list (js_string * js_string)) (skip : nat) (s : js_string)
  : js_string :=
  match s with
  | x :: s' =>
      match skip with
      | S n => convert_from table n s'
      | O =>
          match first_match table s with
          | Some (k, v) => v ++ convert_from table (length k - 1) s'
          | None => x :: convert_from table 0 s'
          end
      end
  | [] => []
  end.

Definition one_pass (table : list (js_string * js_string)) (s : js_string) : js_string :=
  convert_from table 0 s.

(** The shape of a table for which the replacements made one after the
    other come to one pass: a key has one code unit or two, a value has
    one; no value is the first or the second code unit of a key, and the
    second code unit of a key is not the first of one. *)
Definition key_head (e : js_string * js_string) (c : Z) : bool :=
  match fst e with
  | x :: _ => x =? c
  | [] => false
  end.

Definition key_second (e : js_string * js_string) (c : Z) : bool :=
  match fst e with
  | _ :: y :: _ => y =? c
  | _ => false
  end.

Definition is_key_head (table : list (js_string * js_string)) (c : Z) : bool :=
  existsb (fun e => key_head e c) table.

Definition is_key_second (table : list (js_string * js_string)) (c : Z) : bool :=
  existsb (fun e => key_second e c) table.

Definition entry_ok (table : list (js_string * js_string)) (e : js_string * js_string) : bool :=
  match e with
  | ([_], [w]) => negb (is_key_head table w) && negb (is_key_second table w)
  | ([_; m], [w]) =>
      negb (is_key_head table w) && negb (is_key_second table w)
      && negb (is_key_head table m)
  | _ => false
  end.

Definition table_ok (table : list (js_string * js_string)) : bool :=
  forallb (entry_ok table) table.

(** An entry of a table, or of a part of it. *)
Definition entry_in (table : list (js_string * js_string)) (e : js_string * js_string) : Prop :=
  entry_ok table e = true
  /\ (forall c, key_head e c = true -> is_key_head table c = true)
  /\ (forall c, key_second e c = true -> is_key_second table c = true).

(** The first code unit of every key is a key by itself. *)
Definition heads_are_keys (table : list (js_string * js_string)) : bool :=
  forallb (fun e => match fst e with
                    | c :: _ => existsb (fun e' => if decide (fst e' = [c]) then true else false) table
                    | [] => false
                    end) table.

(** ** Definitions used to state the properties of [utfEncode] and [utfDecode] *)

(** The code units of a string are 16-bit numbers. *)
Definition code_units (s : js_string) : bool :=
  forallb (fun c => (0 <=? c) && (c <=? 0xFFFF)) s.

(** A string with every surrogate that is not half of a pair replaced by
    U+FFFD. *)
Fixpoint replace_lone_surrogates (s : js_string) : js_string :=
  match s with
  | [] => []
  | c :: s' =>
      if is_lead c then
        match s' with
        | d :: s'' =>
            if is_trail d then c :: d :: replace_lone_surrogates s''
            else 0xFFFD :: replace_lone_surrogates s'
        | [] => [0xFFFD]
        end
      else if is_trail c then 0xFFFD :: replace_lone_surrogates s'
      else c :: replace_lone_surrogates s'
  end.

(** A string without the U+FEFF it starts with, if it does. *)
Definition drop_bom (s : js_string) : js_string :=
  match s with
  | c :: rest => if c =? 0xFEFF then rest else s
  | [] => []
  end.

(** The states of the UTF-8 decoder between two bytes: the start state,
    or a sequence under way, in which the code points that can still be
    completed lie between [utf8_low] and [utf8_high], on one side of the
    surrogates. *)
Definition utf8_low (st : utf8_state) : Z :=
  (code_point st * 64 + (lower_boundary st - 0x80))
  * 64 ^ (bytes_needed st - bytes_seen st - 1).

Definition utf8_high (st : utf8_state) : Z :=
  (code_point st * 64 + (upper_boundary st - 0x80) + 1)
  * 64 ^ (bytes_needed st - bytes_seen st - 1) - 1.

Definition utf8_under_way (st : utf8_state) : Prop :=
  1 <= bytes_needed st - bytes_seen st <= 3
  /\ 0 <= bytes_seen st
  /\ 0x80 <= lower_boundary st /\ upper_boundary st <= 0xBF
  /\ ((0 <= utf8_low st /\ utf8_high st <= 0xD7FF)
      \/ (0xE000 <= utf8_low st /\ utf8_high st <= 0x10FFFF)).

Definition utf8_inv (st : utf8_state) : Prop := st = utf8_start \/ utf8_under_way st.

(** ** More inputs of the examples *)

(** The archive of [ex_files], in a buffer of its own after the buffer
    of the body, and the array that covers it. *)
Definition ex_archive_store : heap :=
  ex_store ++ [archive_layout SHA256.sha256 ex_store ex_files].

Definition ex_archive : Uint8Array := mkU8 1 0 45.

(** A text with a character of one, three and four bytes in UTF-8, and a
    text that starts with U+FEFF and ends with a lone surrogate. *)
Definition ex_text : js_string := [0x61; 0x30A2; 0xD83D; 0xDE00].
Definition ex_text_bom_surrogate : js_string := [0xFEFF; 0x61; 0xD800].
(** * Properties *)

(** ** Bytes and byte sequences *)

Section BytesFacts.

Lemma Z_of_byte_range (b : byte) : 0 <= Z_of_byte b < 256.
Proof.
  unfold Z_of_byte. pose proof (Byte.to_N_bounded b) as Hb. lia.
Qed.

Lemma byte_of_Z_of_byte (b : byte) : byte_of_Z (Z_of_byte b) = b.
Proof.
  unfold byte_of_Z. pose proof (Z_of_byte_range b) as Hb.
  rewrite Z.mod_small by lia. unfold Z_of_byte.
  rewrite N2Z.id, Byte.of_to_N. reflexivity.
Qed.

Lemma Z_of_byte_of_Z (z : Z) : Z_of_byte (byte_of_Z z) = z mod 256.
Proof.
  unfold byte_of_Z, Z_of_byte.
  pose proof (Z.mod_pos_bound z 256 ltac:(lia)) as Hz.
  destruct (Byte.of_N (Z.to_N (z mod 256))) as [b|] eqn:E.
  - apply Byte.to_of_N in E. rewrite E. lia.
  - apply Byte.of_N_None_iff in E. lia.
Qed.

Lemma Z_of_byte_of_Z_small (z : Z) : 0 <= z < 256 -> Z_of_byte (byte_of_Z z) = z.
Proof. intros Hz. rewrite Z_of_byte_of_Z. apply Z.mod_small. exact Hz. Qed.

Lemma Z_of_byte_inj (a b : byte) : Z_of_byte a = Z_of_byte b -> a = b.
Proof.
  intros E. rewrite <- (byte_of_Z_of_byte a), <- (byte_of_Z_of_byte b).
  rewrite E. reflexivity.
Qed.

End BytesFacts.

(** ** Examples of the text functions and of the digest *)

Example utfEncode_ascii : utfEncode [0x61; 0x2E; 0x74; 0x78; 0x74] = [x61; x2e; x74; x78; x74].
Proof. reflexivity. Qed.

Example utfEncode_kana : utfEncode [0x30A2] = [xe3; x82; xa2].
Proof. reflexivity. Qed.

Example utfEncode_emoji : utfEncode [0xD83D; 0xDE00] = [xf0; x9f; x98; x80].
Proof. reflexivity. Qed.

Example utfDecode_emoji : utfDecode [xf0; x9f; x98; x80; x41] = [0xD83D; 0xDE00; 0x41].
Proof. reflexivity. Qed.

Example utfDecode_truncated : utfDecode [xe3; x82] = [0xFFFD].
Proof. reflexivity. Qed.

Example utfDecode_restore : utfDecode [xe3; x41] = [0xFFFD; 0x41].
Proof. reflexivity. Qed.

Example utfDecode_bom : utfDecode [xef; xbb; xbf; x61] = [0x61].
Proof. reflexivity. Qed.

Example hexEncode_bytes : hexEncode [x00; x0a; xff; x7b] = "000AFF7B"%string.
Proof. reflexivity. Qed.

Example sha256_empty :
  hexEncode (SHA256.sha256 []) =
  "E3B0C44298FC1C149AFBF4C8996FB92427AE41E4649B934CA495991B7852B855"%string.
Proof. vm_compute. reflexivity. Qed.

Example sha256_abc :
  hexEncode (SHA256.sha256 [x61; x62; x63]) =
  "BA7816BF8F01CFEA414140DE5DAE2223B00361A396177A9CB410FF61F20015AD"%string.
Proof. vm_compute. reflexivity. Qed.

Example sha256_two_blocks :
  hexEncode (SHA256.sha256 (replicate 56 x61)) =
  "B35439A4AC6F0948B6D6F9E3C6AF0F5F590CE20F1BDE7090EF7970686EC6738A"%string.
Proof. vm_compute. reflexivity. Qed.

Lemma sha256_length (msg : list byte) : length (SHA256.sha256 msg) = 32%nat.
Proof. reflexivity. Qed.

(** ** Big-endian numbers *)

Section BigEndian.

Lemma land_shifted_byte (a b : Z) : 0 <= b < 256 -> Z.land (a * 2 ^ 8) b = 0.
Proof.
  intros Hb. apply Z.bits_inj'. intros n Hn.
  rewrite Z.land_spec, Z.bits_0.
  destruct (Z.ltb_spec n 8).
  - rewrite Z.mul_pow2_bits_low by lia. reflexivity.
  - rewrite <- (Z.mod_small b (2 ^ 8)) by lia.
    rewrite Z.mod_pow2_bits_high by lia. apply andb_false_r.
Qed.

Lemma lor_shiftl_byte (a b : Z) :
  0 <= b < 256 -> Z.lor (Z.shiftl a 8) b = a * 256 + b.
Proof.
  intros Hb. rewrite Z.shiftl_mul_pow2 by lia.
  pose proof (land_shifted_byte a b Hb) as Hd.
  rewrite <- Z.lxor_lor by exact Hd.
  rewrite <- Z.add_nocarry_lxor by exact Hd.
  reflexivity.
Qed.

Lemma be32_value_bytes (b3 b2 b1 b0 : byte) :
  be32_value [b3; b2; b1; b0] =
  ((Z_of_byte b3 * 256 + Z_of_byte b2) * 256 + Z_of_byte b1) * 256 + Z_of_byte b0.
Proof.
  unfold be32_value. cbn [fold_left].
  rewrite !lor_shiftl_byte by apply Z_of_byte_range.
  lia.
Qed.

Lemma length_be32_bytes (v : Z) : length (be32_bytes v) = 4%nat.
Proof. reflexivity. Qed.

(** Reading back what [setUint32] wrote gives the number modulo 2^32. *)
Lemma be32_value_be32_bytes (v : Z) : be32_value (be32_bytes v) = v mod 2 ^ 32.
Proof.
  unfold be32_bytes. cbv zeta. rewrite be32_value_bytes.
  rewrite !Z_of_byte_of_Z, !Z.shiftr_div_pow2 by lia.
  pose proof (Z.mod_pos_bound v (2 ^ 32) ltac:(lia)) as Hw.
  generalize dependent (v mod 2 ^ 32). intros w Hw.
  change (2 ^ 24) with 16777216. change (2 ^ 16) with 65536.
  change (2 ^ 8) with 256. change (2 ^ 32) with 4294967296 in Hw.
  Z.div_mod_to_equations. lia.
Qed.

Lemma be32_value_range (bs : list byte) :
  length bs = 4%nat -> 0 <= be32_value bs < 2 ^ 32.
Proof.
  intros Hl.
  destruct bs as [|b3 [|b2 [|b1 [|b0 [|]]]]]; try discriminate Hl.
  rewrite be32_value_bytes.
  pose proof (Z_of_byte_range b3). pose proof (Z_of_byte_range b2).
  pose proof (Z_of_byte_range b1). pose proof (Z_of_byte_range b0).
  change (2 ^ 32) with 4294967296. lia.
Qed.

End BigEndian.

(** ** [hexEncode] tells byte sequences apart

    [minipackDecode] compares digests through their hexadecimal text; the
    comparison is that of the bytes. *)

Section HexFacts.

Lemma pad0_byte_unhex (b : byte) (rest : string) :
  unhex (pad0 (Z_of_byte b) (Some 2) (Some 16) ++ rest) = Some (b, rest).
Proof. destruct b; reflexivity. Qed.

Lemma hexEncode_nil : hexEncode [] = EmptyString.
Proof. reflexivity. Qed.

Lemma string_app_nil_r (s : string) : (s ++ "")%string = s.
Proof. induction s as [|c s IH]; cbn; [reflexivity | rewrite IH; reflexivity]. Qed.

Lemma hexEncode_cons (b : byte) (bs : list byte) :
  hexEncode (b :: bs) = (pad0 (Z_of_byte b) (Some 2) (Some 16) ++ hexEncode bs)%string.
Proof.
  unfold hexEncode. cbn [map String.concat].
  destruct bs as [|b' bs]; cbn [map String.concat].
  - rewrite string_app_nil_r. reflexivity.
  - reflexivity.
Qed.

Lemma hexEncode_inj (xs ys : list byte) : hexEncode xs = hexEncode ys -> xs = ys.
Proof.
  revert ys. induction xs as [|x xs IH]; intros [|y ys] E.
  - reflexivity.
  - apply (f_equal unhex) in E.
    rewrite hexEncode_cons, pad0_byte_unhex in E. discriminate E.
  - apply (f_equal unhex) in E.
    rewrite hexEncode_cons, pad0_byte_unhex in E. discriminate E.
  - apply (f_equal unhex) in E.
    rewrite !hexEncode_cons, !pad0_byte_unhex in E.
    injection E as -> E. f_equal. apply IH. exact E.
Qed.

Lemma hexEncode_eqb (xs ys : list byte) :
  String.eqb (hexEncode xs) (hexEncode ys) = true <-> xs = ys.
Proof.
  rewrite String.eqb_eq. split.
  - apply hexEncode_inj.
  - intros ->. reflexivity.
Qed.

End HexFacts.

(** ** Byte sequences and the store *)

Section StoreFacts.

Lemma slice_length (bs : list byte) (off len : Z) :
  0 <= off -> 0 <= len -> off + len <= Z.of_nat (length bs) ->
  Z.of_nat (length (slice bs off len)) = len.
Proof.
  intros Ho Hl Hb. unfold slice. rewrite length_take, length_drop. lia.
Qed.

(** A slice that reaches past the end is cut there. *)
Lemma slice_length_cut (bs : list byte) (off len : Z) :
  0 <= off -> 0 <= len ->
  Z.of_nat (length (slice bs off len)) = Z.min len (Z.max (Z.of_nat (length bs) - off) 0).
Proof.
  intros Ho Hl. unfold slice. rewrite length_take, length_drop. lia.
Qed.

Lemma slice_app_mid (pre mid post : list byte) (off len : Z) :
  off = Z.of_nat (length pre) -> len = Z.of_nat (length mid) ->
  slice (pre ++ mid ++ post) off len = mid.
Proof.
  intros -> ->. unfold slice. rewrite !Nat2Z.id.
  rewrite drop_app_length, take_app_length. reflexivity.
Qed.

Lemma slice_app3 (whole pre mid post : list byte) (off len : Z) :
  whole = pre ++ mid ++ post ->
  off = Z.of_nat (length pre) -> len = Z.of_nat (length mid) ->
  slice whole off len = mid.
Proof. intros ->. apply slice_app_mid. Qed.

Lemma splice_zeros (done src : list byte) (n : nat) (off : Z) :
  off = Z.of_nat (length done) -> (length src <= n)%nat ->
  splice (done ++ replicate n x00) off src
  = (done ++ src) ++ replicate (n - length src) x00.
Proof.
  intros -> Hn. unfold splice. rewrite Nat2Z.id.
  rewrite take_app_length, drop_app_add, drop_replicate.
  rewrite <- app_assoc. reflexivity.
Qed.

Lemma lookup_fresh (h : heap) (bs : list byte) : (h ++ [bs]) !! length h = Some bs.
Proof. rewrite lookup_app_r by lia. rewrite Nat.sub_diag. reflexivity. Qed.

Lemma insert_fresh (h : heap) (bs bs' : list byte) :
  <[length h := bs']> (h ++ [bs]) = h ++ [bs'].
Proof.
  replace (length h) with (length h + 0)%nat at 1 by lia.
  rewrite insert_app_r. reflexivity.
Qed.

Lemma view_ok_lookup (h : heap) (a : Uint8Array) :
  view_ok h a = true ->
  exists bs, h !! buffer a = Some bs /\ 0 <= byteOffset a /\ 0 <= byteLength a
             /\ byteOffset a + byteLength a <= Z.of_nat (length bs).
Proof.
  unfold view_ok. destruct (h !! buffer a) as [bs|]; [|discriminate].
  intros Hv. exists bs. split; [reflexivity | lia].
Qed.

Lemma view_ok_length (h : heap) (a : Uint8Array) :
  view_ok h a = true -> Z.of_nat (length (u8_bytes h a)) = byteLength a.
Proof.
  intros Hv. destruct (view_ok_lookup h a Hv) as (bs & Hb & Ho & Hl & Hle).
  unfold u8_bytes. rewrite Hb. cbn [default]. apply slice_length; assumption.
Qed.

(** Allocation does not change what the arrays already there hold. *)
Lemma u8_bytes_alloc (h : heap) (bs : list byte) (a : Uint8Array) :
  view_ok h a = true -> u8_bytes (h ++ [bs]) a = u8_bytes h a.
Proof.
  intros Hv. destruct (view_ok_lookup h a Hv) as (bs' & Hb & _).
  unfold u8_bytes. rewrite (lookup_app_l_Some _ _ _ _ Hb), Hb. reflexivity.
Qed.

Lemma whole_buffer_lookup (h : heap) (a : Uint8Array) :
  whole_buffer h a = true ->
  exists bs, h !! buffer a = Some bs /\ byteOffset a = 0
             /\ byteLength a = Z.of_nat (length bs).
Proof.
  unfold whole_buffer. destruct (h !! buffer a) as [bs|]; [|discriminate].
  intros Hv. exists bs. split; [reflexivity | lia].
Qed.

Lemma bind_ok {A B : Type} (m : M A) (k : A -> M B) (h h' : heap) (a : A) :
  m h = Ok (a, h') -> bind m k h = k a h'.
Proof. intros E. unfold bind. rewrite E. reflexivity. Qed.

Lemma bind_throw {A B : Type} (m : M A) (k : A -> M B) (h : heap) (e : exn) :
  m h = Throw e -> bind m k h = Throw e.
Proof. intros E. unfold bind. rewrite E. reflexivity. Qed.

(** Writing at the cursor of a fresh array: the bytes written so far are
    [done], the rest is still zero. *)
Lemma u8_set_fresh (h : heap) (done src : list byte) (n : nat) (i total : Z) :
  i = Z.of_nat (length done) -> (length src <= n)%nat ->
  total = Z.of_nat (length done + n) ->
  u8_set (mkU8 (length h) 0 total) src i (h ++ [done ++ replicate n x00])
  = Ok (tt, h ++ [(done ++ src) ++ replicate (n - length src) x00]).
Proof.
  intros Hi Hn Ht. unfold u8_set. cbn [buffer byteOffset byteLength].
  rewrite lookup_fresh.
  destruct (Z.ltb_spec i 0); [lia|].
  destruct (Z.ltb_spec total (Z.of_nat (length src) + i)); [lia|].
  cbn [orb]. rewrite insert_fresh, splice_zeros by lia. reflexivity.
Qed.

Lemma dv_write_fresh (h : heap) (done src : list byte) (n : nat) (i : Z) :
  i = Z.of_nat (length done) -> (length src <= n)%nat ->
  bind (lift (new_DataView (length h) i)) (fun dv => dv_write dv 0 src)
       (h ++ [done ++ replicate n x00])
  = Ok (tt, h ++ [(done ++ src) ++ replicate (n - length src) x00]).
Proof.
  intros Hi Hn. unfold bind, lift, new_DataView. rewrite lookup_fresh.
  rewrite length_app, length_replicate.
  destruct (Z.ltb_spec i 0); [lia|].
  destruct (Z.ltb_spec (Z.of_nat (length done + n)) i); [lia|].
  cbn [orb]. unfold dv_write. cbn [dv_buffer dv_byteOffset dv_byteLength].
  destruct (Z.ltb_spec (Z.of_nat (length done + n) - i) (0 + Z.of_nat (length src))); [lia|].
  cbn [orb Z.ltb Z.compare]. rewrite lookup_fresh, insert_fresh.
  rewrite splice_zeros by lia. reflexivity.
Qed.

End StoreFacts.

(** ** [minipackEncode] writes the records one after the other *)

Section EncodeFacts.

Variable cryptoHash : list byte -> list byte.
Hypothesis cryptoHash_length : forall data, length (cryptoHash data) = 32%nat.

Lemma length_record_layout (h : heap) (f : FileInit) :
  view_ok h (snd f) = true ->
  Z.of_nat (length (record_layout cryptoHash h f)) = record_size f.
Proof.
  intros Hv. unfold record_layout, record_size. cbv zeta.
  rewrite !length_app, cryptoHash_length, length_be32_bytes. cbn [length].
  pose proof (view_ok_length h _ Hv). lia.
Qed.

Lemma archive_layout_cons (h : heap) (f : FileInit) (files : list FileInit) :
  archive_layout cryptoHash h (f :: files)
  = record_layout cryptoHash h f ++ archive_layout cryptoHash h files.
Proof. reflexivity. Qed.

Lemma archive_layout_app (h : heap) (fs gs : list FileInit) :
  archive_layout cryptoHash h (fs ++ gs)
  = archive_layout cryptoHash h fs ++ archive_layout cryptoHash h gs.
Proof. unfold archive_layout. rewrite List.map_app, concat_app. reflexivity. Qed.

Lemma archive_size_from (files : list FileInit) (a : Z) :
  fold_left
    (fun a '(k, v) =>
       a + sizeHash + sizeName + sizeBody + Z.of_nat (length (utfEncode k)) + byteLength v)
    files a
  = a + archive_size files.
Proof.
  unfold archive_size. revert a.
  induction files as [|[k v] files IH]; intros a; cbn [fold_left].
  - lia.
  - rewrite IH, (IH (0 + _ + _ + _ + _ + _)). lia.
Qed.

Lemma archive_size_cons (f : FileInit) (files : list FileInit) :
  archive_size (f :: files) = record_size f + archive_size files.
Proof.
  destruct f as [k v]. unfold archive_size at 1. cbn [fold_left].
  rewrite archive_size_from. unfold record_size, sizeHash, sizeName, sizeBody.
  cbn [fst snd]. lia.
Qed.

(** The size computed by the first line is the sum of the record sizes. *)
Lemma archive_size_sum (files : list FileInit) :
  archive_size files = fold_right Z.add 0 (map record_size files).
Proof.
  induction files as [|f files IH].
  - reflexivity.
  - rewrite archive_size_cons, IH. reflexivity.
Qed.

Lemma length_archive_layout (h : heap) (files : list FileInit) :
  files_ok h files = true ->
  Z.of_nat (length (archive_layout cryptoHash h files)) = archive_size files.
Proof.
  induction files as [|f files IH]; intros Hok.
  - reflexivity.
  - cbn [files_ok forallb] in Hok. apply andb_prop in Hok as [Hf Hfs].
    rewrite archive_layout_cons, length_app, archive_size_cons.
    rewrite Nat2Z.inj_add, (length_record_layout h f Hf), (IH Hfs). reflexivity.
Qed.

Lemma dv_write_fresh_k {B : Type} (k : unit -> M B)
      (h : heap) (done src : list byte) (n : nat) (i : Z) :
  i = Z.of_nat (length done) -> (length src <= n)%nat ->
  bind (lift (new_DataView (length h) i)) (fun dv => bind (dv_write dv 0 src) k)
       (h ++ [done ++ replicate n x00])
  = k tt (h ++ [(done ++ src) ++ replicate (n - length src) x00]).
Proof.
  intros Hi Hn.
  pose proof (dv_write_fresh h done src n i Hi Hn) as E.
  unfold bind in E |- *.
  destruct (lift (new_DataView (length h) i) (h ++ [done ++ replicate n x00]))
    as [[dv h1]|e]; [|discriminate E].
  rewrite E. reflexivity.
Qed.

(** The loop, started at the cursor [i] on an array whose first [i] bytes
    are [done] and whose [n] other bytes are still zero. *)
Lemma encode_loop_fresh (h : heap) (files : list FileInit) :
  files_ok h files = true ->
  forall (done : list byte) (n : nat) (i total : Z),
    i = Z.of_nat (length done) ->
    (length (archive_layout cryptoHash h files) <= n)%nat ->
    total = Z.of_nat (length done + n) ->
    encode_loop cryptoHash (mkU8 (length h) 0 total) files i
                (h ++ [done ++ replicate n x00])
    = Ok (i + Z.of_nat (length (archive_layout cryptoHash h files)),
          h ++ [(done ++ archive_layout cryptoHash h files)
                  ++ replicate (n - length (archive_layout cryptoHash h files)) x00]).
Proof.
  induction files as [|[k v] files IH]; intros Hok done n i total Hi Hn Ht.
  - unfold archive_layout. cbn [encode_loop map concat length Z.of_nat]. unfold ret.
    rewrite app_nil_r, Nat.sub_0_r, Z.add_0_r. reflexivity.
  - cbn [files_ok forallb snd] in Hok. apply andb_prop in Hok as [Hv Hfs].
    specialize (IH Hfs).
    rewrite archive_layout_cons in Hn |- *.
    unfold record_layout in Hn |- *. cbn [fst snd] in Hn |- *. cbv zeta in Hn |- *.
    pose proof (view_ok_length h v Hv) as Hbody.
    set (name := utfEncode k) in *.
    set (body := u8_bytes h v) in *.
    set (rest := archive_layout cryptoHash h files) in *.
    assert (Hhash : length (cryptoHash body) = 32%nat) by apply cryptoHash_length.
    rewrite !length_app, Hhash, length_be32_bytes in Hn. cbn [length] in Hn.
    cbn [encode_loop]. fold name.
    erewrite (bind_ok _ _ _ _ (cryptoHash body)); cycle 1.
    { unfold bind, u8_read, ret. rewrite u8_bytes_alloc by exact Hv. reflexivity. }
    erewrite bind_ok; cycle 1.
    { apply u8_set_fresh; [exact Hi | lia | exact Ht]. }
    cbn [buffer]. unfold setUint8, setUint32.
    rewrite dv_write_fresh_k; cycle 1.
    { rewrite length_app. unfold sizeHash. lia. }
    { cbn [length]. lia. }
    rewrite dv_write_fresh_k; cycle 1.
    { rewrite !length_app. cbn [length]. unfold sizeHash, sizeName. lia. }
    { rewrite length_be32_bytes. cbn [length]. lia. }
    erewrite bind_ok; cycle 1.
    { apply u8_set_fresh.
      - rewrite !length_app, length_be32_bytes. cbn [length].
        unfold sizeHash, sizeName, sizeBody. lia.
      - rewrite length_be32_bytes. cbn [length]. lia.
      - rewrite !length_app, length_be32_bytes. cbn [length]. lia. }
    erewrite (bind_ok _ _ _ _ body); cycle 1.
    { unfold u8_read. rewrite u8_bytes_alloc by exact Hv. reflexivity. }
    erewrite bind_ok; cycle 1.
    { apply u8_set_fresh.
      - rewrite !length_app, length_be32_bytes. cbn [length].
        unfold sizeHash, sizeName, sizeBody. lia.
      - rewrite length_be32_bytes. cbn [length]. lia.
      - rewrite !length_app, length_be32_bytes. cbn [length]. lia. }
    rewrite IH; cycle 1.
    { rewrite !length_app, length_be32_bytes. cbn [length].
      unfold sizeHash, sizeName, sizeBody. lia. }
    { rewrite length_be32_bytes. cbn [length]. lia. }
    { rewrite !length_app, length_be32_bytes. cbn [length]. lia. }
    f_equal. f_equal.
    + rewrite !length_app, length_be32_bytes, Hhash. cbn [length].
      unfold sizeHash, sizeName, sizeBody. lia.
    + f_equal. f_equal.
      rewrite <- !app_assoc. cbn [app].
      do 7 f_equal.
      rewrite !length_app. cbn [length]. rewrite !length_app, length_be32_bytes, Hhash.
      cbn [length]. f_equal. lia.
Qed.

End EncodeFacts.

Section EncodeResult.

Variable cryptoHash : list byte -> list byte.
Hypothesis cryptoHash_length : forall data, length (cryptoHash data) = 32%nat.

Lemma archive_size_nonneg (h : heap) (files : list FileInit) :
  files_ok h files = true -> 0 <= archive_size files.
Proof.
  intros Hok. rewrite <- (length_archive_layout cryptoHash cryptoHash_length h files Hok).
  lia.
Qed.

(** [minipackEncode] returns a fresh array that covers a fresh buffer,
    which holds the records of the entries in order; the buffers that
    were there are as they were. *)
Lemma minipackEncode_layout (h : heap) (files : list FileInit) :
  files_ok h files = true ->
  minipackEncode cryptoHash files h
  = Ok (mkU8 (length h) 0 (archive_size files),
        h ++ [archive_layout cryptoHash h files]).
Proof.
  intros Hok.
  pose proof (archive_size_nonneg h files Hok) as Hnn.
  pose proof (length_archive_layout cryptoHash cryptoHash_length h files Hok) as Hlen.
  unfold minipackEncode.
  erewrite bind_ok; cycle 1.
  { unfold new_Uint8Array. destruct (Z.ltb_spec (archive_size files) 0); [lia|].
    reflexivity. }
  erewrite bind_ok; cycle 1.
  { apply (encode_loop_fresh cryptoHash cryptoHash_length h files Hok []
             (Z.to_nat (archive_size files)) 0 (archive_size files)).
    - reflexivity.
    - lia.
    - cbn [length]. lia. }
  unfold ret. cbn [app]. do 3 f_equal.
  replace (Z.to_nat (archive_size files) - length (archive_layout cryptoHash h files))%nat
    with 0%nat by lia.
  cbn [replicate]. rewrite app_nil_r. reflexivity.
Qed.

Lemma u8_bytes_fresh (h : heap) (bs : list byte) (n : Z) :
  n = Z.of_nat (length bs) -> u8_bytes (h ++ [bs]) (mkU8 (length h) 0 n) = bs.
Proof.
  intros ->. unfold u8_bytes, slice. cbn [buffer byteOffset byteLength].
  rewrite lookup_fresh. cbn [default Z.to_nat]. rewrite drop_0, Nat2Z.id.
  apply take_ge. lia.
Qed.

End EncodeResult.

(** ** One turn of [minipackDecode] *)

Section DecodeRecord.

Variable cryptoHash : list byte -> list byte.

Lemma getUint8_range (dv : DataView) (idx : Z) (h : heap) (x : Z) :
  getUint8 dv idx h = Ok x -> 0 <= x < 256.
Proof.
  unfold getUint8. destruct (_ || _); [discriminate|].
  destruct (slice _ _ _) as [|b [|]]; try discriminate.
  intros [= <-]. apply Z_of_byte_range.
Qed.

Lemma getUint32_range (dv : DataView) (idx : Z) (h : heap) (x : Z) :
  getUint32 dv idx h = Ok x -> 0 <= x < 2 ^ 32.
Proof.
  unfold getUint32. destruct (_ || _); [discriminate|].
  destruct (slice _ _ _) as [|b3 [|b2 [|b1 [|b0 [|]]]]]; try discriminate.
  intros [= <-]. apply be32_value_range. reflexivity.
Qed.

Lemma read_record_inv (h : heap) (archive : Uint8Array) (i i' : Z)
      (hash body : Uint8Array) (name : js_string) :
  read_record h archive i = Ok (hash, name, body, i') ->
  exists ns bs : Z,
    0 <= ns < 256 /\ 0 <= bs < 2 ^ 32
    /\ i' = i + 37 + ns + bs
    /\ hash = subarray archive i (i + 32)
    /\ name = utfDecode (u8_bytes h (subarray archive (i + 37) (i + 37 + ns)))
    /\ body = subarray archive (i + 37 + ns) (i + 37 + ns + bs).
Proof.
  unfold read_record, rbind, sizeHash, sizeName, sizeBody.
  destruct (new_DataView (buffer archive) (i + 32) h) as [dv1|e]; [|discriminate].
  destruct (getUint8 dv1 0 h) as [ns|e] eqn:Ens; [|discriminate].
  destruct (new_DataView (buffer archive) (i + 32 + 1) h) as [dv2|e]; [|discriminate].
  destruct (getUint32 dv2 0 h) as [bs|e] eqn:Ebs; [|discriminate].
  intros [= <- <- <- <-]. exists ns, bs.
  apply getUint8_range in Ens. apply getUint32_range in Ebs.
  replace (i + 32 + 1 + 4) with (i + 37) by lia.
  repeat split; try lia; reflexivity.
Qed.

(** A turn that does not throw has read a record whose stored digest is
    the digest of its body, and has moved the cursor past it. *)
Lemma decode_record_inv (h : heap) (archive : Uint8Array) (i i' : Z) (file : FileInit) :
  decode_record cryptoHash h archive i = Ok (file, i') ->
  exists hash : Uint8Array,
    read_record h archive i = Ok (hash, fst file, snd file, i')
    /\ u8_bytes h hash = cryptoHash (u8_bytes h (snd file)).
Proof.
  unfold decode_record, rbind.
  destruct (read_record h archive i) as [[[[hash name] body] j]|e]; [|discriminate].
  destruct (String.eqb _ _) eqn:Eh; cbn [negb]; [|discriminate].
  intros [= <- <-]. exists hash. cbn [fst snd].
  apply hexEncode_eqb in Eh. split; [reflexivity | exact Eh].
Qed.

(** A turn whose stored digest is not the digest of the body throws. *)
Lemma decode_record_mismatch (h : heap) (archive : Uint8Array) (i i' : Z)
      (hash body : Uint8Array) (name : js_string) :
  read_record h archive i = Ok (hash, name, body, i') ->
  u8_bytes h hash <> cryptoHash (u8_bytes h body) ->
  decode_record cryptoHash h archive i = Throw Error.
Proof.
  intros E Hne. unfold decode_record, rbind. rewrite E.
  destruct (String.eqb _ _) eqn:Eh; cbn [negb]; [|reflexivity].
  apply hexEncode_eqb in Eh. contradiction.
Qed.

Lemma decode_record_match (h : heap) (archive : Uint8Array) (i i' : Z)
      (hash body : Uint8Array) (name : js_string) :
  read_record h archive i = Ok (hash, name, body, i') ->
  u8_bytes h hash = cryptoHash (u8_bytes h body) ->
  decode_record cryptoHash h archive i = Ok ((name, body), i').
Proof.
  intros E Heq. unfold decode_record, rbind. rewrite E.
  destruct (String.eqb _ _) eqn:Eh; cbn [negb]; [reflexivity|].
  apply hexEncode_eqb in Heq. congruence.
Qed.

Lemma decode_record_throw (h : heap) (archive : Uint8Array) (i : Z) (e : exn) :
  read_record h archive i = Throw e ->
  decode_record cryptoHash h archive i = Throw e.
Proof. intros E. unfold decode_record, rbind. rewrite E. reflexivity. Qed.

(** Every turn that does not throw moves the cursor by the 37 bytes of the
    header at least. *)
Lemma decode_record_advance (h : heap) (archive : Uint8Array) (i i' : Z) (file : FileInit) :
  decode_record cryptoHash h archive i = Ok (file, i') -> i + 37 <= i'.
Proof.
  intros E. apply decode_record_inv in E as (hash & E & _).
  apply read_record_inv in E as (ns & bs & Hns & Hbs & -> & _). lia.
Qed.

End DecodeRecord.

(** ** The loop of [minipackDecode] *)

Section DecodeLoop.

Variable cryptoHash : list byte -> list byte.

(** With [37 * fuel] at least the number of bytes left, the loop finishes,
    and its result does not depend on the fuel. *)
Lemma decode_loop_fuel (h : heap) (archive : Uint8Array) (fuel1 : nat) :
  forall (fuel2 : nat) (i : Z) (files : list FileInit),
    byteLength archive - i <= 37 * Z.of_nat fuel1 ->
    byteLength archive - i <= 37 * Z.of_nat fuel2 ->
    exists r, decode_loop cryptoHash fuel1 h archive i files = Some r
              /\ decode_loop cryptoHash fuel2 h archive i files = Some r.
Proof.
  induction fuel1 as [|fuel1 IH]; intros fuel2 i files H1 H2.
  - cbn [decode_loop]. destruct (Z.ltb_spec i (byteLength archive)); [lia|].
    exists (Ok files). split; [reflexivity|].
    destruct fuel2; cbn [decode_loop];
      destruct (Z.ltb_spec i (byteLength archive)); try lia; reflexivity.
  - cbn [decode_loop]. destruct (Z.ltb_spec i (byteLength archive)) as [Hlt|Hge].
    + destruct fuel2 as [|fuel2]; [lia|]. cbn [decode_loop].
      destruct (Z.ltb_spec i (byteLength archive)); [|lia].
      destruct (decode_record cryptoHash h archive i) as [[file i']|e] eqn:E.
      * pose proof (decode_record_advance cryptoHash h archive i i' file E).
        apply IH; lia.
      * exists (Throw e). split; reflexivity.
    + exists (Ok files). split; [reflexivity|].
      destruct fuel2; cbn [decode_loop];
        destruct (Z.ltb_spec i (byteLength archive)); try lia; reflexivity.
Qed.

Lemma decode_fuel_enough (archive : Uint8Array) :
  byteLength archive - 0 <= 37 * Z.of_nat (decode_fuel archive).
Proof.
  unfold decode_fuel, sizeHash, sizeName, sizeBody. change (32 + 1 + 4) with 37.
  destruct (Z.ltb_spec (byteLength archive) 0).
  - lia.
  - rewrite Z2Nat.id by (Z.div_mod_to_equations; lia).
    Z.div_mod_to_equations. lia.
Qed.

(** From a state the loop reaches, the rest of the loop gives the result
    of [minipackDecode]. *)
Lemma decode_loop_from (h : heap) (archive : Uint8Array) (i : Z) (files : list FileInit) :
  loop_reaches cryptoHash h archive i files ->
  forall fuel : nat,
    byteLength archive - i <= 37 * Z.of_nat fuel ->
    decode_loop cryptoHash fuel h archive i files = minipackDecode cryptoHash h archive.
Proof.
  induction 1 as [|i i' files file Hreach IH Hlt E]; intros fuel Hfuel.
  - unfold minipackDecode.
    destruct (decode_loop_fuel h archive fuel (decode_fuel archive) 0 [] Hfuel
                (decode_fuel_enough archive)) as (r & -> & ->).
    reflexivity.
  - pose proof (decode_record_advance cryptoHash h archive i i' file E) as Hadv.
    rewrite <- (IH (S (Z.to_nat (byteLength archive - i)))) by lia.
    cbn [decode_loop]. destruct (Z.ltb_spec i (byteLength archive)); [|lia].
    rewrite E.
    destruct (decode_loop_fuel h archive fuel (Z.to_nat (byteLength archive - i))
                i' (files ++ [file])) as (r & -> & ->); [lia | lia | reflexivity].
Qed.

(** A turn that throws, from a state the loop reaches, is the result. *)
Lemma decode_throws_at (h : heap) (archive : Uint8Array) (i : Z)
      (files : list FileInit) (e : exn) :
  loop_reaches cryptoHash h archive i files ->
  i < byteLength archive ->
  decode_record cryptoHash h archive i = Throw e ->
  minipackDecode cryptoHash h archive = Some (Throw e).
Proof.
  intros Hreach Hlt E.
  rewrite <- (decode_loop_from h archive i files Hreach
                (S (Z.to_nat (byteLength archive - i)))) by lia.
  cbn [decode_loop]. destruct (Z.ltb_spec i (byteLength archive)); [|lia].
  rewrite E. reflexivity.
Qed.

(** The loop stops in a state whose cursor is not before the end. *)
Lemma decode_returns_at (h : heap) (archive : Uint8Array) (i : Z)
      (files : list FileInit) :
  loop_reaches cryptoHash h archive i files ->
  byteLength archive <= i ->
  minipackDecode cryptoHash h archive = Some (Ok files).
Proof.
  intros Hreach Hge.
  rewrite <- (decode_loop_from h archive i files Hreach 0%nat) by lia.
  cbn [decode_loop]. destruct (Z.ltb_spec i (byteLength archive)); [lia|].
  reflexivity.
Qed.

(** Conversely a result is that of the last state reached. *)
Lemma decode_loop_result (h : heap) (archive : Uint8Array) (fuel : nat) :
  forall (i : Z) (files result : list FileInit),
    loop_reaches cryptoHash h archive i files ->
    decode_loop cryptoHash fuel h archive i files = Some (Ok result) ->
    exists j, loop_reaches cryptoHash h archive j result /\ byteLength archive <= j.
Proof.
  induction fuel as [|fuel IH]; intros i files result Hreach; cbn [decode_loop];
    destruct (Z.ltb_spec i (byteLength archive)) as [Hlt|Hge].
  - discriminate.
  - intros [= <-]. exists i. split; assumption.
  - destruct (decode_record cryptoHash h archive i) as [[file i']|e] eqn:E; [|discriminate].
    apply IH. eapply reaches_turn; eassumption.
  - intros [= <-]. exists i. split; assumption.
Qed.

Lemma minipackDecode_result (h : heap) (archive : Uint8Array) (result : list FileInit) :
  minipackDecode cryptoHash h archive = Some (Ok result) ->
  exists j, loop_reaches cryptoHash h archive j result /\ byteLength archive <= j.
Proof.
  unfold minipackDecode. apply decode_loop_result. constructor.
Qed.

End DecodeLoop.

(** ** Reading a record from an array that covers its buffer *)

Section ReadWhole.

Lemma slice_one (whole : list byte) (p : Z) :
  0 <= p -> p + 1 <= Z.of_nat (length whole) ->
  slice whole p 1 = [default x00 (whole !! Z.to_nat p)].
Proof.
  intros Hp Hl. unfold slice. change (Z.to_nat 1) with 1%nat.
  destruct (drop (Z.to_nat p) whole) as [|x rest] eqn:E.
  - apply (f_equal length) in E. rewrite length_drop in E. cbn in E. lia.
  - pose proof (lookup_drop whole (Z.to_nat p) 0) as Hx.
    rewrite E, Nat.add_0_r in Hx. cbn in Hx. rewrite <- Hx. reflexivity.
Qed.

Lemma slice_four (whole : list byte) (p : Z) :
  0 <= p -> p + 4 <= Z.of_nat (length whole) ->
  exists b3 b2 b1 b0, slice whole p 4 = [b3; b2; b1; b0].
Proof.
  intros Hp Hl. pose proof (slice_length whole p 4 Hp ltac:(lia) Hl) as Hlen.
  destruct (slice whole p 4) as [|b3 [|b2 [|b1 [|b0 [|]]]]]; cbn in Hlen; try lia.
  eauto.
Qed.

(** The elements of [a.subarray(s, e)] are those of [a] from [s] to [e],
    as far as [a] has them. *)
Lemma u8_bytes_subarray (h : heap) (a : Uint8Array) (s e : Z) :
  view_ok h a = true -> 0 <= s -> s <= e ->
  u8_bytes h (subarray a s e) = slice (u8_bytes h a) s (e - s).
Proof.
  intros Hv Hs He. destruct (view_ok_lookup h a Hv) as (bs & Hb & Ho & Hl & Hle).
  unfold u8_bytes, subarray, slice, clamp_index.
  cbn [buffer byteOffset byteLength]. rewrite Hb. cbn [from_option id].
  destruct (Z.ltb_spec s 0); [lia|]. destruct (Z.ltb_spec e 0); [lia|].
  destruct (Z.le_gt_cases s (byteLength a)) as [Hsl|Hsl].
  - rewrite (Z.min_l s) by exact Hsl. cbn [id].
    replace (Z.to_nat (byteOffset a + s)) with (Z.to_nat (byteOffset a) + Z.to_nat s)%nat by lia.
    rewrite <- drop_drop.
    set (w := drop (Z.to_nat (byteOffset a)) bs).
    replace (Z.to_nat (byteLength a))
      with (Z.to_nat s + Z.to_nat (byteLength a - s))%nat by lia.
    rewrite <- take_drop_commute, take_take. f_equal. lia.
  - rewrite (Z.min_r s) by lia. cbn [id].
    rewrite (drop_ge (take _ _)) by (rewrite length_take; lia).
    rewrite take_nil.
    replace (Z.max (Z.min e (byteLength a) - byteLength a) 0) with 0 by lia.
    reflexivity.
Qed.

Lemma whole_buffer_view_ok (h : heap) (a : Uint8Array) :
  whole_buffer h a = true -> view_ok h a = true.
Proof.
  intros Hw. destruct (whole_buffer_lookup h a Hw) as (bs & Hb & Ho & Hl).
  unfold view_ok. rewrite Hb.
  repeat (apply andb_true_intro; split); lia.
Qed.

Lemma whole_buffer_bytes (h : heap) (a : Uint8Array) (whole : list byte) :
  h !! buffer a = Some whole -> whole_buffer h a = true -> u8_bytes h a = whole.
Proof.
  intros Hb Hw. destruct (whole_buffer_lookup h a Hw) as (bs & Hb' & Ho & Hl).
  rewrite Hb in Hb'. injection Hb' as <-.
  unfold u8_bytes, slice. rewrite Hb, Ho, Hl. cbn [default Z.to_nat].
  rewrite drop_0. apply take_ge. lia.
Qed.

(** On such an array a turn throws a [RangeError] exactly when fewer than
    37 bytes are left for the header; otherwise the fields are read, the
    name and the body being cut at the end of the buffer. *)
Lemma read_record_short (h : heap) (a : Uint8Array) (whole : list byte) (i : Z) :
  h !! buffer a = Some whole -> whole_buffer h a = true ->
  0 <= i -> Z.of_nat (length whole) < i + 37 ->
  read_record h a i = Throw RangeError.
Proof.
  intros Hb Hw Hi Hshort.
  unfold read_record, rbind, new_DataView, sizeHash, sizeName, sizeBody. rewrite Hb.
  destruct (Z.ltb_spec (i + 32) 0); [lia|].
  destruct (Z.ltb_spec (Z.of_nat (length whole)) (i + 32)); [reflexivity|].
  cbn [orb]. unfold getUint8 at 1. cbn [dv_byteLength dv_byteOffset dv_buffer].
  destruct (Z.ltb_spec (Z.of_nat (length whole) - (i + 32)) (0 + 1)); [reflexivity|].
  cbn [orb Z.ltb Z.compare]. rewrite Hb. cbn [from_option id].
  rewrite slice_one by lia.
  destruct (Z.ltb_spec (i + 32 + 1) 0); [lia|].
  destruct (Z.ltb_spec (Z.of_nat (length whole)) (i + 32 + 1)); [lia|].
  cbn [orb]. unfold getUint32. cbn [dv_byteLength dv_byteOffset dv_buffer].
  destruct (Z.ltb_spec (Z.of_nat (length whole) - (i + 32 + 1)) (0 + 4)); [reflexivity|].
  lia.
Qed.

Lemma read_record_whole (h : heap) (a : Uint8Array) (whole : list byte) (i : Z) :
  h !! buffer a = Some whole -> whole_buffer h a = true ->
  0 <= i -> i + 37 <= Z.of_nat (length whole) ->
  let ns := header_name_len whole i in
  let bs := header_body_len whole i in
  read_record h a i
  = Ok (subarray a i (i + 32),
        utfDecode (slice whole (i + 37) ns),
        subarray a (i + 37 + ns) (i + 37 + ns + bs),
        i + 37 + ns + bs).
Proof.
  intros Hb Hw Hi Hlong ns bs.
  pose proof (whole_buffer_view_ok h a Hw) as Hv.
  pose proof (whole_buffer_bytes h a whole Hb Hw) as Hbytes.
  assert (Hns : 0 <= ns) by (unfold ns, header_name_len; apply Z_of_byte_range).
  unfold read_record, rbind, new_DataView, sizeHash, sizeName, sizeBody. rewrite Hb.
  destruct (Z.ltb_spec (i + 32) 0); [lia|].
  destruct (Z.ltb_spec (Z.of_nat (length whole)) (i + 32)); [lia|].
  cbn [orb]. unfold getUint8 at 1. cbn [dv_byteLength dv_byteOffset dv_buffer].
  destruct (Z.ltb_spec (Z.of_nat (length whole) - (i + 32)) (0 + 1)); [lia|].
  cbn [orb Z.ltb Z.compare]. rewrite Hb. cbn [from_option id].
  rewrite slice_one by lia.
  destruct (Z.ltb_spec (i + 32 + 1) 0); [lia|].
  destruct (Z.ltb_spec (Z.of_nat (length whole)) (i + 32 + 1)); [lia|].
  cbn [orb]. unfold getUint32. cbn [dv_byteLength dv_byteOffset dv_buffer].
  destruct (Z.ltb_spec (Z.of_nat (length whole) - (i + 32 + 1)) (0 + 4)); [lia|].
  cbn [orb Z.ltb Z.compare]. rewrite Hb. cbn [from_option id].
  replace (i + 32 + 1 + 0) with (i + 33) by lia.
  replace (i + 32 + 0) with (i + 32) by lia.
  fold (header_name_len whole i). fold ns.
  destruct (slice_four whole (i + 33) ltac:(lia) ltac:(lia)) as (b3 & b2 & b1 & b0 & E4).
  assert (Ebs : bs = be32_value [b3; b2; b1; b0])
    by (unfold bs, header_body_len; rewrite E4; reflexivity).
  rewrite E4, <- Ebs.
  replace (i + 32 + 1 + 4) with (i + 37) by lia.
  rewrite u8_bytes_subarray by (try assumption; lia).
  rewrite Hbytes. replace (i + 37 + ns - (i + 37)) with ns by lia. reflexivity.
Qed.

(** The fields of a record, read where [minipackDecode] reads them. *)
Lemma record_fields (digest name body bl : list byte) (nl : byte) :
  length digest = 32%nat -> length bl = 4%nat ->
  let r := digest ++ [nl] ++ bl ++ name ++ body in
  header_name_len r 0 = Z_of_byte nl
  /\ header_body_len r 0 = be32_value bl
  /\ slice r 37 (Z.of_nat (length name)) = name
  /\ slice r (37 + Z.of_nat (length name)) (Z.of_nat (length body)) = body.
Proof.
  intros Hd Hbl r. subst r. repeat split.
  - unfold header_name_len.
    assert (E : slice (digest ++ [nl] ++ bl ++ name ++ body) (0 + 32) 1 = [nl]).
    { apply (slice_app3 _ digest [nl] (bl ++ name ++ body)); [reflexivity | lia | reflexivity]. }
    rewrite slice_one in E.
    + injection E as E. exact (f_equal Z_of_byte E).
    + lia.
    + rewrite !length_app. cbn [length]. lia.
  - unfold header_body_len.
    rewrite (slice_app3 _ (digest ++ [nl]) bl (name ++ body)).
    + reflexivity.
    + rewrite <- !app_assoc. reflexivity.
    + rewrite length_app. cbn [length]. lia.
    + lia.
  - apply (slice_app3 _ (digest ++ [nl] ++ bl) name body).
    + rewrite <- !app_assoc. reflexivity.
    + rewrite !length_app. cbn [length]. lia.
    + reflexivity.
  - rewrite <- (app_nil_r body) at 1.
    apply (slice_app3 _ (digest ++ [nl] ++ bl ++ name) body []).
    + rewrite <- !app_assoc. reflexivity.
    + rewrite !length_app. cbn [length]. lia.
    + reflexivity.
Qed.

End ReadWhole.

(** ** Decoding a buffer that holds records *)

Section DecodeLayout.

Variable cryptoHash : list byte -> list byte.
Hypothesis cryptoHash_length : forall data, length (cryptoHash data) = 32%nat.

(** The record [digest ++ [nl] ++ bl ++ name ++ body] found at the cursor,
    with length fields that hold the lengths of [name] and [body]. *)
Lemma read_record_at (h : heap) (a : Uint8Array) (whole pre post : list byte)
      (digest name body : list byte) (i : Z) :
  h !! buffer a = Some whole -> whole_buffer h a = true ->
  whole = pre ++ (digest ++ [byte_of_Z (Z.of_nat (length name))]
                    ++ be32_bytes (Z.of_nat (length body)) ++ name ++ body) ++ post ->
  i = Z.of_nat (length pre) ->
  length digest = 32%nat ->
  Z.of_nat (length name) <= 255 ->
  Z.of_nat (length body) <= 2 ^ 32 - 1 ->
  exists hash_view body_view : Uint8Array,
    read_record h a i
    = Ok (hash_view, utfDecode name, body_view,
          i + 37 + Z.of_nat (length name) + Z.of_nat (length body))
    /\ u8_bytes h hash_view = digest
    /\ u8_bytes h body_view = body.
Proof.
  intros Hb Hw Hwhole Hi Hd Hname Hbody.
  pose proof (whole_buffer_view_ok h a Hw) as Hv.
  pose proof (whole_buffer_bytes h a whole Hb Hw) as Hbytes.
  assert (Hlen : Z.of_nat (length whole)
                 = i + 37 + Z.of_nat (length name) + Z.of_nat (length body)
                   + Z.of_nat (length post)).
  { rewrite Hwhole, !length_app, length_be32_bytes, Hd. cbn [length]. lia. }
  assert (Hns : header_name_len whole i = Z.of_nat (length name)).
  { unfold header_name_len.
    assert (E : slice whole (i + 32) 1 = [byte_of_Z (Z.of_nat (length name))]).
    { apply (slice_app3 _ (pre ++ digest) _
               (be32_bytes (Z.of_nat (length body)) ++ name ++ body ++ post)).
      - rewrite Hwhole, <- !app_assoc. reflexivity.
      - rewrite length_app, Hd. lia.
      - reflexivity. }
    rewrite slice_one in E by lia. injection E as ->.
    apply Z_of_byte_of_Z_small. lia. }
  assert (Hbs : header_body_len whole i = Z.of_nat (length body)).
  { unfold header_body_len.
    rewrite (slice_app3 _ (pre ++ digest ++ [byte_of_Z (Z.of_nat (length name))])
               (be32_bytes (Z.of_nat (length body))) (name ++ body ++ post)).
    - rewrite be32_value_be32_bytes. apply Z.mod_small. lia.
    - rewrite Hwhole, <- !app_assoc. reflexivity.
    - rewrite !length_app, Hd. cbn [length]. lia.
    - reflexivity. }
  pose proof (read_record_whole h a whole i Hb Hw ltac:(lia) ltac:(lia)) as E.
  cbv zeta in E. rewrite Hns, Hbs in E.
  eexists _, _. split; [|split].
  - rewrite E.
    rewrite (slice_app3 whole (pre ++ digest ++ [byte_of_Z (Z.of_nat (length name))]
                                 ++ be32_bytes (Z.of_nat (length body))) name (body ++ post)).
    + reflexivity.
    + rewrite Hwhole, <- !app_assoc. reflexivity.
    + rewrite !length_app, length_be32_bytes, Hd. cbn [length]. lia.
    + reflexivity.
  - rewrite u8_bytes_subarray by (try assumption; lia). rewrite Hbytes.
    apply (slice_app3 _ pre _
             ([byte_of_Z (Z.of_nat (length name))]
                ++ be32_bytes (Z.of_nat (length body)) ++ name ++ body ++ post)).
    + rewrite Hwhole, <- !app_assoc. reflexivity.
    + exact Hi.
    + rewrite Hd. lia.
  - rewrite u8_bytes_subarray by (try assumption; lia). rewrite Hbytes.
    apply (slice_app3 _ (pre ++ digest ++ [byte_of_Z (Z.of_nat (length name))]
                           ++ be32_bytes (Z.of_nat (length body)) ++ name) _ post).
    + rewrite Hwhole, <- !app_assoc. reflexivity.
    + rewrite !length_app, length_be32_bytes, Hd. cbn [length]. lia.
    + lia.
Qed.

Lemma contents_app (g : heap) (xs ys : list FileInit) :
  contents g (xs ++ ys) = contents g xs ++ contents g ys.
Proof. apply List.map_app. Qed.

Lemma entry_in_range_bounds (h : heap) (f : FileInit) :
  entry_in_range f = true -> view_ok h (snd f) = true ->
  Z.of_nat (length (utfEncode (fst f))) <= 255
  /\ Z.of_nat (length (u8_bytes h (snd f))) <= 2 ^ 32 - 1
  /\ byteLength (snd f) = Z.of_nat (length (u8_bytes h (snd f))).
Proof.
  unfold entry_in_range. intros Hr Hv. apply andb_prop in Hr as [Hn Hb].
  pose proof (view_ok_length h _ Hv). lia.
Qed.

(** In a buffer that starts with the records of [pre], the loop reads the
    entries of [pre] back one after the other. *)
Lemma decode_reaches_prefix (h g : heap) (a : Uint8Array) (whole : list byte)
      (pre : list FileInit) :
  g !! buffer a = Some whole -> whole_buffer g a = true ->
  forall rest : list byte,
    whole = archive_layout cryptoHash h pre ++ rest ->
    files_ok h pre = true -> forallb entry_in_range pre = true ->
    exists result : list FileInit,
      loop_reaches cryptoHash g a
        (Z.of_nat (length (archive_layout cryptoHash h pre))) result
      /\ contents g result = map (entry_content h) pre.
Proof.
  intros Hb Hw.
  induction pre as [|f pre IH] using rev_ind; intros rest Hwhole Hok Hr.
  - exists []. split; [constructor | reflexivity].
  - unfold files_ok in Hok. rewrite forallb_app in Hok, Hr.
    apply andb_prop in Hok as [Hok Hf]. apply andb_prop in Hr as [Hr Hfr].
    cbn [forallb] in Hf, Hfr. rewrite andb_true_r in Hf, Hfr.
    rewrite archive_layout_app in Hwhole |- *.
    unfold archive_layout at 2 in Hwhole. cbn [map concat] in Hwhole.
    rewrite app_nil_r in Hwhole.
    destruct (IH (record_layout cryptoHash h f ++ rest)) as (result & Hreach & Hcont).
    { rewrite Hwhole, <- app_assoc. reflexivity. }
    { exact Hok. }
    { exact Hr. }
    destruct (entry_in_range_bounds h f Hfr Hf) as (Hn & Hbd & Hbl).
    destruct (read_record_at g a whole (archive_layout cryptoHash h pre) rest
                (cryptoHash (u8_bytes h (snd f))) (utfEncode (fst f)) (u8_bytes h (snd f))
                (Z.of_nat (length (archive_layout cryptoHash h pre))))
      as (hv & bv & Eread & Ehv & Ebv); try assumption; try reflexivity.
    { rewrite Hwhole. unfold record_layout. cbv zeta. rewrite Hbl.
      rewrite <- !app_assoc. reflexivity. }
    { apply cryptoHash_length. }
    exists (result ++ [(utfDecode (utfEncode (fst f)), bv)]). split.
    + replace (Z.of_nat (length (archive_layout cryptoHash h pre
                                   ++ archive_layout cryptoHash h [f])))
        with (Z.of_nat (length (archive_layout cryptoHash h pre)) + 37
              + Z.of_nat (length (utfEncode (fst f)))
              + Z.of_nat (length (u8_bytes h (snd f)))).
      * eapply reaches_turn.
        -- exact Hreach.
        -- destruct (whole_buffer_lookup g a Hw) as (bs & Hb' & _ & ->).
           rewrite Hb in Hb'. injection Hb' as <-.
           rewrite Hwhole, !length_app.
           pose proof (length_record_layout cryptoHash cryptoHash_length h f Hf) as Hrl.
           unfold record_size in Hrl. lia.
        -- eapply decode_record_match; [exact Eread|]. rewrite Ehv, Ebv. reflexivity.
      * rewrite length_app. unfold archive_layout at 3. cbn [map concat].
        rewrite app_nil_r.
        pose proof (length_record_layout cryptoHash cryptoHash_length h f Hf) as Hrl.
        unfold record_size in Hrl. lia.
    + rewrite contents_app, Hcont, List.map_app. cbn [contents map fst snd].
      unfold entry_content. rewrite Ebv. reflexivity.
Qed.

End DecodeLayout.

(** ** [utfDecode] after [utfEncode]

    The two conversions give back the well-formed strings that do not
    start with a byte order mark. *)

Section Utf8Facts.

Lemma land_low_bits (a b n : Z) : 0 <= n -> 0 <= b < 2 ^ n -> Z.land (a * 2 ^ n) b = 0.
Proof.
  intros Hn Hb. apply Z.bits_inj'. intros m Hm.
  rewrite Z.land_spec, Z.bits_0.
  destruct (Z.ltb_spec m n).
  - rewrite Z.mul_pow2_bits_low by lia. reflexivity.
  - rewrite <- (Z.mod_small b (2 ^ n)) by lia.
    rewrite Z.mod_pow2_bits_high by lia. apply andb_false_r.
Qed.

Lemma lor_disjoint (a b n : Z) :
  0 <= n -> 0 <= b < 2 ^ n -> Z.lor (a * 2 ^ n) b = a * 2 ^ n + b.
Proof.
  intros Hn Hb. pose proof (land_low_bits a b n Hn Hb) as Hd.
  rewrite <- Z.lxor_lor by exact Hd.
  rewrite <- Z.add_nocarry_lxor by exact Hd. reflexivity.
Qed.

Lemma lor_0x80 (y : Z) : 0 <= y < 64 -> Z.lor 0x80 y = 128 + y.
Proof. intros Hy. apply (lor_disjoint 2 y 6); [lia | exact Hy]. Qed.

Lemma lor_shiftl_6 (c y : Z) : 0 <= y < 64 -> Z.lor (Z.shiftl c 6) y = c * 64 + y.
Proof.
  intros Hy. rewrite Z.shiftl_mul_pow2 by lia. apply (lor_disjoint c y 6); [lia | exact Hy].
Qed.

Lemma land_0x3F (x : Z) : Z.land x 0x3F = x mod 64.
Proof. change 0x3F with (Z.ones 6). rewrite Z.land_ones by lia. reflexivity. Qed.

Lemma land_0x1F (x : Z) : Z.land x 0x1F = x mod 32.
Proof. change 0x1F with (Z.ones 5). rewrite Z.land_ones by lia. reflexivity. Qed.

Lemma land_0xF (x : Z) : Z.land x 0xF = x mod 16.
Proof. change 0xF with (Z.ones 4). rewrite Z.land_ones by lia. reflexivity. Qed.

Lemma land_0x7 (x : Z) : Z.land x 0x7 = x mod 8.
Proof. change 0x7 with (Z.ones 3). rewrite Z.land_ones by lia. reflexivity. Qed.

Lemma land_0x3FF (x : Z) : Z.land x 0x3FF = x mod 1024.
Proof. change 0x3FF with (Z.ones 10). rewrite Z.land_ones by lia. reflexivity. Qed.

(** The bytes of a code point, as numbers. *)
Lemma utf8_encode_1 (cp : Z) :
  0 <= cp <= 0x7F -> utf8_encode_code_point cp = [byte_of_Z cp].
Proof.
  intros H. unfold utf8_encode_code_point.
  destruct (Z.leb_spec cp 0x7F); [reflexivity | lia].
Qed.

Lemma utf8_encode_2 (cp : Z) :
  0x80 <= cp <= 0x7FF ->
  utf8_encode_code_point cp = [byte_of_Z (192 + cp / 64); byte_of_Z (128 + cp mod 64)].
Proof.
  intros H. unfold utf8_encode_code_point.
  destruct (Z.leb_spec cp 0x7F); [lia|].
  destruct (Z.leb_spec cp 0x7FF); [|lia].
  cbn [utf8_continuation Z.of_nat Z.mul].
  rewrite !land_0x3F, !Z.shiftr_div_pow2 by lia.
  rewrite lor_0x80 by (apply Z.mod_pos_bound; lia).
  change (2 ^ (6 * Z.of_nat 1)) with 64. change (2 ^ 0) with 1. rewrite Z.div_1_r.
  do 2 f_equal. lia.
Qed.

Lemma utf8_encode_3 (cp : Z) :
  0x800 <= cp <= 0xFFFF ->
  utf8_encode_code_point cp
  = [byte_of_Z (224 + cp / 4096); byte_of_Z (128 + (cp / 64) mod 64);
     byte_of_Z (128 + cp mod 64)].
Proof.
  intros H. unfold utf8_encode_code_point.
  destruct (Z.leb_spec cp 0x7F); [lia|].
  destruct (Z.leb_spec cp 0x7FF); [lia|].
  destruct (Z.leb_spec cp 0xFFFF); [|lia].
  cbn [utf8_continuation Z.of_nat Z.mul Pos.of_succ_nat Pos.succ Pos.mul].
  rewrite !land_0x3F, !Z.shiftr_div_pow2 by lia.
  rewrite !lor_0x80 by (apply Z.mod_pos_bound; lia).
  change (2 ^ (6 * Z.of_nat 2)) with 4096. change (2 ^ 6) with 64. change (2 ^ 0) with 1.
  rewrite Z.div_1_r. do 2 f_equal. lia.
Qed.

Lemma utf8_encode_4 (cp : Z) :
  0x10000 <= cp ->
  utf8_encode_code_point cp
  = [byte_of_Z (240 + cp / 262144); byte_of_Z (128 + (cp / 4096) mod 64);
     byte_of_Z (128 + (cp / 64) mod 64); byte_of_Z (128 + cp mod 64)].
Proof.
  intros H. unfold utf8_encode_code_point.
  destruct (Z.leb_spec cp 0x7F); [lia|].
  destruct (Z.leb_spec cp 0x7FF); [lia|].
  destruct (Z.leb_spec cp 0xFFFF); [lia|].
  cbn [utf8_continuation Z.of_nat Z.mul Pos.of_succ_nat Pos.succ Pos.mul].
  rewrite !land_0x3F, !Z.shiftr_div_pow2 by lia.
  rewrite !lor_0x80 by (apply Z.mod_pos_bound; lia).
  change (2 ^ (6 * Z.of_nat 3)) with 262144. change (2 ^ 12) with 4096.
  change (2 ^ 6) with 64. change (2 ^ 0) with 1.
  rewrite Z.div_1_r. do 2 f_equal. lia.
Qed.

End Utf8Facts.

Section Utf8Decoder.

Lemma feed_ascii (b : Z) : 0 <= b <= 0x7F -> utf8_feed utf8_start b = ([b], utf8_start).
Proof.
  intros H. unfold utf8_feed, utf8_handler, in_range. cbn [bytes_needed utf8_start Z.eqb].
  destruct (Z.leb_spec 0 b); [|lia]. destruct (Z.leb_spec b 0x7F); [|lia]. reflexivity.
Qed.

Lemma feed_lead2 (b : Z) :
  0xC2 <= b <= 0xDF -> utf8_feed utf8_start b = ([], mkUtf8 (b mod 32) 0 1 0x80 0xBF).
Proof.
  intros H. unfold utf8_feed, utf8_handler, in_range. cbn [bytes_needed utf8_start Z.eqb].
  destruct (Z.leb_spec b 0x7F); [lia|]. rewrite andb_false_r.
  destruct (Z.leb_spec 0xC2 b); [|lia]. destruct (Z.leb_spec b 0xDF); [|lia].
  cbn [andb]. rewrite land_0x1F. reflexivity.
Qed.

Lemma feed_lead3 (b : Z) :
  0xE0 <= b <= 0xEF ->
  utf8_feed utf8_start b
  = ([], mkUtf8 (b mod 16) 0 2 (if b =? 0xE0 then 0xA0 else 0x80)
                (if b =? 0xED then 0x9F else 0xBF)).
Proof.
  intros H. unfold utf8_feed, utf8_handler, in_range. cbn [bytes_needed utf8_start Z.eqb].
  destruct (Z.leb_spec b 0x7F); [lia|]. rewrite andb_false_r.
  destruct (Z.leb_spec b 0xDF); [lia|]. rewrite andb_false_r.
  destruct (Z.leb_spec 0xE0 b); [|lia]. destruct (Z.leb_spec b 0xEF); [|lia].
  cbn [andb]. rewrite land_0xF. reflexivity.
Qed.

Lemma feed_lead4 (b : Z) :
  0xF0 <= b <= 0xF4 ->
  utf8_feed utf8_start b
  = ([], mkUtf8 (b mod 8) 0 3 (if b =? 0xF0 then 0x90 else 0x80)
                (if b =? 0xF4 then 0x8F else 0xBF)).
Proof.
  intros H. unfold utf8_feed, utf8_handler, in_range. cbn [bytes_needed utf8_start Z.eqb].
  destruct (Z.leb_spec b 0x7F); [lia|]. rewrite andb_false_r.
  destruct (Z.leb_spec b 0xDF); [lia|]. rewrite andb_false_r.
  destruct (Z.leb_spec b 0xEF); [lia|]. rewrite andb_false_r.
  destruct (Z.leb_spec 0xF0 b); [|lia]. destruct (Z.leb_spec b 0xF4); [|lia].
  cbn [andb]. rewrite land_0x7. reflexivity.
Qed.

(** A continuation byte within the bounds of the state. *)
Lemma feed_continuation (cp seen needed lo hi b : Z) :
  needed <> 0 -> lo <= b <= hi -> 0x80 <= b <= 0xBF ->
  utf8_feed (mkUtf8 cp seen needed lo hi) b
  = if seen + 1 =? needed then ([cp * 64 + (b - 128)], utf8_start)
    else ([], mkUtf8 (cp * 64 + (b - 128)) (seen + 1) needed 0x80 0xBF).
Proof.
  intros Hn Hb Hc. unfold utf8_feed, utf8_handler, in_range.
  cbn [bytes_needed lower_boundary upper_boundary code_point bytes_seen].
  destruct (Z.eqb_spec needed 0); [contradiction|].
  destruct (Z.leb_spec lo b); [|lia]. destruct (Z.leb_spec b hi); [|lia].
  cbn [andb negb].
  rewrite land_0x3F, lor_shiftl_6 by (apply Z.mod_pos_bound; lia).
  replace (b mod 64) with (b - 128) by (Z.div_mod_to_equations; lia).
  destruct (Z.eqb_spec (seen + 1) needed); reflexivity.
Qed.

Lemma utf8_decode_cons (st : utf8_state) (b : byte) (bs : list byte) :
  utf8_decode st (b :: bs)
  = fst (utf8_feed st (Z_of_byte b)) ++ utf8_decode (snd (utf8_feed st (Z_of_byte b))) bs.
Proof. cbn [utf8_decode]. destruct (utf8_feed st (Z_of_byte b)). reflexivity. Qed.

(** Decoding the bytes of a scalar value gives it back, whatever follows. *)
Lemma utf8_decode_encode_code_point (cp : Z) (rest : list byte) :
  scalar cp ->
  utf8_decode utf8_start (utf8_encode_code_point cp ++ rest)
  = cp :: utf8_decode utf8_start rest.
Proof.
  intros [Hr Hs].
  destruct (Z.le_gt_cases cp 0x7F) as [H1|H1];
    [|destruct (Z.le_gt_cases cp 0x7FF) as [H2|H2];
      [|destruct (Z.le_gt_cases cp 0xFFFF) as [H3|H3]]].
  - rewrite utf8_encode_1 by lia. cbn [app].
    rewrite utf8_decode_cons, Z_of_byte_of_Z_small by lia.
    rewrite feed_ascii by lia. reflexivity.
  - rewrite utf8_encode_2 by lia. cbn [app].
    rewrite utf8_decode_cons, Z_of_byte_of_Z_small by (Z.div_mod_to_equations; lia).
    rewrite feed_lead2 by (Z.div_mod_to_equations; lia). cbn [fst snd app].
    rewrite utf8_decode_cons, Z_of_byte_of_Z_small by (Z.div_mod_to_equations; lia).
    rewrite feed_continuation by (Z.div_mod_to_equations; lia).
    simpl (_ + 1 =? _). cbn [fst snd app]. f_equal.
    Z.div_mod_to_equations. lia.
  - rewrite utf8_encode_3 by lia. cbn [app].
    rewrite utf8_decode_cons, Z_of_byte_of_Z_small by (Z.div_mod_to_equations; lia).
    rewrite feed_lead3 by (Z.div_mod_to_equations; lia). cbn [fst snd app].
    rewrite utf8_decode_cons, Z_of_byte_of_Z_small by (Z.div_mod_to_equations; lia).
    rewrite feed_continuation; cycle 1.
    { lia. }
    { destruct (Z.eqb_spec (224 + cp / 4096) 0xE0);
        destruct (Z.eqb_spec (224 + cp / 4096) 0xED);
        Z.div_mod_to_equations; lia. }
    { Z.div_mod_to_equations; lia. }
    simpl (_ + 1 =? _). cbn [fst snd app].
    rewrite utf8_decode_cons, Z_of_byte_of_Z_small by (Z.div_mod_to_equations; lia).
    rewrite feed_continuation by (Z.div_mod_to_equations; lia).
    simpl (_ + 1 =? _). cbn [fst snd app]. f_equal.
    Z.div_mod_to_equations. lia.
  - rewrite utf8_encode_4 by lia. cbn [app].
    rewrite utf8_decode_cons, Z_of_byte_of_Z_small by (Z.div_mod_to_equations; lia).
    rewrite feed_lead4 by (Z.div_mod_to_equations; lia). cbn [fst snd app].
    rewrite utf8_decode_cons, Z_of_byte_of_Z_small by (Z.div_mod_to_equations; lia).
    rewrite feed_continuation; cycle 1.
    { lia. }
    { destruct (Z.eqb_spec (240 + cp / 262144) 0xF0);
        destruct (Z.eqb_spec (240 + cp / 262144) 0xF4);
        Z.div_mod_to_equations; lia. }
    { Z.div_mod_to_equations; lia. }
    simpl (_ + 1 =? _). cbn [fst snd app].
    rewrite utf8_decode_cons, Z_of_byte_of_Z_small by (Z.div_mod_to_equations; lia).
    rewrite feed_continuation by (Z.div_mod_to_equations; lia).
    simpl (_ + 1 =? _). cbn [fst snd app].
    rewrite utf8_decode_cons, Z_of_byte_of_Z_small by (Z.div_mod_to_equations; lia).
    rewrite feed_continuation by (Z.div_mod_to_equations; lia).
    simpl (_ + 1 =? _). cbn [fst snd app]. f_equal.
    Z.div_mod_to_equations. lia.
Qed.

Lemma utf8_decode_encode (cps : list Z) :
  Forall scalar cps ->
  utf8_decode utf8_start (concat (map utf8_encode_code_point cps)) = cps.
Proof.
  induction 1 as [|cp cps Hcp _ IH]; [reflexivity|].
  cbn [map concat]. rewrite utf8_decode_encode_code_point by exact Hcp.
  rewrite IH. reflexivity.
Qed.

End Utf8Decoder.

Section Utf16Facts.

Lemma surrogates_spec (c : Z) :
  (is_lead c = true <-> 0xD800 <= c <= 0xDBFF)
  /\ (is_trail c = true <-> 0xDC00 <= c <= 0xDFFF).
Proof. unfold is_lead, is_trail. rewrite !andb_true_iff, !Z.leb_le. tauto. Qed.

Lemma utf16_units_pair (c d : Z) :
  0xD800 <= c <= 0xDBFF -> 0xDC00 <= d <= 0xDFFF ->
  let cp := 0x10000 + Z.shiftl (c - 0xD800) 10 + (d - 0xDC00) in
  scalar cp /\ utf16_units cp = [c; d] /\ cp <> 0xFEFF.
Proof.
  intros Hc Hd cp. subst cp. rewrite Z.shiftl_mul_pow2 by lia.
  change (2 ^ 10) with 1024. unfold scalar, utf16_units.
  destruct (Z.ltb_spec (0x10000 + (c - 0xD800) * 1024 + (d - 0xDC00)) 0x10000); [lia|].
  rewrite land_0x3FF, Z.shiftr_div_pow2 by lia. change (2 ^ 10) with 1024.
  repeat split; try lia.
  f_equal; [|f_equal]; Z.div_mod_to_equations; lia.
Qed.

Lemma utf16_units_bmp (c : Z) :
  0 <= c <= 0xFFFF -> is_lead c = false -> is_trail c = false ->
  scalar c /\ utf16_units c = [c].
Proof.
  intros Hc Hl Ht. unfold is_lead, is_trail in Hl, Ht.
  apply andb_false_iff in Hl. apply andb_false_iff in Ht.
  rewrite !Z.leb_gt in Hl, Ht. unfold scalar, utf16_units.
  destruct (Z.ltb_spec c 0x10000); [|lia]. repeat split; lia.
Qed.

(** The code points of a well-formed string are scalar values, and their
    code units are the string. *)
Lemma well_formed_code_points (n : nat) :
  forall s : js_string,
    (length s <= n)%nat -> well_formed s = true ->
    Forall scalar (code_points s) /\ concat (map utf16_units (code_points s)) = s.
Proof.
  induction n as [|n IH]; intros s Hn Hwf.
  - destruct s; [|cbn in Hn; lia]. split; [constructor | reflexivity].
  - destruct s as [|c s']; [split; [constructor | reflexivity]|].
    cbn [well_formed code_points] in Hwf |- *. cbn [length] in Hn.
    destruct (is_lead c) eqn:Hl.
    + destruct s' as [|d s'']; [discriminate|].
      apply andb_prop in Hwf as [Ht Hwf]. rewrite Ht. cbn [length] in Hn.
      destruct (IH s'' ltac:(lia) Hwf) as [Hsc Hback].
      apply surrogates_spec in Hl. apply surrogates_spec in Ht.
      destruct (utf16_units_pair c d Hl Ht) as (Hcp & Hu & _).
      split; [constructor; assumption|].
      cbn [map concat]. rewrite Hu, Hback. reflexivity.
    + apply andb_prop in Hwf as [Hwf Hrest]. apply andb_prop in Hwf as [Hwf Hhi].
      apply andb_prop in Hwf as [Ht Hlo]. apply negb_true_iff in Ht. rewrite Ht.
      destruct (IH s' ltac:(lia) Hrest) as [Hsc Hback].
      destruct (utf16_units_bmp c ltac:(lia) Hl Ht) as [Hcp Hu].
      split; [constructor; assumption|].
      cbn [map concat]. rewrite Hu, Hback. reflexivity.
Qed.

Lemma strip_bom_code_points (s : js_string) :
  well_formed s = true -> starts_with_bom s = false ->
  strip_bom (code_points s) = code_points s.
Proof.
  destruct s as [|c s']; [reflexivity|].
  cbn [well_formed code_points starts_with_bom]. intros Hwf Hbom.
  destruct (is_lead c) eqn:Hl.
  - destruct s' as [|d s'']; [discriminate|].
    apply andb_prop in Hwf as [Ht Hwf]. rewrite Ht.
    apply surrogates_spec in Hl. apply surrogates_spec in Ht.
    destruct (utf16_units_pair c d Hl Ht) as (_ & _ & Hne).
    cbn [strip_bom]. apply Z.eqb_neq in Hne. rewrite Hne. reflexivity.
  - apply andb_prop in Hwf as [Hwf _]. apply andb_prop in Hwf as [Hwf _].
    apply andb_prop in Hwf as [Ht _]. apply negb_true_iff in Ht. rewrite Ht.
    cbn [strip_bom]. rewrite Hbom. reflexivity.
Qed.

(** [utfDecode(utfEncode(s))] is [s] for a well-formed string that does
    not start with a byte order mark. *)
Lemma utfDecode_utfEncode (s : js_string) :
  well_formed s = true -> starts_with_bom s = false ->
  utfDecode (utfEncode s) = s.
Proof.
  intros Hwf Hbom.
  destruct (well_formed_code_points (length s) s (Nat.le_refl _) Hwf) as [Hsc Hback].
  unfold utfDecode, utfEncode, TextDecoder_decode, TextEncoder_encode.
  rewrite utf8_decode_encode by exact Hsc.
  rewrite strip_bom_code_points by assumption. exact Hback.
Qed.

End Utf16Facts.

(** ** A truncated archive that is accepted

    Whatever the digest is, the archive of the entry ("a", no byte) cut
    after its header is decoded without an error: [subarray] gives the
    empty name, the body is empty as it was, and its digest is the stored
    one. *)

Section TruncatedArchive.

Variable cryptoHash : list byte -> list byte.
Hypothesis cryptoHash_length : forall data, length (cryptoHash data) = 32%nat.

Lemma slice_past_end (whole : list byte) (off len : Z) :
  Z.of_nat (length whole) <= off -> slice whole off len = [].
Proof.
  intros H. unfold slice. rewrite drop_ge by lia. apply take_nil.
Qed.

Lemma truncated_name_accepted :
  let whole := cryptoHash [] ++ [x01; x00; x00; x00; x00] in
  minipackDecode cryptoHash [whole] (mkU8 0 0 37) = Some (Ok [([], mkU8 0 37 0)]).
Proof.
  intros whole.
  set (a := mkU8 0 0 37).
  assert (Hlen : length whole = 37%nat).
  { unfold whole. rewrite length_app, cryptoHash_length. reflexivity. }
  assert (Hb : [whole] !! buffer a = Some whole) by reflexivity.
  assert (Hw : whole_buffer [whole] a = true).
  { unfold whole_buffer. rewrite Hb, Hlen. reflexivity. }
  destruct (record_fields (cryptoHash []) [] [] [x00; x00; x00; x00] x01
              (cryptoHash_length _) eq_refl) as (Hns & Hbs & _ & _).
  cbv zeta in Hns, Hbs. cbn [app] in Hns, Hbs. fold whole in Hns, Hbs.
  pose proof (read_record_whole [whole] a whole 0 Hb Hw ltac:(lia) ltac:(lia)) as Eread.
  cbv zeta in Eread. rewrite Hns, Hbs in Eread.
  change (Z_of_byte x01) with 1 in Eread.
  change (be32_value [x00; x00; x00; x00]) with 0 in Eread.
  rewrite slice_past_end in Eread by lia.
  apply (decode_returns_at cryptoHash [whole] a 38 [([], mkU8 0 37 0)]); [|cbn; lia].
  apply (reaches_turn cryptoHash [whole] a 0 38 [] ([], mkU8 0 37 0)).
  - constructor.
  - reflexivity.
  - eapply decode_record_match; [exact Eread|].
    rewrite u8_bytes_subarray by (try apply whole_buffer_view_ok; try assumption; lia).
    rewrite (whole_buffer_bytes [whole] a whole Hb Hw).
    change (u8_bytes [whole] (mkU8 0 37 0)) with (@nil byte).
    apply (slice_app3 whole [] (cryptoHash []) [x01; x00; x00; x00; x00]).
    + reflexivity.
    + reflexivity.
    + rewrite cryptoHash_length. reflexivity.
Qed.

End TruncatedArchive.

(** * The properties of the specification *)

Section Claims.

Variable cryptoHash : list byte -> list byte.
Hypothesis cryptoHash_length : forall data, length (cryptoHash data) = 32%nat.

Lemma loop_reaches_nonneg (h : heap) (archive : Uint8Array) (i : Z) (files : list FileInit) :
  loop_reaches cryptoHash h archive i files -> 0 <= i.
Proof.
  induction 1 as [|i i' files file _ IH _ E]; [lia|].
  apply decode_record_advance in E. lia.
Qed.

(** Encoding then decoding gives the entries back, each name having gone
    through [utfEncode] and [utfDecode]. *)
Lemma encode_decode_contents (h : heap) (files : list FileInit) :
  files_ok h files = true -> forallb entry_in_range files = true ->
  exists (a : Uint8Array) (h' : heap) (result : list FileInit),
    minipackEncode cryptoHash files h = Ok (a, h')
    /\ byteLength a = archive_size files
    /\ minipackDecode cryptoHash h' a = Some (Ok result)
    /\ contents h' result = map (entry_content h) files.
Proof.
  intros Hok Hr.
  pose proof (length_archive_layout cryptoHash cryptoHash_length h files Hok) as Hlen.
  set (a := mkU8 (length h) 0 (archive_size files)).
  set (whole := archive_layout cryptoHash h files).
  assert (Hb : (h ++ [whole]) !! buffer a = Some whole) by apply lookup_fresh.
  assert (Hw : whole_buffer (h ++ [whole]) a = true).
  { unfold whole_buffer. rewrite Hb. cbn [byteOffset byteLength a].
    apply andb_true_intro. split; [reflexivity | apply Z.eqb_eq; subst whole; lia]. }
  destruct (decode_reaches_prefix cryptoHash cryptoHash_length h (h ++ [whole]) a whole
              files Hb Hw [] ltac:(rewrite app_nil_r; reflexivity) Hok Hr)
    as (result & Hreach & Hcont).
  exists a, (h ++ [whole]), result. repeat split.
  - apply minipackEncode_layout; assumption.
  - eapply decode_returns_at; [exact Hreach|]. cbn [byteLength a]. subst whole. lia.
  - exact Hcont.
Qed.

(** Whatever the digest is, a name that starts with U+FEFF comes back
    without it. *)
Lemma bom_name_not_restored (h : heap) (v : Uint8Array) :
  view_ok h v = true -> byteLength v <= 2 ^ 32 - 1 ->
  exists (a : Uint8Array) (h' : heap) (result : list FileInit),
    minipackEncode cryptoHash [([0xFEFF; 0x61], v)] h = Ok (a, h')
    /\ minipackDecode cryptoHash h' a = Some (Ok result)
    /\ contents h' result = [([0x61], u8_bytes h v)].
Proof.
  intros Hv Hlen.
  destruct (encode_decode_contents h [([0xFEFF; 0x61], v)])
    as (a & h' & result & He & _ & Hd & Hc).
  - cbn [files_ok forallb snd]. rewrite Hv. reflexivity.
  - cbn [forallb]. unfold entry_in_range. cbn [fst snd].
    apply andb_true_intro. split; [|reflexivity].
    apply andb_true_intro. split; [reflexivity | apply Z.leb_le; exact Hlen].
  - exists a, h', result. split; [exact He|]. split; [exact Hd | exact Hc].
Qed.

(** A record whose stored digest is not the digest of its body, after the
    records of [pre]: the entries of [pre] are read, and the turn of the
    record throws. *)
Lemma wrong_digest_throws (h g : heap) (a : Uint8Array) (pre : list FileInit)
      (digest name body rest : list byte) :
  g !! buffer a
  = Some (archive_layout cryptoHash h pre
            ++ (digest ++ [byte_of_Z (Z.of_nat (length name))]
                  ++ be32_bytes (Z.of_nat (length body)) ++ name ++ body) ++ rest) ->
  whole_buffer g a = true ->
  files_ok h pre = true -> forallb entry_in_range pre = true ->
  length digest = 32%nat ->
  Z.of_nat (length name) <= 255 -> Z.of_nat (length body) <= 2 ^ 32 - 1 ->
  digest <> cryptoHash body ->
  exists result : list FileInit,
    loop_reaches cryptoHash g a (archive_size pre) result
    /\ contents g result = map (entry_content h) pre
    /\ decode_record cryptoHash g a (archive_size pre) = Throw Error
    /\ minipackDecode cryptoHash g a = Some (Throw Error).
Proof.
  intros Hb Hw Hok Hr Hd Hn Hbd Hne.
  pose proof (length_archive_layout cryptoHash cryptoHash_length h pre Hok) as Hlen.
  destruct (decode_reaches_prefix cryptoHash cryptoHash_length h g a _ pre Hb Hw _
              eq_refl Hok Hr) as (result & Hreach & Hcont).
  rewrite Hlen in Hreach.
  destruct (read_record_at g a _ (archive_layout cryptoHash h pre) rest digest name body
              (archive_size pre) Hb Hw eq_refl (eq_sym Hlen) Hd Hn Hbd)
    as (hv & bv & Eread & Ehv & Ebv).
  assert (E : decode_record cryptoHash g a (archive_size pre) = Throw Error).
  { eapply decode_record_mismatch; [exact Eread|]. rewrite Ehv, Ebv. exact Hne. }
  exists result. repeat split; try assumption.
  eapply decode_throws_at; [exact Hreach | | exact E].
  destruct (whole_buffer_lookup g a Hw) as (bs & Hb' & _ & ->).
  rewrite Hb in Hb'. injection Hb' as <-.
  rewrite !length_app, Hd. cbn [length]. lia.
Qed.

(** C1, amended: for every finite sequence of entries in which each name
    is a well-formed string (no unpaired surrogate) that does not start
    with U+FEFF, has a UTF-8 encoding of at most 255 bytes, and each body
    is at most 2^32 - 1 bytes, minipackDecode(await minipackEncode(entries))
    returns a sequence equal to entries in content (name string and body
    bytes) and order. *)
Theorem C1_round_trip (h : heap) (files : list FileInit) :
  files_ok h files = true ->
  forallb entry_in_range files = true ->
  forallb (fun f => well_formed (fst f) && negb (starts_with_bom (fst f))) files = true ->
  exists (a : Uint8Array) (h' : heap) (result : list FileInit),
    minipackEncode cryptoHash files h = Ok (a, h')
    /\ minipackDecode cryptoHash h' a = Some (Ok result)
    /\ contents h' result = contents h files.
Proof.
  intros Hok Hr Hwf.
  destruct (encode_decode_contents h files Hok Hr) as (a & h' & result & He & _ & Hd & Hc).
  exists a, h', result. split; [exact He|]. split; [exact Hd|].
  rewrite Hc. unfold contents. apply map_ext_in. intros f Hf.
  rewrite forallb_forall in Hwf. specialize (Hwf f Hf).
  apply andb_prop in Hwf as [Hw Hb]. apply negb_true_iff in Hb.
  unfold entry_content. rewrite utfDecode_utfEncode by assumption. reflexivity.
Qed.

(** Every entry pushed by the loop was read from a record whose stored
    digest is the digest of the body read. *)
Lemma loop_reaches_verified (h : heap) (archive : Uint8Array) (i : Z) (files : list FileInit) :
  loop_reaches cryptoHash h archive i files ->
  Forall (fun f => exists (j j' : Z) (hash : Uint8Array),
                     read_record h archive j = Ok (hash, fst f, snd f, j')
                     /\ u8_bytes h hash = cryptoHash (u8_bytes h (snd f)))
         files.
Proof.
  induction 1 as [|i i' files file _ IH _ E]; [constructor|].
  apply Forall_app. split; [exact IH|]. constructor; [|constructor].
  apply decode_record_inv in E as (hash & Eread & Ehash).
  exists i, i', hash. split; assumption.
Qed.

(** C2: for every input buffer, if in a turn of the loop of minipackDecode
    the stored digest bytes of the record differ from the digest computed
    over the extracted body, then minipackDecode throws and returns
    nothing; every entry of a returned result was read from a record whose
    stored digest is the digest of its body, so that the mismatched entry
    and those after it are never part of a result. *)
Theorem C2_digest_mismatch_throws (h : heap) (archive : Uint8Array) :
  (forall (i i' : Z) (files : list FileInit) (hash body : Uint8Array) (name : js_string),
      loop_reaches cryptoHash h archive i files ->
      i < byteLength archive ->
      read_record h archive i = Ok (hash, name, body, i') ->
      u8_bytes h hash <> cryptoHash (u8_bytes h body) ->
      minipackDecode cryptoHash h archive = Some (Throw Error))
  /\ (forall result : list FileInit,
         minipackDecode cryptoHash h archive = Some (Ok result) ->
         Forall (fun f => exists (j j' : Z) (hash : Uint8Array),
                            read_record h archive j = Ok (hash, fst f, snd f, j')
                            /\ u8_bytes h hash = cryptoHash (u8_bytes h (snd f)))
                result).
Proof.
  split.
  - intros i i' files hash body name Hreach Hlt Eread Hne.
    eapply decode_throws_at; [exact Hreach | exact Hlt |].
    eapply decode_record_mismatch; eassumption.
  - intros result E.
    destruct (minipackDecode_result cryptoHash h archive result E) as (j & Hreach & _).
    eapply loop_reaches_verified. exact Hreach.
Qed.

(** C3, amended: for every input array that covers the whole of its
    buffer: when fewer than 37 bytes are left at the cursor for the
    header of a record, minipackDecode throws a RangeError; when the
    header is there, the name and the body are the name_len and body_len
    bytes that follow as far as the buffer goes (subarray cuts them at the
    end of the buffer without an error), the entry is accepted when the
    stored digest is the digest of that body and minipackDecode throws
    otherwise; and minipackDecode returns a result only with the cursor at
    or past the buffer length. *)
Theorem C3_decode_bounds (h : heap) (archive : Uint8Array) (whole : list byte) :
  h !! buffer archive = Some whole ->
  whole_buffer h archive = true ->
  (forall (i : Z) (files : list FileInit),
      loop_reaches cryptoHash h archive i files ->
      i < byteLength archive -> byteLength archive < i + 37 ->
      minipackDecode cryptoHash h archive = Some (Throw RangeError))
  /\ (forall (i : Z) (files : list FileInit),
         loop_reaches cryptoHash h archive i files ->
         i + 37 <= byteLength archive ->
         let ns := header_name_len whole i in
         let bs := header_body_len whole i in
         let name := slice whole (i + 37) ns in
         let body := slice whole (i + 37 + ns) bs in
         (slice whole i 32 = cryptoHash body ->
          exists view : Uint8Array,
            u8_bytes h view = body
            /\ loop_reaches cryptoHash h archive (i + 37 + ns + bs)
                 (files ++ [(utfDecode name, view)]))
         /\ (slice whole i 32 <> cryptoHash body ->
             minipackDecode cryptoHash h archive = Some (Throw Error)))
  /\ (forall result : list FileInit,
         minipackDecode cryptoHash h archive = Some (Ok result) ->
         exists i : Z,
           loop_reaches cryptoHash h archive i result /\ byteLength archive <= i).
Proof.
  intros Hb Hw.
  pose proof (whole_buffer_view_ok h archive Hw) as Hv.
  pose proof (whole_buffer_bytes h archive whole Hb Hw) as Hbytes.
  assert (Hlen : byteLength archive = Z.of_nat (length whole)).
  { destruct (whole_buffer_lookup h archive Hw) as (bs & Hb' & _ & ->). congruence. }
  split; [|split].
  - intros i files Hreach Hlt Hshort.
    pose proof (loop_reaches_nonneg h archive i files Hreach) as Hi.
    eapply decode_throws_at; [exact Hreach | exact Hlt |].
    apply decode_record_throw. eapply read_record_short; try eassumption. lia.
  - intros i files Hreach Hlong ns bs name body.
    pose proof (loop_reaches_nonneg h archive i files Hreach) as Hi.
    pose proof (read_record_whole h archive whole i Hb Hw Hi ltac:(lia)) as Eread.
    cbv zeta in Eread. fold ns bs name in Eread.
    assert (Hns : 0 <= ns) by (unfold ns, header_name_len; apply Z_of_byte_range).
    assert (Hbs : 0 <= bs).
    { unfold bs, header_body_len.
      destruct (slice_four whole (i + 33) ltac:(lia) ltac:(lia)) as (b3 & b2 & b1 & b0 & ->).
      apply be32_value_range. reflexivity. }
    assert (Ehash : u8_bytes h (subarray archive i (i + 32)) = slice whole i 32).
    { rewrite u8_bytes_subarray by (try assumption; lia). rewrite Hbytes.
      f_equal. lia. }
    assert (Ebody : u8_bytes h (subarray archive (i + 37 + ns) (i + 37 + ns + bs)) = body).
    { rewrite u8_bytes_subarray by (try assumption; lia). rewrite Hbytes.
      unfold body. f_equal. lia. }
    split.
    + intros Heq. eexists. split; [exact Ebody|].
      eapply reaches_turn; [exact Hreach | lia |].
      eapply decode_record_match; [exact Eread|]. rewrite Ehash, Ebody. exact Heq.
    + intros Hne. eapply decode_throws_at; [exact Hreach | lia |].
      eapply decode_record_mismatch; [exact Eread|]. rewrite Ehash, Ebody. exact Hne.
  - intros result. apply minipackDecode_result.
Qed.

(** C4, amended: minipackEncode checks no length.  For every input
    sequence it returns the records of the entries, in which the name and
    the body are stored whole and the name_len and body_len fields hold
    the lengths modulo 2^8 and 2^32; the fields are the true lengths
    exactly for names of at most 255 bytes and bodies of at most
    2^32 - 1 bytes. *)
Theorem C4_length_fields_wrap (h : heap) (files : list FileInit) :
  files_ok h files = true ->
  exists a : Uint8Array,
    minipackEncode cryptoHash files h = Ok (a, h ++ [archive_layout cryptoHash h files])
    /\ Forall (fun f =>
                 let r := record_layout cryptoHash h f in
                 let name := utfEncode (fst f) in
                 header_name_len r 0 = Z.of_nat (length name) mod 2 ^ 8
                 /\ header_body_len r 0 = byteLength (snd f) mod 2 ^ 32
                 /\ slice r 37 (Z.of_nat (length name)) = name
                 /\ slice r (37 + Z.of_nat (length name)) (byteLength (snd f))
                    = u8_bytes h (snd f))
              files.
Proof.
  intros Hok. eexists. split.
  - apply minipackEncode_layout; assumption.
  - unfold files_ok in Hok. rewrite forallb_forall in Hok.
    apply List.Forall_forall. intros f Hf. specialize (Hok f Hf). cbv zeta.
    destruct (record_fields (cryptoHash (u8_bytes h (snd f))) (utfEncode (fst f))
                (u8_bytes h (snd f)) (be32_bytes (byteLength (snd f)))
                (byte_of_Z (Z.of_nat (length (utfEncode (fst f)))))
                (cryptoHash_length _) (length_be32_bytes _))
      as (Hns & Hbs & Hname & Hbody).
    cbv zeta in Hns, Hbs, Hname, Hbody. unfold record_layout. cbv zeta.
    rewrite (view_ok_length h _ Hok) in Hbody.
    rewrite Hns, Hbs, Hname, Hbody, Z_of_byte_of_Z, be32_value_be32_bytes.
    repeat split; reflexivity.
Qed.

(** C5, amended: for every archive produced by minipackEncode from
    entries of which the tampered one and those before it are within the
    bounds of the format (a name of at most 255 bytes, a body of at most
    2^32 - 1 bytes), changing any single byte of a stored digest, or
    changing any single byte of a body so that the digest of the body
    changes, makes minipackDecode throw the integrity [Error] in the turn
    of that entry, after the entries before it were read. *)
Theorem C5_tamper_detected (h : heap) (pre post : list FileInit) (f : FileInit)
        (a : Uint8Array) (h' : heap) (p : nat) (old x : byte)
        (g : heap) (a' : Uint8Array) :
  files_ok h (pre ++ f :: post) = true ->
  forallb entry_in_range (pre ++ [f]) = true ->
  minipackEncode cryptoHash (pre ++ f :: post) h = Ok (a, h') ->
  u8_bytes h' a !! p = Some old -> x <> old ->
  g !! buffer a' = Some (<[p := x]> (u8_bytes h' a)) ->
  whole_buffer g a' = true ->
  let start := archive_size pre in
  let body := u8_bytes h (snd f) in
  (start <= Z.of_nat p < start + 32
   \/ exists q : nat,
       Z.of_nat p = start + 37 + Z.of_nat (length (utfEncode (fst f))) + Z.of_nat q
       /\ (q < length body)%nat
       /\ cryptoHash (<[q := x]> body) <> cryptoHash body) ->
  exists result : list FileInit,
    loop_reaches cryptoHash g a' start result
    /\ contents g result = map (entry_content h) pre
    /\ decode_record cryptoHash g a' start = Throw Error
    /\ minipackDecode cryptoHash g a' = Some (Throw Error).
Proof.
  intros Hok Hr He Hold Hx Hg Hw start body Hp.
  rewrite (minipackEncode_layout cryptoHash cryptoHash_length h _ Hok) in He.
  injection He as <- <-.
  rewrite u8_bytes_fresh in Hold, Hg
    by (symmetry; apply length_archive_layout; assumption).
  unfold files_ok in Hok. rewrite forallb_app in Hok, Hr.
  apply andb_prop in Hok as [Hokpre Hokf]. apply andb_prop in Hr as [Hrpre Hrf].
  cbn [forallb] in Hokf, Hrf. apply andb_prop in Hokf as [Hokf _].
  rewrite andb_true_r in Hrf.
  destruct (entry_in_range_bounds h f Hrf Hokf) as (Hn & Hbd & Hbl).
  pose proof (length_archive_layout cryptoHash cryptoHash_length h pre Hokpre) as Hlen.
  fold start in Hlen. fold body in Hbd, Hbl.
  rewrite archive_layout_app, archive_layout_cons in Hold, Hg.
  unfold record_layout in Hold, Hg. cbv zeta in Hold, Hg. fold body in Hold, Hg.
  rewrite Hbl in Hold, Hg.
  set (name := utfEncode (fst f)) in *.
  set (lpre := archive_layout cryptoHash h pre) in *.
  set (lpost := archive_layout cryptoHash h post) in *.
  assert (Hdl : length (cryptoHash body) = 32%nat) by apply cryptoHash_length.
  destruct Hp as [Hp | (q & Hq & Hqb & Hne)].
  - (* a byte of the stored digest *)
    rewrite insert_app_r_alt in Hg by lia.
    rewrite <- (app_assoc (cryptoHash body)) in Hg.
    rewrite (insert_app_l (cryptoHash body)) in Hg by lia.
    rewrite lookup_app_r in Hold by lia.
    rewrite <- (app_assoc (cryptoHash body)) in Hold.
    rewrite lookup_app_l in Hold by lia.
    apply (wrong_digest_throws h g a' pre (<[(p - length lpre)%nat := x]> (cryptoHash body))
             name body lpost); try assumption.
    + rewrite Hg, <- !app_assoc. reflexivity.
    + rewrite length_insert. exact Hdl.
    + intros Heq. apply (f_equal (fun l => l !! (p - length lpre)%nat)) in Heq.
      rewrite list_lookup_insert_eq in Heq by lia. congruence.
  - (* a byte of the body *)
    set (hdr := cryptoHash body ++ [byte_of_Z (Z.of_nat (length name))]
                  ++ be32_bytes (Z.of_nat (length body)) ++ name) in *.
    assert (Hhl : Z.of_nat (length hdr) = 37 + Z.of_nat (length name)).
    { unfold hdr. rewrite !length_app, Hdl, length_be32_bytes. cbn [length]. lia. }
    assert (Hshape : forall b, lpre ++ (cryptoHash body ++ [byte_of_Z (Z.of_nat (length name))]
                       ++ be32_bytes (Z.of_nat (length body)) ++ name ++ b) ++ lpost
                     = (lpre ++ hdr) ++ b ++ lpost).
    { intros b. unfold hdr. rewrite <- !app_assoc. reflexivity. }
    rewrite Hshape in Hg.
    rewrite insert_app_r_alt in Hg by (rewrite length_app; lia).
    rewrite insert_app_l in Hg by (rewrite length_app; lia).
    replace (p - length (lpre ++ hdr))%nat with q in Hg by (rewrite length_app; lia).
    rewrite <- Hshape in Hg.
    apply (wrong_digest_throws h g a' pre (cryptoHash body) name (<[q := x]> body) lpost);
      try assumption.
    + rewrite Hg, length_insert. reflexivity.
    + rewrite length_insert. exact Hbd.
    + congruence.
Qed.

(** C6: for every input sequence of entries, the buffer returned by
    minipackEncode has length exactly the sum over the entries of
    32 + 1 + 4 + (byte length of the UTF-8 encoding of the name) + (byte
    length of the body). *)
Theorem C6_archive_length (h : heap) (files : list FileInit) :
  files_ok h files = true ->
  exists (a : Uint8Array) (h' : heap),
    minipackEncode cryptoHash files h = Ok (a, h')
    /\ byteLength a
       = fold_right Z.add 0
           (map (fun f => 32 + 1 + 4 + Z.of_nat (length (utfEncode (fst f)))
                          + byteLength (snd f)) files)
    /\ Z.of_nat (length (u8_bytes h' a)) = byteLength a.
Proof.
  intros Hok. eexists _, _. split; [|split].
  - apply minipackEncode_layout; assumption.
  - cbn [byteLength]. apply archive_size_sum.
  - rewrite u8_bytes_fresh.
    + apply length_archive_layout; assumption.
    + symmetry. apply length_archive_layout; assumption.
Qed.

(** C7, amended: encoding the single entry ("a.txt", some 3-byte body)
    produces an archive of length 32+1+4+5+3 = 45 bytes (the name takes
    five bytes), and decoding that 45-byte buffer returns exactly
    [("a.txt", that 3-byte body)]. *)
Theorem C7_single_entry (h : heap) (v : Uint8Array) :
  view_ok h v = true -> byteLength v = 3 ->
  exists (a : Uint8Array) (h' : heap) (result : list FileInit),
    minipackEncode cryptoHash [(str "a.txt", v)] h = Ok (a, h')
    /\ byteLength a = 32 + 1 + 4 + 5 + 3
    /\ minipackDecode cryptoHash h' a = Some (Ok result)
    /\ contents h' result = [(str "a.txt", u8_bytes h v)].
Proof.
  intros Hv Hlen.
  destruct (encode_decode_contents h [(str "a.txt", v)]) as (a & h' & result & He & Hs & Hd & Hc).
  - cbn [files_ok forallb snd]. rewrite Hv. reflexivity.
  - cbn [forallb]. unfold entry_in_range. cbn [fst snd]. rewrite Hlen. reflexivity.
  - exists a, h', result. split; [exact He|]. split; [|split; [exact Hd | exact Hc]].
    rewrite Hs, archive_size_cons. unfold record_size. cbn [fst snd].
    rewrite Hlen. reflexivity.
Qed.

(** C8: minipackEncode applied to the empty sequence returns a zero-length
    buffer, and minipackDecode applied to a zero-length buffer returns the
    empty sequence. *)
Theorem C8_empty_archive :
  (forall h : heap,
      exists (a : Uint8Array) (h' : heap),
        minipackEncode cryptoHash [] h = Ok (a, h')
        /\ byteLength a = 0 /\ u8_bytes h' a = [])
  /\ (forall (h : heap) (buf : nat) (off : Z),
         minipackDecode cryptoHash h (mkU8 buf off 0) = Some (Ok [])).
Proof.
  split.
  - intros h. eexists _, _. split; [reflexivity|]. split; [reflexivity|].
    unfold u8_bytes, slice. cbn [byteLength Z.to_nat take]. reflexivity.
  - intros h buf off. reflexivity.
Qed.

(** C9: for every input sequence of entries, minipackEncode leaves the
    input unchanged: after the call every buffer that was in the store
    holds the bytes it held, so that every entry's body is byte for byte
    what it was; the only new state is the freshly allocated output
    buffer. *)
Theorem C9_encode_frame (h : heap) (files : list FileInit) :
  files_ok h files = true ->
  exists (a : Uint8Array) (out : list byte),
    minipackEncode cryptoHash files h = Ok (a, h ++ [out])
    /\ buffer a = length h
    /\ (forall (id : nat) (bs : list byte), h !! id = Some bs -> (h ++ [out]) !! id = Some bs)
    /\ Forall (fun f => view_ok (h ++ [out]) (snd f) = true
                        /\ u8_bytes (h ++ [out]) (snd f) = u8_bytes h (snd f)) files.
Proof.
  intros Hok. eexists _, _. split; [|split; [|split]].
  - apply minipackEncode_layout; assumption.
  - reflexivity.
  - intros id bs Hid. apply lookup_app_l_Some. exact Hid.
  - unfold files_ok in Hok. rewrite forallb_forall in Hok.
    apply List.Forall_forall. intros f Hf. specialize (Hok f Hf). split.
    + destruct (view_ok_lookup h _ Hok) as (bs & Hb & Ho & Hl & Hle).
      unfold view_ok. rewrite (lookup_app_l_Some _ _ _ _ Hb).
      repeat (apply andb_true_intro; split); lia.
    + apply u8_bytes_alloc. exact Hok.
Qed.

(** C10: minipackDecode terminates on every input buffer: every turn of
    its loop that does not throw moves the cursor forward by the 37 bytes
    of the header at least, also when name_len or body_len is zero, so
    that the loop ends within byteLength / 37 + 1 turns, and more turns
    allowed give the same result. *)
Theorem C10_decode_terminates (h : heap) (archive : Uint8Array) :
  (exists r : result (list FileInit),
      minipackDecode cryptoHash h archive = Some r
      /\ forall fuel : nat,
          (decode_fuel archive <= fuel)%nat ->
          decode_loop cryptoHash fuel h archive 0 [] = Some r)
  /\ (forall (i i' : Z) (file : FileInit),
         decode_record cryptoHash h archive i = Ok (file, i') -> i + 37 <= i').
Proof.
  split.
  - pose proof (decode_fuel_enough archive) as Hf.
    destruct (decode_loop_fuel cryptoHash h archive (decode_fuel archive)
                (decode_fuel archive) 0 [] Hf Hf) as (r & Hr & _).
    exists r. split; [exact Hr|]. intros fuel Hle.
    destruct (decode_loop_fuel cryptoHash h archive (decode_fuel archive) fuel 0 []
                Hf ltac:(lia)) as (r' & Hr1 & Hr2).
    unfold minipackDecode in Hr. congruence.
  - intros i i' file. apply decode_record_advance.
Qed.

End Claims.

(** * The properties on concrete inputs, with SHA-256 as the digest *)

Example name_with_bom : utfDecode (utfEncode [0xFEFF; 0x61]) = [0x61].
Proof. reflexivity. Qed.

Example name_with_lone_surrogate : utfDecode (utfEncode [0x61; 0xD800]) = [0x61; 0xFFFD].
Proof. reflexivity. Qed.

(** C1 fails as stated: the name "\uFEFFa" has a UTF-8 encoding of four
    bytes and comes back from minipackDecode(minipackEncode(...)) as "a";
    the name "a\uD800", of four bytes too, comes back as "a\uFFFD". *)
Lemma C1_counterexample :
  (forallb entry_in_range ex_bom_files = true
   /\ minipackEncode SHA256.sha256 ex_bom_files ex_store
      = Ok (mkU8 1 0 44, ex_store ++ [archive_layout SHA256.sha256 ex_store ex_bom_files])
   /\ minipackDecode SHA256.sha256
        (ex_store ++ [archive_layout SHA256.sha256 ex_store ex_bom_files]) (mkU8 1 0 44)
      = Some (Ok [([0x61], mkU8 1 41 3)])
   /\ contents (ex_store ++ [archive_layout SHA256.sha256 ex_store ex_bom_files])
        [([0x61], mkU8 1 41 3)]
      = [([0x61], [x01; x02; x03])]
   /\ [([0x61], [x01; x02; x03])] <> contents ex_store ex_bom_files)
  /\ (forallb entry_in_range ex_surrogate_files = true
      /\ minipackEncode SHA256.sha256 ex_surrogate_files ex_store
         = Ok (mkU8 1 0 44,
               ex_store ++ [archive_layout SHA256.sha256 ex_store ex_surrogate_files])
      /\ minipackDecode SHA256.sha256
           (ex_store ++ [archive_layout SHA256.sha256 ex_store ex_surrogate_files])
           (mkU8 1 0 44)
         = Some (Ok [([0x61; 0xFFFD], mkU8 1 41 3)])
      /\ contents (ex_store ++ [archive_layout SHA256.sha256 ex_store ex_surrogate_files])
           [([0x61; 0xFFFD], mkU8 1 41 3)]
         = [([0x61; 0xFFFD], [x01; x02; x03])]
      /\ [([0x61; 0xFFFD], [x01; x02; x03])] <> contents ex_store ex_surrogate_files).
Proof.
  split.
  - split; [reflexivity|]. split; [vm_compute; reflexivity|].
    split; [vm_compute; reflexivity|]. split; [vm_compute; reflexivity|].
    vm_compute. discriminate.
  - split; [reflexivity|]. split; [vm_compute; reflexivity|].
    split; [vm_compute; reflexivity|]. split; [vm_compute; reflexivity|].
    vm_compute. discriminate.
Qed.

(** C3 fails as stated.  The archive of ("a", no byte) cut to its first
    37 bytes declares a name of one byte that is not there: minipackDecode
    returns the entry with an empty name, the cursor having gone to 38,
    past the length 37.  And on an array of 36 bytes that is a window on
    a buffer of 37 bytes, too short for a header, the length fields are
    read through [archive.buffer] past the end of the array, and an entry
    is returned. *)
Lemma C3_counterexample :
  (minipackEncode SHA256.sha256 [(str "a", mkU8 0 0 0)] ex_store
   = Ok (mkU8 1 0 38, ex_store ++ [ex_truncated ++ [x61]])
   /\ whole_buffer [ex_truncated] (mkU8 0 0 37) = true
   /\ header_name_len ex_truncated 0 = 1
   /\ minipackDecode SHA256.sha256 [ex_truncated] (mkU8 0 0 37)
      = Some (Ok [([], mkU8 0 37 0)])
   /\ loop_reaches SHA256.sha256 [ex_truncated] (mkU8 0 0 37) 38 [([], mkU8 0 37 0)])
  /\ (length (SHA256.sha256 [] ++ [x00; x00; x00; x00; x00]) = 37%nat
      /\ minipackDecode SHA256.sha256
           [SHA256.sha256 [] ++ [x00; x00; x00; x00; x00]] (mkU8 0 0 36)
         = Some (Ok [([], mkU8 0 36 0)])).
Proof.
  split.
  - split; [vm_compute; reflexivity|]. split; [reflexivity|].
    split; [vm_compute; reflexivity|]. split; [vm_compute; reflexivity|].
    apply (reaches_turn SHA256.sha256 [ex_truncated] (mkU8 0 0 37) 0 38 [] ([], mkU8 0 37 0)).
    + constructor.
    + reflexivity.
    + vm_compute. reflexivity.
  - split; vm_compute; reflexivity.
Qed.

(** C4 fails as stated: a name of 256 bytes is encoded without an error,
    with a name_len field of 0. *)
Lemma C4_counterexample :
  Z.of_nat (length (utfEncode (replicate 256 0x61))) = 256
  /\ minipackEncode SHA256.sha256 ex_long_name_files ex_store
     = Ok (mkU8 1 0 296,
           ex_store ++ [archive_layout SHA256.sha256 ex_store ex_long_name_files])
  /\ header_name_len (archive_layout SHA256.sha256 ex_store ex_long_name_files) 0 = 0.
Proof.
  split; [vm_compute; reflexivity|]. split; vm_compute; reflexivity.
Qed.

(** C7 fails as stated: the archive of ("a.txt", three bytes) has 45
    bytes, not 41. *)
Lemma C7_counterexample :
  minipackEncode SHA256.sha256 ex_files ex_store
  = Ok (mkU8 1 0 45, ex_store ++ [archive_layout SHA256.sha256 ex_store ex_files])
  /\ length (archive_layout SHA256.sha256 ex_store ex_files) = 45%nat
  /\ byteLength (mkU8 1 0 45) <> 32 + 1 + 4 + 1 + 3.
Proof.
  split; [vm_compute; reflexivity|]. split; [vm_compute; reflexivity|].
  cbn [byteLength]. lia.
Qed.

(** C5 fails as stated: minipackEncode accepts a name of 256 bytes and
    stores 0 as its length, so that minipackDecode reads the name bytes as
    the body and the stored body as a second record.  With the body
    [ex_c5_body], changing the byte 11 of the stored body (position
    37 + 256 + 11 = 304 of the archive) from 0x78 to 0xF8 makes
    minipackDecode return two entries and no error. *)
Lemma C5_counterexample :
  utfEncode ex_c5_name = ex_c5_body
  /\ length ex_c5_body = 256%nat
  /\ minipackEncode SHA256.sha256 ex_c5_files ex_c5_store
     = Ok (mkU8 1 0 549,
           ex_c5_store ++ [archive_layout SHA256.sha256 ex_c5_store ex_c5_files])
  /\ archive_layout SHA256.sha256 ex_c5_store ex_c5_files !! 304%nat = Some x78
  /\ xf8 <> x78
  /\ minipackDecode SHA256.sha256
       [<[304%nat := xf8]> (archive_layout SHA256.sha256 ex_c5_store ex_c5_files)]
       (mkU8 0 0 549)
     = Some (Ok [([], mkU8 0 37 256); (replicate 100 0x6E, mkU8 0 430 119)]).
Proof.
  split; [vm_compute; reflexivity|]. split; [vm_compute; reflexivity|].
  split; [vm_compute; reflexivity|]. split; [vm_compute; reflexivity|].
  split; [discriminate|]. vm_compute. reflexivity.
Qed.

(** Why the digest of a changed body is asked to differ: a function that
    meets all that is assumed of the digest here, an output of 32 bytes,
    can give two bodies the same digest, and a change of the body is then
    not seen. *)
Example constant_digest_misses_a_change :
  let digest := fun _ : list byte => replicate 32 x00 in
  minipackEncode digest ex_files ex_store
  = Ok (mkU8 1 0 45, ex_store ++ [archive_layout digest ex_store ex_files])
  /\ archive_layout digest ex_store ex_files !! 42%nat = Some x01
  /\ minipackDecode digest [<[42%nat := xff]> (archive_layout digest ex_store ex_files)]
       (mkU8 0 0 45)
     = Some (Ok [(str "a.txt", mkU8 0 42 3)]).
Proof. repeat split; vm_compute; reflexivity. Qed.

Lemma C1_witness :
  (files_ok ex_store ex_files = true
   /\ forallb entry_in_range ex_files = true
   /\ forallb (fun f => well_formed (fst f) && negb (starts_with_bom (fst f))) ex_files = true)
  /\ exists (a : Uint8Array) (h' : heap) (result : list FileInit),
      minipackEncode SHA256.sha256 ex_files ex_store = Ok (a, h')
      /\ minipackDecode SHA256.sha256 h' a = Some (Ok result)
      /\ contents h' result = contents ex_store ex_files.
Proof.
  split.
  - repeat split; reflexivity.
  - apply (C1_round_trip SHA256.sha256 sha256_length ex_store ex_files); reflexivity.
Defined.

Lemma C2_witness :
  (loop_reaches SHA256.sha256 [ex_bad_digest] (mkU8 0 0 37) 0 []
   /\ 0 < byteLength (mkU8 0 0 37)
   /\ read_record [ex_bad_digest] (mkU8 0 0 37) 0 = Ok (mkU8 0 0 32, [], mkU8 0 37 0, 37)
   /\ u8_bytes [ex_bad_digest] (mkU8 0 0 32)
      <> SHA256.sha256 (u8_bytes [ex_bad_digest] (mkU8 0 37 0)))
  /\ minipackDecode SHA256.sha256 [ex_bad_digest] (mkU8 0 0 37) = Some (Throw Error).
Proof.
  assert (Hne : u8_bytes [ex_bad_digest] (mkU8 0 0 32)
                <> SHA256.sha256 (u8_bytes [ex_bad_digest] (mkU8 0 37 0)))
    by (vm_compute; discriminate).
  split.
  - split; [constructor|]. split; [reflexivity|]. split; [reflexivity | exact Hne].
  - destruct (C2_digest_mismatch_throws SHA256.sha256 [ex_bad_digest] (mkU8 0 0 37))
      as [Hthrow _].
    apply (Hthrow 0 37 [] (mkU8 0 0 32) (mkU8 0 37 0) []).
    + constructor.
    + reflexivity.
    + reflexivity.
    + exact Hne.
Defined.

Lemma C3_witness :
  ([ex_truncated] !! buffer (mkU8 0 0 37) = Some ex_truncated
   /\ whole_buffer [ex_truncated] (mkU8 0 0 37) = true)
  /\ exists view : Uint8Array,
      u8_bytes [ex_truncated] view = []
      /\ loop_reaches SHA256.sha256 [ex_truncated] (mkU8 0 0 37) 38 [([], view)].
Proof.
  split; [split; reflexivity|].
  destruct (C3_decode_bounds SHA256.sha256 [ex_truncated] (mkU8 0 0 37) ex_truncated
              eq_refl eq_refl) as (_ & Hturn & _).
  destruct (Hturn 0 [] (reaches_start SHA256.sha256 _ _) ltac:(cbn; lia)) as [Hmatch _].
  exact (Hmatch ltac:(vm_compute; reflexivity)).
Defined.

Lemma C4_witness :
  files_ok ex_store ex_long_name_files = true
  /\ exists a : Uint8Array,
      minipackEncode SHA256.sha256 ex_long_name_files ex_store
      = Ok (a, ex_store ++ [archive_layout SHA256.sha256 ex_store ex_long_name_files])
      /\ Forall (fun f =>
                   let r := record_layout SHA256.sha256 ex_store f in
                   let name := utfEncode (fst f) in
                   header_name_len r 0 = Z.of_nat (length name) mod 2 ^ 8
                   /\ header_body_len r 0 = byteLength (snd f) mod 2 ^ 32
                   /\ slice r 37 (Z.of_nat (length name)) = name
                   /\ slice r (37 + Z.of_nat (length name)) (byteLength (snd f))
                      = u8_bytes ex_store (snd f))
                ex_long_name_files.
Proof.
  split; [reflexivity|].
  apply (C4_length_fields_wrap SHA256.sha256 sha256_length ex_store ex_long_name_files).
  reflexivity.
Defined.

Lemma C5_witness :
  (files_ok ex_store ([] ++ (str "a.txt", ex_body) :: []) = true
   /\ forallb entry_in_range ([] ++ [(str "a.txt", ex_body)]) = true
   /\ minipackEncode SHA256.sha256 ([] ++ (str "a.txt", ex_body) :: []) ex_store
      = Ok (mkU8 1 0 45, ex_store ++ [archive_layout SHA256.sha256 ex_store ex_files])
   /\ u8_bytes (ex_store ++ [archive_layout SHA256.sha256 ex_store ex_files]) (mkU8 1 0 45)
        !! 42%nat = Some x01
   /\ xff <> x01
   /\ SHA256.sha256 (<[0%nat := xff]> (u8_bytes ex_store ex_body))
      <> SHA256.sha256 (u8_bytes ex_store ex_body))
  /\ exists result : list FileInit,
      loop_reaches SHA256.sha256
        [<[42%nat := xff]> (archive_layout SHA256.sha256 ex_store ex_files)]
        (mkU8 0 0 45) 0 result
      /\ contents [<[42%nat := xff]> (archive_layout SHA256.sha256 ex_store ex_files)] result
         = []
      /\ decode_record SHA256.sha256
           [<[42%nat := xff]> (archive_layout SHA256.sha256 ex_store ex_files)]
           (mkU8 0 0 45) 0 = Throw Error
      /\ minipackDecode SHA256.sha256
           [<[42%nat := xff]> (archive_layout SHA256.sha256 ex_store ex_files)]
           (mkU8 0 0 45) = Some (Throw Error).
Proof.
  assert (Hne : SHA256.sha256 (<[0%nat := xff]> (u8_bytes ex_store ex_body))
                <> SHA256.sha256 (u8_bytes ex_store ex_body))
    by (vm_compute; discriminate).
  split.
  - split; [reflexivity|]. split; [reflexivity|]. split; [vm_compute; reflexivity|].
    split; [vm_compute; reflexivity|]. split; [discriminate | exact Hne].
  - apply (C5_tamper_detected SHA256.sha256 sha256_length ex_store [] []
             (str "a.txt", ex_body) (mkU8 1 0 45)
             (ex_store ++ [archive_layout SHA256.sha256 ex_store ex_files])
             42%nat x01 xff
             [<[42%nat := xff]> (archive_layout SHA256.sha256 ex_store ex_files)]
             (mkU8 0 0 45)).
    + reflexivity.
    + reflexivity.
    + vm_compute. reflexivity.
    + vm_compute. reflexivity.
    + discriminate.
    + vm_compute. reflexivity.
    + vm_compute. reflexivity.
    + right. exists 0%nat. split; [vm_compute; reflexivity|].
      split; [vm_compute; lia | exact Hne].
Defined.

Lemma C6_witness :
  files_ok ex_store ex_files = true
  /\ exists (a : Uint8Array) (h' : heap),
      minipackEncode SHA256.sha256 ex_files ex_store = Ok (a, h')
      /\ byteLength a
         = fold_right Z.add 0
             (map (fun f => 32 + 1 + 4 + Z.of_nat (length (utfEncode (fst f)))
                            + byteLength (snd f)) ex_files)
      /\ Z.of_nat (length (u8_bytes h' a)) = byteLength a.
Proof.
  split; [reflexivity|].
  apply (C6_archive_length SHA256.sha256 sha256_length ex_store ex_files). reflexivity.
Defined.

Lemma C7_witness :
  (view_ok ex_store ex_body = true /\ byteLength ex_body = 3)
  /\ exists (a : Uint8Array) (h' : heap) (result : list FileInit),
      minipackEncode SHA256.sha256 [(str "a.txt", ex_body)] ex_store = Ok (a, h')
      /\ byteLength a = 32 + 1 + 4 + 5 + 3
      /\ minipackDecode SHA256.sha256 h' a = Some (Ok result)
      /\ contents h' result = [(str "a.txt", u8_bytes ex_store ex_body)].
Proof.
  split; [split; reflexivity|].
  apply (C7_single_entry SHA256.sha256 sha256_length ex_store ex_body); reflexivity.
Defined.

Lemma C9_witness :
  files_ok ex_store ex_files = true
  /\ exists (a : Uint8Array) (out : list byte),
      minipackEncode SHA256.sha256 ex_files ex_store = Ok (a, ex_store ++ [out])
      /\ buffer a = length ex_store
      /\ (forall (id : nat) (bs : list byte),
             ex_store !! id = Some bs -> (ex_store ++ [out]) !! id = Some bs)
      /\ Forall (fun f => view_ok (ex_store ++ [out]) (snd f) = true
                          /\ u8_bytes (ex_store ++ [out]) (snd f)
                             = u8_bytes ex_store (snd f)) ex_files.
Proof.
  split; [reflexivity|].
  apply (C9_encode_frame SHA256.sha256 sha256_length ex_store ex_files). reflexivity.
Defined.

Lemma C10_witness :
  minipackDecode SHA256.sha256 [ex_truncated] (mkU8 0 0 37) = Some (Ok [([], mkU8 0 37 0)])
  /\ decode_loop SHA256.sha256 5 [ex_truncated] (mkU8 0 0 37) 0 []
     = Some (Ok [([], mkU8 0 37 0)])
  /\ 0 + 37 <= 38.
Proof.
  destruct (C10_decode_terminates SHA256.sha256 [ex_truncated] (mkU8 0 0 37))
    as [(r & Hr & Hfuel) Hadv].
  assert (Er : r = Ok [([], mkU8 0 37 0)]).
  { assert (E : minipackDecode SHA256.sha256 [ex_truncated] (mkU8 0 0 37)
                = Some (Ok [([], mkU8 0 37 0)])) by (vm_compute; reflexivity).
    rewrite E in Hr. injection Hr as <-. reflexivity. }
  subst r. split; [exact Hr|]. split.
  - apply Hfuel. vm_compute. lia.
  - apply (Hadv 0 38 ([], mkU8 0 37 0)). vm_compute. reflexivity.
Defined.

(** * More of the sources: properties *)

(** ** Hexadecimal text *)

Section HexDecodeFacts.

(** Comparisons of code units, decided one after the other. *)
Ltac decide_units :=
  repeat match goal with
         | |- context [Z.eqb ?a ?b] => destruct (Z.eqb_spec a b); try lia
         | |- context [Z.leb ?a ?b] => destruct (Z.leb_spec a b); try lia
         | |- context [Z.ltb ?a ?b] => destruct (Z.ltb_spec a b); try lia
         end.

Lemma str_app (a b : string) : str (a ++ b) = str a ++ str b.
Proof.
  unfold str. induction a as [|c a IH]; [reflexivity|].
  cbn [append list_ascii_of_string map app]. f_equal. exact IH.
Qed.

Lemma is_hex_digit_spec (c : Z) :
  is_hex_digit c = true <->
  (0x30 <= c <= 0x39) \/ (0x41 <= c <= 0x46) \/ (0x61 <= c <= 0x66).
Proof.
  unfold is_hex_digit, in_range.
  rewrite !orb_true_iff, !andb_true_iff, !Z.leb_le. tauto.
Qed.

Lemma is_hex_digit_value (c : Z) :
  is_hex_digit c = true ->
  exists d, digit_value c = Some d /\ 0 <= d < 16
            /\ upper_digit_unit d = upper_unit c /\ is_trimmed_away c = false.
Proof.
  intros H. apply is_hex_digit_spec in H.
  unfold digit_value, upper_digit_unit, upper_unit, is_trimmed_away, is_white_space,
    is_line_terminator, in_range.
  destruct H as [H | [H | H]].
  - exists (c - 0x30). decide_units. cbn. repeat split; lia.
  - exists (c - 0x41 + 10). decide_units. cbn. repeat split; lia.
  - exists (c - 0x61 + 10). decide_units. cbn. repeat split; lia.
Qed.

Lemma upper_digit_unit_hex (d : Z) :
  0 <= d < 16 ->
  is_hex_digit (upper_digit_unit d) = true
  /\ digit_value (upper_digit_unit d) = Some d
  /\ upper_unit (upper_digit_unit d) = upper_digit_unit d
  /\ (in_range 0x30 0x39 (upper_digit_unit d) || in_range 0x41 0x46 (upper_digit_unit d)) = true.
Proof.
  intros H. unfold is_hex_digit, digit_value, upper_unit, upper_digit_unit, in_range.
  destruct (Z.ltb_spec d 10); decide_units; cbn; repeat split; try reflexivity; f_equal; lia.
Qed.

Lemma lower_digit_unit_hex (d : Z) :
  0 <= d < 16 ->
  is_hex_digit (lower_digit_unit d) = true
  /\ digit_value (lower_digit_unit d) = Some d
  /\ upper_unit (lower_digit_unit d) = upper_digit_unit d.
Proof.
  intros H. unfold is_hex_digit, digit_value, upper_unit, lower_digit_unit, upper_digit_unit,
    in_range.
  destruct (Z.ltb_spec d 10); decide_units; cbn; repeat split; try reflexivity;
    try f_equal; lia.
Qed.

(** The two characters [pad0] and [textPadZero] write for a byte. *)
Lemma pad0_byte_units (b : byte) :
  str (pad0 (Z_of_byte b) (Some 2) (Some 16))
  = [upper_digit_unit (Z_of_byte b / 16); upper_digit_unit (Z_of_byte b mod 16)].
Proof. destruct b; reflexivity. Qed.

Lemma textPadZero_byte_units (b : byte) :
  str (textPadZero (Z_of_byte b) (Some 2) (Some 16))
  = [lower_digit_unit (Z_of_byte b / 16); lower_digit_unit (Z_of_byte b mod 16)].
Proof. destruct b; reflexivity. Qed.

Lemma textHexEncode_cons (b : byte) (bs : list byte) :
  textHexEncode (b :: bs)
  = (textPadZero (Z_of_byte b) (Some 2) (Some 16) ++ textHexEncode bs)%string.
Proof.
  unfold textHexEncode. cbn [map String.concat].
  destruct bs as [|b' bs]; cbn [map String.concat].
  - rewrite string_app_nil_r. reflexivity.
  - reflexivity.
Qed.

Lemma hex_pairs_pair (c1 c2 : Z) (rest : js_string) :
  is_hex_digit c1 = true -> is_hex_digit c2 = true ->
  hex_pairs (c1 :: c2 :: rest) = [c1; c2] :: hex_pairs rest.
Proof. intros H1 H2. cbn [hex_pairs]. rewrite H1, H2. reflexivity. Qed.

Lemma hex_pairs_skip (c1 c2 : Z) (rest : js_string) :
  is_hex_digit c1 && is_hex_digit c2 = false ->
  hex_pairs (c1 :: c2 :: rest) = hex_pairs (c2 :: rest).
Proof. intros E. cbn [hex_pairs]. rewrite E. reflexivity. Qed.

(** What the two conversions make of a match. *)
Lemma Number_0x_pair (c1 c2 d1 d2 : Z) :
  is_hex_digit c1 = true -> is_hex_digit c2 = true ->
  digit_value c1 = Some d1 -> digit_value c2 = Some d2 ->
  Number_0x [c1; c2] = Some (d1 * 16 + d2).
Proof.
  intros H1 H2 E1 E2.
  destruct (is_hex_digit_value c2 H2) as (d & _ & _ & _ & Hw).
  unfold Number_0x. cbn [rev app drop_while]. rewrite Hw. cbn [rev app forallb map].
  rewrite H1, H2, E1, E2. reflexivity.
Qed.

Lemma parseInt_pair (c1 c2 d1 d2 : Z) :
  is_hex_digit c1 = true -> is_hex_digit c2 = true ->
  digit_value c1 = Some d1 -> digit_value c2 = Some d2 ->
  parseInt [c1; c2] 16 = Some (d1 * 16 + d2).
Proof.
  intros H1 H2 E1 E2.
  destruct (is_hex_digit_value c1 H1) as (e1 & E1' & Hd1 & _ & Hw).
  destruct (is_hex_digit_value c2 H2) as (e2 & E2' & Hd2 & _ & _).
  assert (e1 = d1) by congruence. assert (e2 = d2) by congruence. subst e1 e2.
  apply is_hex_digit_spec in H1. apply is_hex_digit_spec in H2.
  unfold parseInt. cbn [Z.ltb Z.compare Pos.compare Pos.compare_cont orb drop_while].
  rewrite Hw.
  destruct (Z.eqb_spec c1 0x2D); [lia|]. destruct (Z.eqb_spec c1 0x2B); [lia|].
  destruct (Z.eqb_spec c2 0x78); [lia|]. destruct (Z.eqb_spec c2 0x58); [lia|].
  cbn [orb]. rewrite andb_false_r.
  cbn [leading_digits]. rewrite E1, E2.
  destruct (Z.ltb_spec d1 16); [|lia]. destruct (Z.ltb_spec d2 16); [|lia].
  unfold digits_number. cbn [fold_left]. f_equal. lia.
Qed.

Lemma hexDecode_pairs (s : js_string) :
  hexDecode s = map uint8_of_number (map Number_0x (hex_pairs s)).
Proof.
  unfold hexDecode, match_hex_pairs. destruct (hex_pairs s); reflexivity.
Qed.

Lemma textHexDecode_pairs (s : js_string) :
  textHexDecode s = map uint8_of_number (map (fun v => parseInt v 16) (hex_pairs s)).
Proof.
  unfold textHexDecode, match_hex_pairs. destruct (hex_pairs s); reflexivity.
Qed.

(** Every match is two hexadecimal digits. *)
Lemma hex_pairs_matches (n : nat) :
  forall s : js_string,
    (length s <= n)%nat ->
    Forall (fun m => exists c1 c2, m = [c1; c2] /\ is_hex_digit c1 = true
                                   /\ is_hex_digit c2 = true)
           (hex_pairs s).
Proof.
  induction n as [|n IH]; intros s Hn.
  - destruct s; [constructor | cbn in Hn; lia].
  - destruct s as [|c1 [|c2 rest]]; try constructor.
    cbn [length] in Hn.
    destruct (is_hex_digit c1 && is_hex_digit c2) eqn:E.
    + apply andb_prop in E as [E1 E2]. rewrite hex_pairs_pair by assumption.
      constructor; [eauto|]. apply IH. lia.
    + rewrite hex_pairs_skip by assumption. apply IH. cbn [length]. lia.
Qed.

Lemma hexDecode_cons_pair (c1 c2 d1 d2 : Z) (rest : js_string) :
  is_hex_digit c1 = true -> is_hex_digit c2 = true ->
  digit_value c1 = Some d1 -> digit_value c2 = Some d2 ->
  hexDecode (c1 :: c2 :: rest) = byte_of_Z (d1 * 16 + d2) :: hexDecode rest.
Proof.
  intros H1 H2 E1 E2. rewrite !hexDecode_pairs, hex_pairs_pair by assumption.
  cbn [map]. rewrite (Number_0x_pair c1 c2 d1 d2) by assumption. reflexivity.
Qed.

End HexDecodeFacts.

Section HexTheorems.

Lemma hexEncode_units (bs : list byte) :
  str (hexEncode bs)
  = flat_map (fun b => [upper_digit_unit (Z_of_byte b / 16);
                        upper_digit_unit (Z_of_byte b mod 16)]) bs.
Proof.
  induction bs as [|b bs IH]; [reflexivity|].
  rewrite hexEncode_cons, str_app, pad0_byte_units, IH. reflexivity.
Qed.

Lemma textHexEncode_units (bs : list byte) :
  str (textHexEncode bs)
  = flat_map (fun b => [lower_digit_unit (Z_of_byte b / 16);
                        lower_digit_unit (Z_of_byte b mod 16)]) bs.
Proof.
  induction bs as [|b bs IH]; [reflexivity|].
  rewrite textHexEncode_cons, str_app, textPadZero_byte_units, IH. reflexivity.
Qed.

Lemma Z_of_byte_nibbles (b : byte) :
  0 <= Z_of_byte b / 16 < 16 /\ 0 <= Z_of_byte b mod 16 < 16
  /\ byte_of_Z (Z_of_byte b / 16 * 16 + Z_of_byte b mod 16) = b.
Proof.
  pose proof (Z_of_byte_range b) as R.
  repeat split; try (Z.div_mod_to_equations; lia).
  replace (Z_of_byte b / 16 * 16 + Z_of_byte b mod 16) with (Z_of_byte b)
    by (Z.div_mod_to_equations; lia).
  apply byte_of_Z_of_byte.
Qed.

(** X1: [hexDecode] undoes [hexEncode] on every byte sequence. *)
Theorem X1_hexDecode_hexEncode (bs : list byte) :
  hexDecode (str (hexEncode bs)) = bs.
Proof.
  rewrite hexEncode_units.
  induction bs as [|b bs IH]; [reflexivity|].
  cbn [flat_map app].
  destruct (Z_of_byte_nibbles b) as (Hh & Hl & Hb).
  destruct (upper_digit_unit_hex _ Hh) as (Dh & Vh & _).
  destruct (upper_digit_unit_hex _ Hl) as (Dl & Vl & _).
  rewrite (hexDecode_cons_pair _ _ _ _ _ Dh Dl Vh Vl), IH, Hb. reflexivity.
Qed.

(** X2: the text [hexEncode] returns has two characters for each byte,
    all of them among [0-9] and [A-F]. *)
Theorem X2_hexEncode_shape (bs : list byte) :
  length (str (hexEncode bs)) = (2 * length bs)%nat
  /\ Forall (fun c => in_range 0x30 0x39 c || in_range 0x41 0x46 c = true)
            (str (hexEncode bs)).
Proof.
  rewrite hexEncode_units. induction bs as [|b bs [IHl IHf]]; [split; [reflexivity | constructor]|].
  cbn [flat_map app length].
  destruct (Z_of_byte_nibbles b) as (Hh & Hl & _).
  destruct (upper_digit_unit_hex _ Hh) as (_ & _ & _ & Rh).
  destruct (upper_digit_unit_hex _ Hl) as (_ & _ & _ & Rl).
  split; [rewrite IHl; lia|]. repeat constructor; assumption.
Qed.

Lemma hex_pairs_split (n : nat) :
  forall (s1 s2 : js_string) (c : Z),
    (length s1 <= n)%nat -> is_hex_digit c = false ->
    hex_pairs (s1 ++ c :: s2) = hex_pairs s1 ++ hex_pairs s2.
Proof.
  induction n as [|n IH]; intros s1 s2 c Hn Hc.
  - destruct s1; [|cbn in Hn; lia]. cbn [app].
    destruct s2 as [|c2 rest]; [reflexivity|].
    rewrite hex_pairs_skip by (rewrite Hc; reflexivity). reflexivity.
  - destruct s1 as [|a [|b r]].
    + apply (IH [] s2 c); [cbn; lia | assumption].
    + cbn [app]. rewrite hex_pairs_skip by (rewrite Hc; apply andb_false_r).
      apply (IH [] s2 c); [cbn; lia | assumption].
    + cbn [length] in Hn. cbn [app].
      destruct (is_hex_digit a && is_hex_digit b) eqn:E.
      * apply andb_prop in E as [Ea Eb]. rewrite !hex_pairs_pair by assumption.
        cbn [app]. f_equal. apply IH; [lia | assumption].
      * rewrite !hex_pairs_skip by assumption.
        apply (IH (b :: r) s2 c); [cbn [length]; lia | assumption].
Qed.

(** X3: a character that is no hexadecimal digit separates the text:
    [hexDecode] of the whole is [hexDecode] of what is before it followed
    by [hexDecode] of what is after it, and the character itself gives no
    byte and no error. *)
Theorem X3_hexDecode_separator (s1 s2 : js_string) (c : Z) :
  is_hex_digit c = false ->
  hexDecode (s1 ++ c :: s2) = hexDecode s1 ++ hexDecode s2.
Proof.
  intros Hc. rewrite !hexDecode_pairs, (hex_pairs_split (length s1)) by (assumption || lia).
  rewrite !List.map_app. reflexivity.
Qed.

(** A text of hexadecimal digits only, cut in pairs from the left. *)
Lemma hexDecode_digits (n : nat) :
  forall s : js_string,
    (length s <= n)%nat -> Forall (fun c => is_hex_digit c = true) s ->
    str (hexEncode (hexDecode s)) = map upper_unit (take (length s / 2 * 2) s).
Proof.
  induction n as [|n IH]; intros s Hn Hs.
  - destruct s; [reflexivity | cbn in Hn; lia].
  - destruct s as [|c1 [|c2 rest]]; [reflexivity | reflexivity |].
    cbn [length] in Hn.
    apply Forall_cons in Hs as [H1 Hs]. apply Forall_cons in Hs as [H2 Hs].
    destruct (is_hex_digit_value c1 H1) as (d1 & E1 & R1 & U1 & _).
    destruct (is_hex_digit_value c2 H2) as (d2 & E2 & R2 & U2 & _).
    rewrite (hexDecode_cons_pair c1 c2 d1 d2) by assumption.
    rewrite hexEncode_cons, str_app, pad0_byte_units, IH by (assumption || lia).
    rewrite Z_of_byte_of_Z_small by lia.
    replace ((d1 * 16 + d2) / 16) with d1 by (Z.div_mod_to_equations; lia).
    replace ((d1 * 16 + d2) mod 16) with d2 by (Z.div_mod_to_equations; lia).
    rewrite U1, U2.
    replace (length (c1 :: c2 :: rest) / 2 * 2)%nat with (S (S (length rest / 2 * 2))).
    + reflexivity.
    + cbn [length].
      change (S (S (length rest))) with (1 * 2 + length rest)%nat.
      rewrite Nat.div_add_l by lia. lia.
Qed.

(** X4: on a text made of an even number of hexadecimal digits,
    [hexEncode] after [hexDecode] gives the text back in upper case. *)
Theorem X4_hexEncode_hexDecode (s : js_string) :
  Forall (fun c => is_hex_digit c = true) s ->
  Nat.Even (length s) ->
  str (hexEncode (hexDecode s)) = map upper_unit s.
Proof.
  intros Hs [k Hk]. rewrite (hexDecode_digits (length s)) by (assumption || lia).
  replace (length s / 2 * 2)%nat with (length s).
  - rewrite firstn_all. reflexivity.
  - rewrite Hk, Nat.mul_comm, Nat.div_mul by lia. lia.
Qed.

(** X5: a text of hexadecimal digits of odd length loses its last digit:
    [hexDecode] returns the bytes of the text without it, and raises no
    error. *)
Theorem X5_hexDecode_odd_length (s : js_string) (c : Z) :
  Forall (fun c => is_hex_digit c = true) s ->
  Nat.Even (length s) ->
  hexDecode (s ++ [c]) = hexDecode s.
Proof.
  intros Hs [k Hk]. revert s Hs Hk. induction k as [|k IH]; intros s Hs Hk.
  - destruct s; [reflexivity | cbn in Hk; lia].
  - destruct s as [|c1 [|c2 rest]]; [cbn in Hk; lia | cbn in Hk; lia |].
    apply Forall_cons in Hs as [H1 Hs]. apply Forall_cons in Hs as [H2 Hs].
    destruct (is_hex_digit_value c1 H1) as (d1 & E1 & _).
    destruct (is_hex_digit_value c2 H2) as (d2 & E2 & _).
    cbn [app]. rewrite !(hexDecode_cons_pair c1 c2 d1 d2) by assumption.
    f_equal. apply IH; [assumption | cbn [length] in Hk; lia].
Qed.

(** X6: the earlier [textHexDecode], which reads a pair with
    [parseInt(v, 16)], and [hexDecode], which reads it with
    [Number(`0x${s}`)], return the same bytes on every string. *)
Theorem X6_textHexDecode_hexDecode (s : js_string) :
  textHexDecode s = hexDecode s.
Proof.
  rewrite textHexDecode_pairs, hexDecode_pairs. f_equal.
  pose proof (hex_pairs_matches (length s) s (le_n _)) as H.
  induction H as [|m ms (c1 & c2 & -> & H1 & H2) _ IH]; [reflexivity|].
  cbn [map]. rewrite IH. f_equal.
  destruct (is_hex_digit_value c1 H1) as (d1 & E1 & _).
  destruct (is_hex_digit_value c2 H2) as (d2 & E2 & _).
  rewrite (parseInt_pair c1 c2 d1 d2), (Number_0x_pair c1 c2 d1 d2) by assumption.
  reflexivity.
Qed.

(** X7: the earlier [textHexEncode] writes the digits in lower case:
    [hexEncode] gives the same text in upper case, and [textHexDecode]
    undoes [textHexEncode]. *)
Theorem X7_textHexEncode (bs : list byte) :
  str (hexEncode bs) = map upper_unit (str (textHexEncode bs))
  /\ textHexDecode (str (textHexEncode bs)) = bs.
Proof.
  rewrite hexEncode_units, textHexEncode_units. split.
  - induction bs as [|b bs IH]; [reflexivity|].
    cbn [flat_map app map]. rewrite <- IH.
    destruct (Z_of_byte_nibbles b) as (Hh & Hl & _).
    destruct (lower_digit_unit_hex _ Hh) as (_ & _ & ->).
    destruct (lower_digit_unit_hex _ Hl) as (_ & _ & ->). reflexivity.
  - rewrite textHexDecode_pairs.
    induction bs as [|b bs IH]; [reflexivity|].
    cbn [flat_map app].
    destruct (Z_of_byte_nibbles b) as (Hh & Hl & Hb).
    destruct (lower_digit_unit_hex _ Hh) as (Dh & Vh & _).
    destruct (lower_digit_unit_hex _ Hl) as (Dl & Vl & _).
    rewrite hex_pairs_pair by assumption. cbn [map].
    rewrite (parseInt_pair _ _ _ _ Dh Dl Vh Vl), IH.
    unfold uint8_of_number. cbn [default from_option id]. rewrite Hb. reflexivity.
Qed.

End HexTheorems.

(** ** [pad0] and [textPadZero] *)

Section PadFacts.

Ltac decide_units :=
  repeat match goal with
         | |- context [Z.eqb ?a ?b] => destruct (Z.eqb_spec a b); try lia
         | |- context [Z.leb ?a ?b] => destruct (Z.leb_spec a b); try lia
         | |- context [Z.ltb ?a ?b] => destruct (Z.ltb_spec a b); try lia
         end.

Lemma str_length (s : string) : length (str s) = String.length s.
Proof.
  unfold str. rewrite length_map. induction s as [|c s IH]; [reflexivity|].
  cbn. f_equal. exact IH.
Qed.

Lemma str_String (c : ascii) (s : string) :
  str (String c s) = Z.of_nat (nat_of_ascii c) :: str s.
Proof. reflexivity. Qed.

Lemma ascii_upper_unit (c : ascii) :
  Z.of_nat (nat_of_ascii (ascii_upper c)) = upper_unit (Z.of_nat (nat_of_ascii c)).
Proof. destruct c as [[] [] [] [] [] [] [] []]; reflexivity. Qed.

Lemma str_toUpperCase (s : string) : str (toUpperCase s) = map upper_unit (str s).
Proof.
  induction s as [|c s IH]; [reflexivity|].
  cbn [toUpperCase]. rewrite !str_String. cbn [map].
  rewrite ascii_upper_unit, IH. reflexivity.
Qed.

Lemma length_toUpperCase (s : string) : String.length (toUpperCase s) = String.length s.
Proof. induction s as [|c s IH]; [reflexivity|]. cbn. f_equal. exact IH. Qed.

Lemma str_repeat_char (c : ascii) (n : nat) :
  str (repeat_char c n) = replicate n (Z.of_nat (nat_of_ascii c)).
Proof. induction n as [|n IH]; [reflexivity|]. cbn [repeat_char replicate]. rewrite str_String, IH. reflexivity. Qed.

Lemma str_padStart0 (s : string) (target : Z) :
  str (padStart0 s target) = replicate (Z.to_nat target - length (str s)) 0x30 ++ str s.
Proof.
  unfold padStart0. rewrite str_app, str_repeat_char, str_length. reflexivity.
Qed.

Lemma digit_char_unit (d : Z) :
  0 <= d < 36 -> Z.of_nat (nat_of_ascii (digit_char d)) = lower_digit_unit d.
Proof.
  intros H. rewrite <- (Z2Nat.id d) by lia.
  assert (Hk : (Z.to_nat d < 36)%nat) by lia. revert Hk.
  generalize (Z.to_nat d) as k. intros k Hk.
  do 36 (destruct k as [|k]; [reflexivity|]). lia.
Qed.

Lemma digit_units_value (d : Z) :
  0 <= d < 36 ->
  digit_value (lower_digit_unit d) = Some d
  /\ digit_value (upper_digit_unit d) = Some d
  /\ upper_unit (lower_digit_unit d) = upper_digit_unit d.
Proof.
  intros H. unfold digit_value, upper_unit, lower_digit_unit, upper_digit_unit, in_range.
  destruct (Z.ltb_spec d 10); decide_units; cbn; repeat split; try reflexivity; f_equal; lia.
Qed.

Lemma digits_number_app (r : Z) (ds : list Z) (d : Z) :
  digits_number r (ds ++ [d]) = digits_number r ds * r + d.
Proof. unfold digits_number. rewrite fold_left_app. reflexivity. Qed.

Lemma digits_number_zeros (r : Z) (k : nat) (ds : list Z) :
  digits_number r (replicate k 0 ++ ds) = digits_number r ds.
Proof.
  unfold digits_number. rewrite fold_left_app. f_equal.
  induction k as [|k IH]; [reflexivity|]. cbn [replicate fold_left].
  rewrite Z.mul_0_l, Z.add_0_r. exact IH.
Qed.

(** The digits [Number.prototype.toString] writes: they denote the number,
    each is below the radix, and [k] of them are enough for a number
    below [radix ^ k]. *)
Lemma digits_units (r : Z) (fuel : nat) :
  2 <= r <= 36 ->
  forall (n : Z) (acc : string),
    (0 < fuel)%nat ->
    0 <= n < 2 ^ Z.of_nat fuel ->
    exists ds,
      str (digits fuel n r acc) = map lower_digit_unit ds ++ str acc
      /\ ds <> []
      /\ Forall (fun d => 0 <= d < r) ds
      /\ digits_number r ds = n
      /\ (forall k, 0 < k -> n < r ^ k -> Z.of_nat (length ds) <= k).
Proof.
  intros Hr. induction fuel as [|fuel IH]; intros n acc Hf Hn; [lia|].
  cbn [digits].
    assert (Hm : 0 <= n mod r < r) by (apply Z.mod_pos_bound; lia).
    assert (Hq : 0 <= n / r) by (apply Z.div_pos; lia).
    destruct (Z.eqb_spec (n / r) 0) as [E | E].
    + exists [n mod r]. rewrite str_String, digit_char_unit by lia.
      repeat split.
      * discriminate.
      * repeat constructor; lia.
      * unfold digits_number. cbn [fold_left].
        pose proof (Z.div_mod n r ltac:(lia)). lia.
      * intros k Hk _. cbn [length]. lia.
    + assert (Hfuel : 0 <= n / r < 2 ^ Z.of_nat fuel).
      { split; [lia|]. apply Z.div_lt_upper_bound; [lia|].
        rewrite Nat2Z.inj_succ, Z.pow_succ_r in Hn by lia.
        assert (0 < 2 ^ Z.of_nat fuel) by (apply Z.pow_pos_nonneg; lia). nia. }
      assert (Hf' : (0 < fuel)%nat).
      { destruct fuel; [|lia]. change (2 ^ Z.of_nat 0) with 1 in Hfuel. lia. }
      destruct (IH (n / r) (String (digit_char (n mod r)) acc) Hf' Hfuel)
        as (ds & Hs & Hne & Hds & Hnum & Hlen).
      exists (ds ++ [n mod r]). repeat split.
      * rewrite Hs, str_String, digit_char_unit by lia.
        rewrite List.map_app, <- app_assoc. reflexivity.
      * destruct ds; discriminate.
      * apply Forall_app. split; [assumption | repeat constructor; lia].
      * rewrite digits_number_app, Hnum. pose proof (Z.div_mod n r ltac:(lia)). lia.
      * intros k Hk Hnk. rewrite length_app, Nat2Z.inj_add. cbn [length].
        assert (1 < k).
        { destruct (Z.eq_dec k 1) as [-> | ?]; [|lia].
          rewrite Z.pow_1_r in Hnk. rewrite Z.div_small in E by lia. congruence. }
        assert (Z.of_nat (length ds) <= k - 1); [|lia].
        apply Hlen; [lia|].
        apply Z.div_lt_upper_bound; [lia|].
        replace k with (Z.succ (k - 1)) in Hnk by lia.
        rewrite Z.pow_succ_r in Hnk by lia. lia.
Qed.

Lemma Number_toString_units (n r : Z) :
  0 <= n -> 2 <= r <= 36 ->
  exists ds,
    str (Number_toString n (Some r)) = map lower_digit_unit ds
    /\ ds <> []
    /\ Forall (fun d => 0 <= d < r) ds
    /\ digits_number r ds = n
    /\ (forall k, 0 < k -> n < r ^ k -> Z.of_nat (length ds) <= k).
Proof.
  intros Hn Hr. unfold Number_toString. cbn [default from_option id].
  destruct (digits_units r (S (Z.to_nat (Z.log2 n))) Hr n EmptyString) as (ds & Hs & H).
  - lia.
  - split; [assumption|].
    rewrite Nat2Z.inj_succ, Z2Nat.id by apply Z.log2_nonneg.
    destruct (Z.eq_dec n 0) as [-> | ?]; [reflexivity|].
    apply Z.log2_spec. lia.
  - exists ds. rewrite Hs, app_nil_r. auto.
Qed.

Lemma leading_digits_all (r : Z) (cs : js_string) (ds : list Z) :
  map digit_value cs = map Some ds ->
  Forall (fun d => 0 <= d < r) ds ->
  leading_digits r cs = ds.
Proof.
  revert ds. induction cs as [|c cs IH]; intros [|d ds] E Hds; try discriminate; [reflexivity|].
  cbn [map] in E. injection E as Ec E.
  apply Forall_cons in Hds as [Hd Hds].
  cbn [leading_digits]. rewrite Ec.
  destruct (Z.ltb_spec d r); [|lia]. f_equal. apply IH; assumption.
Qed.

(** [parseInt] on a text made of digits of the radix. *)
Lemma parseInt_digit_units (r : Z) (cs : js_string) (ds : list Z) :
  2 <= r <= 36 ->
  cs <> [] ->
  map digit_value cs = map Some ds ->
  Forall (fun d => 0 <= d < r) ds ->
  parseInt cs r = Some (digits_number r ds).
Proof.
  intros Hr Hne E Hds.
  pose proof (leading_digits_all r cs ds E Hds) as Hl.
  unfold parseInt.
  destruct (Z.ltb_spec r 2); [lia|]. destruct (Z.ltb_spec 36 r); [lia|]. cbn [orb].
  destruct cs as [|c0 cs]; [congruence|]. destruct ds as [|d0 ds]; [discriminate|].
  cbn [map] in E. injection E as E0 E.
  apply Forall_cons in Hds as [Hd0 Hds].
  assert (Hc0 : is_trimmed_away c0 = false /\ c0 <> 0x2D /\ c0 <> 0x2B).
  { revert E0. unfold digit_value, is_trimmed_away, is_white_space, is_line_terminator, in_range.
    decide_units; cbn; intros; try discriminate; repeat split; lia. }
  destruct Hc0 as (Hw & Hm & Hp).
  cbn [drop_while]. rewrite Hw.
  destruct (Z.eqb_spec c0 0x2D); [lia|]. destruct (Z.eqb_spec c0 0x2B); [lia|].
  assert (Hs3 : match cs with
                | cx :: s' =>
                    if (r =? 16) && (c0 =? 0x30) && ((cx =? 0x78) || (cx =? 0x58))
                    then s' else c0 :: cs
                | [] => c0 :: cs
                end = c0 :: cs).
  { destruct cs as [|cx cs']; [reflexivity|].
    destruct ds as [|d1 ds']; [discriminate|].
    cbn [map] in E. injection E as E1 _.
    apply Forall_cons in Hds as [Hd1 _].
    destruct (Z.eqb_spec r 16) as [-> | ?]; [|reflexivity].
    revert E1. unfold digit_value, in_range.
    decide_units; cbn; intros; try discriminate; try reflexivity;
      try rewrite andb_false_r; try reflexivity;
      exfalso; injection E1 as <-; lia. }
  rewrite Hs3, Hl. f_equal. lia.
Qed.

Lemma map_digit_value_upper (ds : list Z) (r : Z) :
  r <= 36 -> Forall (fun d => 0 <= d < r) ds ->
  map digit_value (map upper_unit (map lower_digit_unit ds)) = map Some ds.
Proof.
  intros Hr Hds. induction Hds as [|d ds Hd _ IH]; [reflexivity|].
  cbn [map]. rewrite IH.
  destruct (digit_units_value d ltac:(lia)) as (_ & Hu & ->). rewrite Hu. reflexivity.
Qed.

Lemma map_digit_value_zeros (k : nat) :
  map digit_value (replicate k 0x30) = map Some (replicate k 0).
Proof. induction k as [|k IH]; [reflexivity|]. cbn [replicate map]. rewrite IH. reflexivity. Qed.

(** X8: [pad0] never cuts a number short: for an integer from 0 up to
    2^53 and a radix from 2 to 36, the text has at least [digit]
    characters, and [parseInt] with the same radix reads the number back
    from it. *)
Theorem X8_pad0_read_back (n digit radix : Z) :
  0 <= n < 2 ^ 53 ->
  2 <= radix <= 36 ->
  digit <= Z.of_nat (length (str (pad0 n (Some digit) (Some radix))))
  /\ parseInt (str (pad0 n (Some digit) (Some radix))) radix = Some n.
Proof.
  intros Hn Hr. unfold pad0. cbn [default from_option id].
  rewrite str_padStart0, str_toUpperCase.
  destruct (Number_toString_units n radix ltac:(lia) Hr) as (ds & -> & Hne & Hds & Hnum & _).
  split.
  - rewrite length_app, length_replicate, !length_map. lia.
  - rewrite (parseInt_digit_units radix _
               (replicate (Z.to_nat digit - length (map upper_unit (map lower_digit_unit ds))) 0
                ++ ds) Hr).
    + rewrite digits_number_zeros, Hnum. reflexivity.
    + destruct ds; [congruence|]. cbn [map]. intros E. apply app_eq_nil in E as [_ E]. discriminate.
    + rewrite !List.map_app, map_digit_value_zeros, (map_digit_value_upper ds radix) by (lia || assumption).
      reflexivity.
    + apply Forall_app. split; [|assumption].
      apply Forall_replicate. lia.
Qed.



End PadFacts.

(** ** [trimExtend] *)

Section TrimFacts.

Lemma drop_while_spec (p : Z -> bool) (s : js_string) :
  exists l, s = l ++ drop_while p s /\ Forall (fun x => p x = true) l.
Proof.
  induction s as [|x s (l & E & Hl)]; [exists []; split; [reflexivity | constructor]|].
  cbn [drop_while]. destruct (p x) eqn:Hx.
  - exists (x :: l). split; [cbn [app]; f_equal; exact E | constructor; assumption].
  - exists []. split; [reflexivity | constructor].
Qed.

Lemma drop_while_head (p : Z -> bool) (s : js_string) (x : Z) (t : js_string) :
  drop_while p s = x :: t -> p x = false.
Proof.
  induction s as [|y s IH]; [discriminate|].
  cbn [drop_while]. destruct (p y) eqn:Hy; [exact IH|].
  intros E. injection E as <- _. exact Hy.
Qed.

Lemma drop_while_id (p : Z -> bool) (s : js_string) :
  (forall x, head s = Some x -> p x = false) -> drop_while p s = s.
Proof.
  destruct s as [|y s]; [reflexivity|]. intros H. cbn [drop_while].
  rewrite (H y eq_refl). reflexivity.
Qed.

(** [trim] takes a run of blank characters from each end, and stops at a
    character that is not blank. *)
Lemma String_trim_spec (s : js_string) :
  exists l r,
    s = l ++ String_trim s ++ r
    /\ Forall (fun x => is_trimmed_away x = true) l
    /\ Forall (fun x => is_trimmed_away x = true) r.
Proof.
  unfold String_trim.
  destruct (drop_while_spec is_trimmed_away s) as (l & E & Hl).
  destruct (drop_while_spec is_trimmed_away (rev (drop_while is_trimmed_away s)))
    as (r & E' & Hr).
  exists l, (rev r). repeat split.
  - rewrite <- rev_app_distr, <- E', rev_involutive. exact E.
  - exact Hl.
  - apply List.Forall_rev, Hr.
Qed.

Lemma String_trim_ends (s : js_string) :
  (forall x, head (String_trim s) = Some x -> visible x = true)
  /\ (forall x, head (rev (String_trim s)) = Some x -> visible x = true).
Proof.
  unfold String_trim, visible. split; intros x Hx.
  - destruct (drop_while is_trimmed_away (rev (drop_while is_trimmed_away s)))
      as [|y t] eqn:E; [discriminate|].
    pose proof (drop_while_head _ _ _ _ E) as Hy.
    destruct (drop_while is_trimmed_away s) as [|z u] eqn:E'; [discriminate|].
    pose proof (drop_while_head _ _ _ _ E') as Hz.
    pose proof (drop_while_spec is_trimmed_away (rev (z :: u))) as (l & El & _).
    rewrite E in El. apply (f_equal (@rev Z)) in El.
    rewrite rev_involutive, rev_app_distr in El.
    destruct (rev (y :: t)) as [|w t'] eqn:Er.
    + apply (f_equal (@length Z)) in Er. rewrite length_rev in Er. discriminate.
    + cbn [app] in El. injection El as <- _. cbn in Hx. injection Hx as <-.
      rewrite Hz. reflexivity.
  - rewrite rev_involutive in Hx.
    destruct (drop_while is_trimmed_away (rev (drop_while is_trimmed_away s)))
      as [|y t] eqn:E; [discriminate|].
    cbn in Hx. injection Hx as <-.
    rewrite (drop_while_head _ _ _ _ E). reflexivity.
Qed.

Lemma String_trim_id (s : js_string) :
  (forall x, head s = Some x -> visible x = true) ->
  (forall x, head (rev s) = Some x -> visible x = true) ->
  String_trim s = s.
Proof.
  unfold visible, String_trim. intros Hh Hl.
  rewrite (drop_while_id _ s).
  - rewrite (drop_while_id _ (rev s)); [apply rev_involutive|].
    intros x Hx. apply Hl in Hx. destruct (is_trimmed_away x); [discriminate | reflexivity].
  - intros x Hx. apply Hh in Hx. destruct (is_trimmed_away x); [discriminate | reflexivity].
Qed.

(** *** Each step only takes blank characters away *)

Lemma only_blanks_removed_trans (l t u : js_string) :
  only_blanks_removed l t -> only_blanks_removed t u -> only_blanks_removed l u.
Proof.
  intros [S1 F1] [S2 F2]. split; [etransitivity; eassumption | congruence].
Qed.

Lemma filter_blanks (l : js_string) :
  Forall (fun x => is_trimmed_away x = true) l -> List.filter visible l = [].
Proof.
  induction 1 as [|x l Hx _ IH]; [reflexivity|].
  cbn [List.filter]. unfold visible at 1. rewrite Hx. exact IH.
Qed.

Lemma String_trim_blanks (s : js_string) : only_blanks_removed (String_trim s) s.
Proof.
  destruct (String_trim_spec s) as (l & r & E & Hl & Hr). split.
  - rewrite E at 2. apply sublist_inserts_l, sublist_inserts_r. reflexivity.
  - rewrite E at 2. rewrite !List.filter_app, (filter_blanks l Hl), (filter_blanks r Hr).
    rewrite app_nil_r. reflexivity.
Qed.

Lemma remove_unit_blanks (c : Z) (s : js_string) :
  visible c = false -> only_blanks_removed (remove_unit c s) s.
Proof.
  intros Hc. unfold remove_unit. split.
  - induction s as [|x s IH]; [constructor|]. cbn [List.filter].
    destruct (Z.eqb_spec x c); cbn [negb]; [apply sublist_cons | apply sublist_skip]; exact IH.
  - induction s as [|x s IH]; [reflexivity|]. cbn [List.filter].
    destruct (Z.eqb_spec x c) as [-> | ?]; cbn [negb List.filter]; rewrite IH.
    + rewrite Hc. reflexivity.
    + reflexivity.
Qed.

Lemma collapse_from_blanks (c : Z) (s : js_string) :
  visible c = false -> forall b, only_blanks_removed (collapse_from c b s) s.
Proof.
  intros Hc. induction s as [|x s IH]; intros b; [split; [constructor | reflexivity]|].
  cbn [collapse_from]. destruct (Z.eqb_spec x c) as [-> | ?].
  - destruct b; destruct (IH true) as [S F]; split.
    + apply sublist_cons, S.
    + cbn [List.filter]. rewrite Hc. exact F.
    + apply sublist_skip, S.
    + cbn [List.filter]. rewrite Hc. exact F.
  - destruct (IH false) as [S F]. split; [apply sublist_skip, S|].
    cbn [List.filter]. rewrite F. reflexivity.
Qed.

Lemma strip_from_blanks (s : js_string) :
  forall b, only_blanks_removed (strip_from b s) s.
Proof.
  induction s as [|x s IH]; intros b; [split; [constructor | reflexivity]|].
  cbn [strip_from]. destruct (b && (x =? 0x20)) eqn:E.
  - apply andb_prop in E as [_ E]. apply Z.eqb_eq in E as ->.
    destruct (IH false) as [S F]. split; [apply sublist_cons, S | exact F].
  - destruct (IH (is_line_terminator x)) as [S F]. split; [apply sublist_skip, S|].
    cbn [List.filter]. rewrite F. reflexivity.
Qed.

Lemma strip_line_end_blanks (s : js_string) : only_blanks_removed (strip_line_end s) s.
Proof.
  induction s as [|x s [S F]]; [split; [constructor | reflexivity]|].
  cbn [strip_line_end]. destruct ((x =? 0x20) && at_line_end s) eqn:E.
  - apply andb_prop in E as [E _]. apply Z.eqb_eq in E as ->.
    split; [apply sublist_cons, S | exact F].
  - split; [apply sublist_skip, S|]. cbn [List.filter]. rewrite F. reflexivity.
Qed.

Lemma trimExtend_blanks_trim (s : js_string) :
  only_blanks_removed (trimExtend s) (remove_unit 0x0D (String_trim s)).
Proof.
  unfold trimExtend.
  eapply only_blanks_removed_trans; [apply strip_line_end_blanks|].
  eapply only_blanks_removed_trans; [apply strip_from_blanks|].
  eapply only_blanks_removed_trans; [apply collapse_from_blanks; reflexivity|].
  eapply only_blanks_removed_trans; [apply collapse_from_blanks; reflexivity|].
  apply collapse_from_blanks; reflexivity.
Qed.

Lemma sublist_Forall (P : Z -> Prop) (l t : js_string) :
  l `sublist_of` t -> Forall P t -> Forall P l.
Proof.
  induction 1 as [|x l t _ IH | x l t _ IH]; intros H.
  - constructor.
  - apply Forall_cons in H as [Hx H]. constructor; auto.
  - apply Forall_cons in H as [_ H]. auto.
Qed.

Lemma sublist_filter_length (f : Z -> bool) (l t : js_string) :
  l `sublist_of` t -> (length (List.filter f l) <= length (List.filter f t))%nat.
Proof.
  induction 1 as [|x l t _ IH | x l t _ IH]; cbn [List.filter].
  - lia.
  - destruct (f x); cbn [length]; lia.
  - destruct (f x); cbn [length]; lia.
Qed.

Lemma sublist_rev (l t : js_string) : l `sublist_of` t -> rev l `sublist_of` rev t.
Proof.
  induction 1 as [|x l t _ IH | x l t _ IH]; cbn [rev].
  - constructor.
  - apply sublist_app; [exact IH | reflexivity].
  - apply sublist_inserts_r. exact IH.
Qed.

Lemma only_blanks_removed_rev (l t : js_string) :
  only_blanks_removed l t -> only_blanks_removed (rev l) (rev t).
Proof.
  intros [S F]. split; [apply sublist_rev, S|].
  rewrite !List.filter_rev. congruence.
Qed.

(** A visible character at the head stays at the head. *)
Lemma only_blanks_removed_head (l t : js_string) (x : Z) :
  only_blanks_removed l t -> head t = Some x -> visible x = true -> head l = Some x.
Proof.
  intros [S F] Ht Hx. destruct t as [|y t]; [discriminate|].
  cbn in Ht. injection Ht as ->.
  apply sublist_cons_r in S as [S | (l' & -> & _)]; [|reflexivity].
  pose proof (sublist_filter_length visible _ _ S) as Hlen.
  rewrite F in Hlen. cbn [List.filter] in Hlen. rewrite Hx in Hlen. cbn [length] in Hlen. lia.
Qed.

(** *** Neighbours *)

Lemma pairs_ok_cons (R : Z -> Z -> bool) (x y : Z) (s : js_string) :
  pairs_ok R (x :: y :: s) = negb (R x y) && pairs_ok R (y :: s).
Proof. reflexivity. Qed.

Lemma pairs_ok_tail (R : Z -> Z -> bool) (x : Z) (s : js_string) :
  pairs_ok R (x :: s) = true -> pairs_ok R s = true.
Proof.
  destruct s as [|y s]; [reflexivity|]. rewrite pairs_ok_cons.
  intros H. apply andb_prop in H as [_ H]. exact H.
Qed.

Lemma pairs_ok_head (R : Z -> Z -> bool) (x y : Z) (s : js_string) :
  pairs_ok R (x :: y :: s) = true -> R x y = false.
Proof.
  rewrite pairs_ok_cons. intros H. apply andb_prop in H as [H _].
  destruct (R x y); [discriminate | reflexivity].
Qed.

Lemma pairs_ok_intro (R : Z -> Z -> bool) (x : Z) (s : js_string) :
  (forall y, head s = Some y -> R x y = false) ->
  pairs_ok R s = true -> pairs_ok R (x :: s) = true.
Proof.
  destruct s as [|y s]; [reflexivity|]. intros H Hs.
  rewrite pairs_ok_cons, (H y eq_refl), Hs. reflexivity.
Qed.

Lemma pairs_ok_middle (R : Z -> Z -> bool) (l1 l2 : js_string) (x y : Z) :
  pairs_ok R (l1 ++ x :: y :: l2) = true -> R x y = false.
Proof.
  induction l1 as [|z l1 IH]; cbn [app]; intros H.
  - apply (pairs_ok_head _ _ _ _ H).
  - apply IH. apply (pairs_ok_tail _ _ _ H).
Qed.

(** [collapse_runs c] leaves no two [c] side by side, and makes no new
    neighbours. *)
Lemma collapse_from_both (c : Z) (s : js_string) :
  forall p, pairs_ok (both c) (p :: collapse_from c (p =? c) s) = true.
Proof.
  induction s as [|x s IH]; intros p; [reflexivity|].
  cbn [collapse_from]. destruct (Z.eqb_spec x c) as [-> | Hx].
  - destruct (Z.eqb_spec p c) as [-> | Hp].
    + specialize (IH c). rewrite Z.eqb_refl in IH. exact IH.
    + rewrite pairs_ok_cons. specialize (IH c). rewrite Z.eqb_refl in IH. rewrite IH.
      unfold both. destruct (Z.eqb_spec p c); [contradiction | reflexivity].
  - specialize (IH x). destruct (Z.eqb_spec x c); [contradiction|].
    rewrite pairs_ok_cons, IH. unfold both. destruct (Z.eqb_spec x c); [contradiction|].
    rewrite andb_false_r. reflexivity.
Qed.

Lemma collapse_runs_both (c : Z) (s : js_string) :
  pairs_ok (both c) (collapse_runs c s) = true.
Proof.
  unfold collapse_runs. destruct s as [|x s]; [reflexivity|]. cbn [collapse_from].
  destruct (Z.eqb_spec x c) as [-> | Hx].
  - pose proof (collapse_from_both c s c) as H. rewrite Z.eqb_refl in H. exact H.
  - pose proof (collapse_from_both c s x) as H.
    destruct (Z.eqb_spec x c); [contradiction | exact H].
Qed.

Lemma collapse_from_pairs_ok (R : Z -> Z -> bool) (c : Z) (s : js_string) :
  forall p,
    pairs_ok R (p :: s) = true ->
    pairs_ok R (p :: collapse_from c (p =? c) s) = true.
Proof.
  induction s as [|x s IH]; intros p H; [reflexivity|].
  cbn [collapse_from]. rewrite pairs_ok_cons in H. apply andb_prop in H as [Hpx Hs].
  destruct (Z.eqb_spec x c) as [-> | Hx].
  - destruct (Z.eqb_spec p c) as [-> | Hp].
    + specialize (IH c Hs). rewrite Z.eqb_refl in IH. exact IH.
    + rewrite pairs_ok_cons, Hpx. specialize (IH c Hs). rewrite Z.eqb_refl in IH. exact IH.
  - rewrite pairs_ok_cons, Hpx. specialize (IH x Hs).
    destruct (Z.eqb_spec x c); [contradiction | exact IH].
Qed.

Lemma collapse_runs_pairs_ok (R : Z -> Z -> bool) (c : Z) (s : js_string) :
  pairs_ok R s = true -> pairs_ok R (collapse_runs c s) = true.
Proof.
  unfold collapse_runs. destruct s as [|x s]; [reflexivity|]. intros H. cbn [collapse_from].
  pose proof (collapse_from_pairs_ok R c s x H) as H'.
  destruct (Z.eqb_spec x c) as [-> | Hx]; exact H'.
Qed.

(** [strip_line_start] *)
Lemma strip_from_pairs_ok (R : Z -> Z -> bool) :
  (forall p y, is_line_terminator p = true -> R p y = false) ->
  forall (s : js_string) (p : Z) (b : bool),
    (b = true -> is_line_terminator p = true) ->
    pairs_ok R (p :: s) = true ->
    pairs_ok R (p :: strip_from b s) = true.
Proof.
  intros HR. induction s as [|x s IH]; intros p b Hb H; [reflexivity|].
  cbn [strip_from]. destruct (b && (x =? 0x20)) eqn:E.
  - apply andb_prop in E as [-> _]. apply IH; [discriminate|].
    apply pairs_ok_intro.
    + intros y _. apply HR, Hb. reflexivity.
    + apply (pairs_ok_tail R x), (pairs_ok_tail R p), H.
  - rewrite pairs_ok_cons, (pairs_ok_head _ _ _ _ H). cbn [negb andb].
    apply IH; [auto | apply (pairs_ok_tail R p), H].
Qed.

Lemma strip_line_start_pairs_ok (R : Z -> Z -> bool) (s : js_string) :
  (forall p y, is_line_terminator p = true -> R p y = false) ->
  pairs_ok R s = true -> pairs_ok R (strip_line_start s) = true.
Proof.
  intros HR H. unfold strip_line_start. destruct s as [|x s]; [reflexivity|].
  cbn [strip_from]. destruct (true && (x =? 0x20)) eqn:E.
  - destruct s as [|y s]; [reflexivity|]. cbn [strip_from andb].
    apply strip_from_pairs_ok; [exact HR | auto | apply (pairs_ok_tail R x), H].
  - apply strip_from_pairs_ok; [exact HR | auto | exact H].
Qed.

Lemma line_terminator_not_space (p : Z) : is_line_terminator p = true -> (p =? 0x20) = false.
Proof.
  unfold is_line_terminator. intros H. destruct (Z.eqb_spec p 0x20) as [-> | ?]; [discriminate H | reflexivity].
Qed.

Lemma strip_from_after (s : js_string) :
  forall (p : Z) (b : bool),
    (b = true -> is_line_terminator p = true) ->
    (b = false -> is_line_terminator p = true -> head s <> Some 0x20) ->
    pairs_ok (both 0x20) (p :: s) = true ->
    pairs_ok after_terminator (p :: strip_from b s) = true.
Proof.
  induction s as [|x s IH]; intros p b Hb Hh H; [reflexivity|].
  cbn [strip_from]. destruct (b && (x =? 0x20)) eqn:E.
  - apply andb_prop in E as [-> E]. apply Z.eqb_eq in E as ->.
    pose proof (Hb eq_refl) as Hp.
    apply IH; [discriminate | |].
    + intros _ _. destruct s as [|y s]; [discriminate|].
      apply pairs_ok_tail, pairs_ok_head in H. unfold both in H. cbn in H.
      cbn. intros Ey. injection Ey as ->. discriminate.
    + apply pairs_ok_intro.
      * intros y _. unfold both. rewrite (line_terminator_not_space p Hp). reflexivity.
      * apply (pairs_ok_tail _ 0x20), (pairs_ok_tail _ p), H.
  - rewrite pairs_ok_cons.
    assert (Hpx : after_terminator p x = false).
    { unfold after_terminator. destruct (is_line_terminator p) eqn:Hp; [|reflexivity].
      destruct (Z.eqb_spec x 0x20) as [-> | ?]; [|reflexivity].
      destruct b; [discriminate E|]. exfalso. apply (Hh eq_refl eq_refl). reflexivity. }
    rewrite Hpx. cbn [negb andb].
    apply IH; [auto | | apply (pairs_ok_tail _ p), H].
    intros -> Hx. discriminate.
Qed.

Lemma strip_line_start_after (s : js_string) :
  pairs_ok (both 0x20) s = true ->
  pairs_ok after_terminator (strip_line_start s) = true
  /\ head (strip_line_start s) <> Some 0x20.
Proof.
  intros H. unfold strip_line_start. destruct s as [|x s]; [split; [reflexivity | discriminate]|].
  cbn [strip_from andb]. destruct (Z.eqb_spec x 0x20) as [-> | Hx].
  - destruct s as [|y s]; [split; [reflexivity | discriminate]|].
    cbn [strip_from andb].
    assert (Hy : y <> 0x20).
    { apply pairs_ok_head in H. unfold both in H. cbn in H.
      intros ->. discriminate. }
    split; [|cbn; congruence].
    apply strip_from_after; [auto | | apply (pairs_ok_tail _ 0x20), H].
    intros E1 E2. congruence.
  - split; [|cbn; congruence].
    apply strip_from_after; [auto | | exact H].
    intros E1 E2. congruence.
Qed.

(** [strip_line_end] *)
Lemma strip_line_end_pairs_ok_cons (R : Z -> Z -> bool) :
  (forall p y, is_line_terminator y = true -> R p y = false) ->
  forall (s : js_string) (p : Z),
    pairs_ok R (p :: s) = true -> pairs_ok R (p :: strip_line_end s) = true.
Proof.
  intros HR. induction s as [|x s IH]; intros p H; [reflexivity|].
  cbn [strip_line_end]. destruct ((x =? 0x20) && at_line_end s) eqn:E.
  - apply andb_prop in E as [_ E]. apply IH. apply pairs_ok_intro.
    + intros y Hy. destruct s as [|z s]; [discriminate|]. cbn in Hy. injection Hy as ->.
      apply HR. exact E.
    + apply (pairs_ok_tail R x), (pairs_ok_tail R p), H.
  - rewrite pairs_ok_cons, (pairs_ok_head _ _ _ _ H). cbn [negb andb].
    apply IH, (pairs_ok_tail R p), H.
Qed.

Lemma strip_line_end_pairs_ok (R : Z -> Z -> bool) (s : js_string) :
  (forall p y, is_line_terminator y = true -> R p y = false) ->
  pairs_ok R s = true -> pairs_ok R (strip_line_end s) = true.
Proof.
  intros HR. induction s as [|x s IH]; intros H; [reflexivity|].
  cbn [strip_line_end]. destruct ((x =? 0x20) && at_line_end s).
  - apply IH, (pairs_ok_tail R x), H.
  - apply strip_line_end_pairs_ok_cons; assumption.
Qed.

Lemma strip_line_end_head (s : js_string) :
  head s <> Some 0x20 -> head (strip_line_end s) <> Some 0x20.
Proof.
  destruct s as [|x s]; [intros _; discriminate|]. cbn [strip_line_end head].
  intros H. destruct (Z.eqb_spec x 0x20) as [-> | ?]; [congruence|]. cbn [andb]. exact H.
Qed.

Lemma last_cons_Some (x : Z) (l : js_string) (z : Z) :
  last (x :: l) = Some z -> (l = [] /\ x = z) \/ last l = Some z.
Proof.
  destruct l as [|y l]; cbn; intros H; [left; split; congruence | right; exact H].
Qed.

Lemma strip_line_end_before (s : js_string) :
  pairs_ok (both 0x20) s = true ->
  pairs_ok before_terminator (strip_line_end s) = true
  /\ last (strip_line_end s) <> Some 0x20.
Proof.
  induction s as [|x s IH]; intros H; [split; [reflexivity | discriminate]|].
  specialize (IH (pairs_ok_tail _ _ _ H)) as [IHp IHl].
  cbn [strip_line_end]. destruct ((x =? 0x20) && at_line_end s) eqn:E; [split; assumption|].
  destruct (Z.eqb_spec x 0x20) as [-> | Hx].
  - cbn [andb] in E. destruct s as [|y s]; [discriminate E|]. cbn [at_line_end] in E.
    assert (Hy : (y =? 0x20) = false).
    { apply pairs_ok_head in H. unfold both in H. cbn in H. exact H. }
    cbn [strip_line_end] in *. rewrite Hy in *. cbn [andb] in *. split.
    + rewrite pairs_ok_cons, IHp. unfold before_terminator. rewrite E. reflexivity.
    + intros Hl. apply last_cons_Some in Hl as [[Hn _] | Hl]; [discriminate | contradiction].
  - split.
    + apply pairs_ok_intro; [|exact IHp]. intros y _. unfold before_terminator.
      destruct (Z.eqb_spec x 0x20); [contradiction | reflexivity].
    + intros Hl. apply last_cons_Some in Hl as [[_ Hn] | Hl]; [contradiction | contradiction].
Qed.

(** What the steps of [trimExtend] leave side by side. *)
Lemma trimExtend_neighbours (s : js_string) :
  pairs_ok (both 0x20) (trimExtend s) = true
  /\ pairs_ok (both 0x09) (trimExtend s) = true
  /\ pairs_ok after_terminator (trimExtend s) = true
  /\ pairs_ok before_terminator (trimExtend s) = true
  /\ head (trimExtend s) <> Some 0x20
  /\ last (trimExtend s) <> Some 0x20.
Proof.
  unfold trimExtend.
  set (t0 := remove_unit 0x0D (String_trim s)).
  pose proof (collapse_runs_both 0x20 t0) as S1.
  pose proof (collapse_runs_pairs_ok _ 0x09 _ S1) as S2.
  pose proof (collapse_runs_pairs_ok _ 0x0A _ S2) as S3.
  pose proof (collapse_runs_both 0x09 (collapse_runs 0x20 t0)) as T2.
  pose proof (collapse_runs_pairs_ok _ 0x0A _ T2) as T3.
  assert (Hs : forall p y, is_line_terminator p = true -> both 0x20 p y = false).
  { intros p y Hp. unfold both. rewrite (line_terminator_not_space p Hp). reflexivity. }
  assert (Ht : forall p y, is_line_terminator p = true -> both 0x09 p y = false).
  { intros p y Hp. unfold both. destruct (Z.eqb_spec p 0x09) as [-> | ?]; [discriminate Hp | reflexivity]. }
  assert (Hs' : forall p y, is_line_terminator y = true -> both 0x20 p y = false).
  { intros p y Hy. unfold both. rewrite (line_terminator_not_space y Hy). apply andb_false_r. }
  assert (Ht' : forall p y, is_line_terminator y = true -> both 0x09 p y = false).
  { intros p y Hy. unfold both. destruct (Z.eqb_spec y 0x09) as [-> | ?]; [discriminate Hy | apply andb_false_r]. }
  assert (Ha' : forall p y, is_line_terminator y = true -> after_terminator p y = false).
  { intros p y Hy. unfold after_terminator. rewrite (line_terminator_not_space y Hy). apply andb_false_r. }
  pose proof (strip_line_start_pairs_ok _ _ Hs S3) as S4.
  pose proof (strip_line_start_pairs_ok _ _ Ht T3) as T4.
  destruct (strip_line_start_after _ S3) as [A4 H4].
  destruct (strip_line_end_before _ S4) as [B5 L5].
  repeat split.
  - apply strip_line_end_pairs_ok; assumption.
  - apply strip_line_end_pairs_ok; assumption.
  - apply strip_line_end_pairs_ok; assumption.
  - exact B5.
  - apply strip_line_end_head, H4.
  - exact L5.
Qed.

End TrimFacts.

Section TrimTheorems.

(** X11: [trimExtend] only takes blank characters away: the result is
    the text without some of its characters, in the same order, and the
    characters that are neither white space nor line terminators are all
    there. *)
Theorem X11_trimExtend_keeps_visible (s : js_string) :
  trimExtend s `sublist_of` s
  /\ List.filter visible (trimExtend s) = List.filter visible s.
Proof.
  change (only_blanks_removed (trimExtend s) s).
  eapply only_blanks_removed_trans; [apply trimExtend_blanks_trim|].
  eapply only_blanks_removed_trans; [apply remove_unit_blanks; reflexivity|].
  apply String_trim_blanks.
Qed.

(** X12: no carriage return is left in the result of [trimExtend]. *)
Theorem X12_trimExtend_no_CR (s : js_string) :
  Forall (fun c => c <> 0x0D) (trimExtend s).
Proof.
  destruct (trimExtend_blanks_trim s) as [S _].
  apply (sublist_Forall _ _ _ S). clear S. unfold remove_unit.
  induction (String_trim s) as [|x t IH]; [constructor|].
  cbn [List.filter]. destruct (Z.eqb_spec x 0x0D); cbn [negb]; [exact IH|].
  constructor; assumption.
Qed.

(** X13: no two tabs are side by side in the result of [trimExtend]:
    of two neighbours, one at least is not a tab. *)
Theorem X13_trimExtend_tabs (s l1 l2 : js_string) (x y : Z) :
  trimExtend s = l1 ++ x :: y :: l2 ->
  both 0x09 x y = false.
Proof.
  intros E. destruct (trimExtend_neighbours s) as (_ & T & _).
  rewrite E in T. apply (pairs_ok_middle _ _ _ _ _ T).
Qed.

(** X14: a space that is left in the result of [trimExtend] stands
    between two characters, neither of which is a space or a line
    terminator. *)
Theorem X14_trimExtend_spaces (s l1 l2 : js_string) :
  trimExtend s = l1 ++ 0x20 :: l2 ->
  exists l1' p n l2',
    l1 = l1' ++ [p] /\ l2 = n :: l2'
    /\ p <> 0x20 /\ is_line_terminator p = false
    /\ n <> 0x20 /\ is_line_terminator n = false.
Proof.
  intros E. destruct (trimExtend_neighbours s) as (S & _ & A & B & H & L).
  rewrite E in S, A, B, H, L.
  destruct l1 as [|p0 l1] using rev_ind; [cbn in H; congruence|]. clear IHl1.
  destruct l2 as [|n l2].
  { exfalso. apply L. apply last_snoc. }
  exists l1, p0, n, l2.
  rewrite <- app_assoc in S, A. cbn [app] in S, A.
  pose proof (pairs_ok_middle _ _ _ _ _ S) as S1.
  pose proof (pairs_ok_middle _ _ _ _ _ A) as A1.
  rewrite <- app_assoc in B. cbn [app] in B.
  pose proof (pairs_ok_middle _ (l1 ++ [p0]) _ _ _
                ltac:(rewrite <- app_assoc; exact B)) as B1.
  pose proof (pairs_ok_middle _ (l1 ++ [p0]) _ _ _
                ltac:(rewrite <- app_assoc; exact S)) as S2.
  unfold both, after_terminator, before_terminator in *. cbn in S1, S2, A1, B1.
  rewrite andb_true_r in S1, A1.
  repeat split; try assumption.
  - intros ->. discriminate.
  - intros ->. discriminate.
Qed.

(** X15: the result of [trimExtend] has no blank character at either
    end: [trim] would leave it as it is. *)
Theorem X15_trimExtend_trimmed (s : js_string) :
  String_trim (trimExtend s) = trimExtend s.
Proof.
  assert (O : only_blanks_removed (trimExtend s) (String_trim s)).
  { eapply only_blanks_removed_trans; [apply trimExtend_blanks_trim|].
    apply remove_unit_blanks. reflexivity. }
  destruct (String_trim_ends s) as [Hh Hl].
  apply String_trim_id.
  - intros x Hx. destruct (String_trim s) as [|y t] eqn:E.
    + destruct O as [O _]. apply sublist_nil_r in O. rewrite O in Hx. discriminate.
    + specialize (Hh y eq_refl).
      rewrite (only_blanks_removed_head _ _ y O eq_refl Hh) in Hx. congruence.
  - intros x Hx. apply only_blanks_removed_rev in O.
    destruct (rev (String_trim s)) as [|y t] eqn:E.
    + destruct O as [O _]. apply sublist_nil_r in O. rewrite O in Hx. discriminate.
    + specialize (Hl y eq_refl).
      rewrite (only_blanks_removed_head _ _ y O eq_refl Hl) in Hx. congruence.
Qed.

End TrimTheorems.

Section TrimBlankLine.

Lemma visible_spec (x : Z) :
  visible x = true ->
  x <> 0x20 /\ x <> 0x09 /\ x <> 0x0A /\ x <> 0x0D /\ is_line_terminator x = false.
Proof.
  unfold visible. intros H. apply negb_true_iff in H.
  unfold is_trimmed_away in H. apply orb_false_iff in H as [W L].
  repeat split; try (intros ->; discriminate). exact L.
Qed.

Lemma remove_unit_id (c : Z) (s : js_string) :
  Forall (fun x => x <> c) s -> remove_unit c s = s.
Proof.
  unfold remove_unit. induction 1 as [|x s Hx _ IH]; [reflexivity|].
  cbn [List.filter]. destruct (Z.eqb_spec x c); [contradiction|]. cbn [negb]. rewrite IH.
  reflexivity.
Qed.

Lemma collapse_from_id (c : Z) (s : js_string) (b : bool) :
  Forall (fun x => x <> c) s -> collapse_from c b s = s.
Proof.
  intros H. revert b. induction H as [|x s Hx _ IH]; intros b; [reflexivity|].
  cbn [collapse_from]. destruct (Z.eqb_spec x c); [contradiction|]. rewrite IH. reflexivity.
Qed.

Lemma collapse_from_app (c : Z) (u t : js_string) (b : bool) :
  Forall (fun x => x <> c) u -> u <> [] ->
  collapse_from c b (u ++ t) = u ++ collapse_from c false t.
Proof.
  intros H. revert b. induction H as [|x u Hx Hu IH]; intros b Hne; [congruence|].
  cbn [app collapse_from]. destruct (Z.eqb_spec x c); [contradiction|]. f_equal.
  destruct u as [|y u]; [reflexivity|]. apply IH. discriminate.
Qed.

Lemma strip_from_id (s : js_string) (b : bool) :
  Forall (fun x => x <> 0x20) s -> strip_from b s = s.
Proof.
  intros H. revert b. induction H as [|x s Hx _ IH]; intros b; [reflexivity|].
  cbn [strip_from]. destruct (Z.eqb_spec x 0x20); [contradiction|].
  rewrite andb_false_r, IH. reflexivity.
Qed.

Lemma strip_from_app (u t : js_string) (b : bool) :
  Forall (fun x => visible x = true) u -> u <> [] ->
  strip_from b (u ++ t) = u ++ strip_from false t.
Proof.
  intros H. revert b. induction H as [|x u Hx Hu IH]; intros b Hne; [congruence|].
  destruct (visible_spec x Hx) as (Hs & _ & _ & _ & Hl).
  cbn [app strip_from]. destruct (Z.eqb_spec x 0x20); [contradiction|].
  rewrite andb_false_r, Hl. f_equal.
  destruct u as [|y u]; [reflexivity|]. apply IH. discriminate.
Qed.

Lemma strip_line_end_id (s : js_string) :
  Forall (fun x => x <> 0x20) s -> strip_line_end s = s.
Proof.
  induction 1 as [|x s Hx _ IH]; [reflexivity|].
  cbn [strip_line_end]. destruct (Z.eqb_spec x 0x20); [contradiction|].
  cbn [andb]. rewrite IH. reflexivity.
Qed.

Lemma Forall_visible (P : Z -> Prop) (s : js_string) :
  (forall x, visible x = true -> P x) ->
  Forall (fun x => visible x = true) s -> Forall P s.
Proof. intros HP H. induction H; constructor; auto. Qed.

(** X16: a line that holds one space only becomes an empty line, which
    stays: the runs of line feeds are made single before the spaces at
    the ends of the lines are taken away.  Between two texts of visible
    characters, a line feed, a space and a line feed become two line
    feeds. *)
Theorem X16_trimExtend_blank_line (u v : js_string) :
  Forall (fun x => visible x = true) u ->
  Forall (fun x => visible x = true) v ->
  u <> [] -> v <> [] ->
  trimExtend (u ++ [0x0A; 0x20; 0x0A] ++ v) = u ++ [0x0A; 0x0A] ++ v.
Proof.
  intros Hu Hv Nu Nv.
  assert (Hu' : forall c, In c [0x20; 0x09; 0x0A; 0x0D] -> Forall (fun x => x <> c) u).
  { intros c Hc. apply (Forall_visible (fun x => x <> c) u); [|exact Hu].
    intros x Hx. destruct (visible_spec x Hx) as (? & ? & ? & ? & _).
    cbn in Hc. intuition congruence. }
  assert (Hv' : forall c, In c [0x20; 0x09; 0x0A; 0x0D] -> Forall (fun x => x <> c) v).
  { intros c Hc. apply (Forall_visible (fun x => x <> c) v); [|exact Hv].
    intros x Hx. destruct (visible_spec x Hx) as (? & ? & ? & ? & _).
    cbn in Hc. intuition congruence. }
  unfold trimExtend.
  rewrite String_trim_id.
  - rewrite remove_unit_id.
    + unfold collapse_runs.
      rewrite (collapse_from_app 0x20) by (auto; apply Hu'; cbn; auto).
      cbn [app collapse_from Z.eqb Pos.eqb].
      rewrite (collapse_from_id 0x20 v) by (apply Hv'; cbn; auto).
      rewrite (collapse_from_app 0x09) by (auto; apply Hu'; cbn; auto).
      cbn [app collapse_from Z.eqb Pos.eqb].
      rewrite (collapse_from_id 0x09 v) by (apply Hv'; cbn; auto).
      rewrite (collapse_from_app 0x0A) by (auto; apply Hu'; cbn; auto).
      cbn [app collapse_from Z.eqb Pos.eqb].
      rewrite (collapse_from_id 0x0A v) by (apply Hv'; cbn; auto).
      unfold strip_line_start. rewrite strip_from_app by assumption.
      cbn. rewrite (strip_from_id v) by (apply Hv'; cbn; auto).
      apply strip_line_end_id.
      apply Forall_app. split; [apply Hu'; cbn; auto|].
      repeat (constructor; [discriminate|]). apply Hv'; cbn; auto.
    + apply Forall_app. split; [apply Hu'; cbn; auto|].
      repeat (constructor; [discriminate|]). apply Hv'; cbn; auto.
  - intros x Hx. destruct u as [|y u]; [congruence|]. cbn in Hx. injection Hx as <-.
    apply Forall_cons in Hu as [Hy _]. exact Hy.
  - intros x Hx. rewrite !rev_app_distr in Hx.
    apply List.Forall_rev in Hv.
    destruct (rev v) as [|y t] eqn:E.
    + apply (f_equal (@length Z)) in E. rewrite length_rev in E.
      destruct v; [congruence | discriminate].
    + cbn in Hx. injection Hx as <-. apply Forall_cons in Hv as [Hy _]. exact Hy.
Qed.

End TrimBlankLine.

(** ** [fixWidth] *)

Section ReplaceFacts.

Lemma replace_from_skip (k v : js_string) (s : js_string) :
  forall n, replace_from k v n s = replace_all k v (drop n s).
Proof.
  unfold replace_all. induction s as [|x s IH]; intros n.
  - destruct n; reflexivity.
  - destruct n as [|n]; [reflexivity|]. cbn [replace_from drop]. apply IH.
Qed.

Lemma replace_all_match (k v : js_string) (x : Z) (s : js_string) :
  starts_with k (x :: s) = true ->
  replace_all k v (x :: s) = v ++ replace_all k v (drop (length k - 1) s).
Proof.
  intros H. unfold replace_all at 1. cbn [replace_from]. rewrite H, replace_from_skip.
  reflexivity.
Qed.

Lemma replace_all_other (k v : js_string) (x : Z) (s : js_string) :
  starts_with k (x :: s) = false ->
  replace_all k v (x :: s) = x :: replace_all k v s.
Proof. intros H. unfold replace_all. cbn [replace_from]. rewrite H. reflexivity. Qed.

Lemma reduce_replace_nil (T : list (js_string * js_string)) : reduce_replace T [] = [].
Proof. unfold reduce_replace. induction T as [|[k v] T IH]; [reflexivity | exact IH]. Qed.

Lemma reduce_replace_cons (k v : js_string) (T : list (js_string * js_string)) (s : js_string) :
  reduce_replace ((k, v) :: T) s = reduce_replace T (replace_all k v s).
Proof. reflexivity. Qed.

Lemma convert_from_skip (T : list (js_string * js_string)) (s : js_string) :
  forall n, convert_from T n s = one_pass T (drop n s).
Proof.
  unfold one_pass. induction s as [|x s IH]; intros n.
  - destruct n; reflexivity.
  - destruct n as [|n]; [reflexivity|]. cbn [convert_from drop]. apply IH.
Qed.

Lemma one_pass_cons (T : list (js_string * js_string)) (x : Z) (s : js_string) :
  one_pass T (x :: s)
  = match first_match T (x :: s) with
    | Some (k, v) => v ++ one_pass T (drop (length k - 1) s)
    | None => x :: one_pass T s
    end.
Proof.
  unfold one_pass at 1. cbn [convert_from].
  destruct (first_match T (x :: s)) as [[k v]|]; [|reflexivity].
  rewrite convert_from_skip. reflexivity.
Qed.

Lemma starts_with_head (k : js_string) (x : Z) (s : js_string) :
  starts_with k (x :: s) = true -> k = [] \/ head k = Some x.
Proof.
  destruct k as [|c k]; [left; reflexivity|]. cbn [starts_with].
  intros H. apply andb_prop in H as [H _]. apply Z.eqb_eq in H as ->. right. reflexivity.
Qed.

End ReplaceFacts.

Section OnePass.

Variable T : list (js_string * js_string).
Hypothesis T_ok : table_ok T = true.

Lemma entries_in : Forall (entry_in T) T.
Proof.
  apply List.Forall_forall. intros e He. repeat split.
  - unfold table_ok in T_ok. rewrite forallb_forall in T_ok. apply T_ok, He.
  - intros c Hc. unfold is_key_head. apply existsb_exists. exists e. split; assumption.
  - intros c Hc. unfold is_key_second. apply existsb_exists. exists e. split; assumption.
Qed.

Lemma second_not_head (m : Z) : is_key_second T m = true -> is_key_head T m = false.
Proof.
  unfold is_key_second. intros H. apply existsb_exists in H as (e & He & Hm).
  unfold table_ok in T_ok. rewrite forallb_forall in T_ok. specialize (T_ok e He).
  destruct e as [k v]. unfold key_second in Hm. cbn [fst] in Hm.
  destruct k as [|c [|m' [|? ?]]]; try discriminate; cbn in T_ok;
    destruct v as [|w [|? ?]]; try discriminate.
  apply Z.eqb_eq in Hm as ->.
  apply andb_prop in T_ok as [_ H]. apply negb_true_iff in H. exact H.
Qed.

(** What a well-formed entry is. *)
Lemma entry_in_inv (k v : js_string) :
  entry_in T (k, v) ->
  exists c k' w,
    k = c :: k' /\ v = [w]
    /\ is_key_head T c = true
    /\ is_key_head T w = false /\ is_key_second T w = false
    /\ (k' = [] \/ exists m, k' = [m] /\ is_key_second T m = true /\ is_key_head T m = false).
Proof.
  intros (Hok & Hh & Hs).
  destruct k as [|c [|m [|? ?]]]; try discriminate; cbn in Hok;
    destruct v as [|w [|? ?]]; try discriminate.
  - apply andb_prop in Hok as [H1 H2].
    apply negb_true_iff in H1, H2.
    exists c, [], w. repeat split; auto.
    apply Hh. unfold key_head. cbn. apply Z.eqb_refl.
  - apply andb_prop in Hok as [H12 H3]. apply andb_prop in H12 as [H1 H2].
    apply negb_true_iff in H1, H2, H3.
    exists c, [m], w. repeat split; auto.
    + apply Hh. unfold key_head. cbn. apply Z.eqb_refl.
    + right. exists m. repeat split; auto.
      apply Hs. unfold key_second. cbn. apply Z.eqb_refl.
Qed.

(** A code unit that begins no key is passed by every entry. *)
Lemma first_match_not_head (T' : list (js_string * js_string)) (x : Z) (s : js_string) :
  Forall (entry_in T) T' -> is_key_head T x = false -> first_match T' (x :: s) = None.
Proof.
  intros HT' Hx. induction HT' as [|[k v] T' He _ IH]; [reflexivity|].
  unfold first_match. cbn [List.find]. fold (first_match T' (x :: s)). rewrite IH.
  destruct (entry_in_inv k v He) as (c & k' & w & -> & _ & Hc & _).
  cbn [starts_with]. destruct (Z.eqb_spec x c) as [-> | _]; [congruence | reflexivity].
Qed.

(** The second code unit of a key is at the head of a text after a
    replacement exactly when it was before. *)
Lemma replace_all_head_second (k v : js_string) (s : js_string) (m : Z) :
  entry_in T (k, v) -> is_key_second T m = true ->
  (head (replace_all k v s) = Some m <-> head s = Some m).
Proof.
  intros He Hm. destruct (entry_in_inv k v He) as (c & k' & w & -> & -> & Hc & Hw & Hw2 & _).
  pose proof (second_not_head m Hm) as Hm'.
  destruct s as [|y s]; [reflexivity|].
  destruct (starts_with (c :: k') (y :: s)) eqn:E.
  - rewrite replace_all_match by exact E.
    apply starts_with_head in E as [E | E]; [discriminate|]. cbn in E. injection E as ->.
    cbn [app head]. split; intros H; injection H as ->; congruence.
  - rewrite replace_all_other by exact E. reflexivity.
Qed.

Lemma starts_with_stable (k v : js_string) (x : Z) (s s1 : js_string) :
  entry_in T (k, v) ->
  (forall m, is_key_second T m = true -> (head s1 = Some m <-> head s = Some m)) ->
  starts_with k (x :: s1) = starts_with k (x :: s).
Proof.
  intros He Hs. destruct (entry_in_inv k v He) as (c & k' & w & -> & _ & _ & _ & _ & Hk').
  cbn [starts_with]. destruct (Z.eqb_spec x c) as [-> | _]; [|reflexivity]. cbn [andb].
  destruct Hk' as [-> | (m & -> & Hm & _)]; [reflexivity|].
  specialize (Hs m Hm).
  destruct s1 as [|y1 s1], s as [|y s]; cbn [starts_with head] in *.
  - reflexivity.
  - destruct (Z.eqb_spec y m) as [-> | ?]; [|reflexivity].
    destruct Hs as [_ Hs]. specialize (Hs eq_refl). discriminate.
  - destruct (Z.eqb_spec y1 m) as [-> | ?]; [|reflexivity].
    destruct Hs as [Hs _]. specialize (Hs eq_refl). discriminate.
  - rewrite !andb_true_r.
    destruct (Z.eqb_spec y1 m) as [-> | N1], (Z.eqb_spec y m) as [-> | N]; try reflexivity.
    + destruct Hs as [Hs _]. specialize (Hs eq_refl). congruence.
    + destruct Hs as [_ Hs]. specialize (Hs eq_refl). congruence.
Qed.

Lemma first_match_stable (T' : list (js_string * js_string)) (x : Z) (s s1 : js_string) :
  Forall (entry_in T) T' ->
  (forall m, is_key_second T m = true -> (head s1 = Some m <-> head s = Some m)) ->
  first_match T' (x :: s1) = first_match T' (x :: s).
Proof.
  intros HT' Hs. induction HT' as [|[k v] T' He _ IH]; [reflexivity|].
  unfold first_match. cbn [List.find].
  fold (first_match T' (x :: s1)). fold (first_match T' (x :: s)).
  rewrite (starts_with_stable k v x s s1 He Hs), IH. reflexivity.
Qed.

Lemma first_match_Some (T' : list (js_string * js_string)) (t k v : js_string) :
  Forall (entry_in T) T' -> first_match T' t = Some (k, v) ->
  entry_in T (k, v) /\ starts_with k t = true.
Proof.
  intros HT' H. unfold first_match in H. apply find_some in H as [Hin H].
  split; [|exact H]. rewrite List.Forall_forall in HT'. apply HT', Hin.
Qed.

(** The step of the replacements on the first code unit of a text. *)
Lemma reduce_replace_step (T' : list (js_string * js_string)) :
  Forall (entry_in T) T' ->
  forall (x : Z) (s : js_string),
    reduce_replace T' (x :: s)
    = match first_match T' (x :: s) with
      | Some (k, v) => v ++ reduce_replace T' (drop (length k - 1) s)
      | None => x :: reduce_replace T' s
      end.
Proof.
  induction 1 as [|[k v] T' He HT' IH]; intros x s; [reflexivity|].
  rewrite reduce_replace_cons.
  unfold first_match. cbn [List.find]. fold (first_match T' (x :: s)).
  destruct (entry_in_inv k v He) as (c & k' & w & Ek & Ev & Hc & Hw & Hw2 & Hk').
  destruct (starts_with k (x :: s)) eqn:E.
  - rewrite replace_all_match by exact E. rewrite Ev. cbn [app].
    rewrite IH, (first_match_not_head T' w _ HT' Hw). reflexivity.
  - rewrite replace_all_other by exact E. rewrite IH.
    rewrite (first_match_stable T' x s (replace_all k v s) HT')
      by (intros m Hm; apply replace_all_head_second; assumption).
    destruct (first_match T' (x :: s)) as [[k1 v1]|] eqn:F.
    + rewrite reduce_replace_cons. f_equal. f_equal.
      destruct (first_match_Some T' _ _ _ HT' F) as [He1 S1].
      destruct (entry_in_inv k1 v1 He1) as (c1 & k1' & w1 & -> & _ & _ & _ & _ & Hk1').
      destruct Hk1' as [-> | (m & -> & Hm & Hm')]; [reflexivity|].
      cbn [length Nat.sub]. cbn [starts_with] in S1.
      destruct s as [|y s]; [rewrite andb_false_r in S1; discriminate|].
      apply andb_prop in S1 as [_ S1]. apply andb_prop in S1 as [S1 _].
      apply Z.eqb_eq in S1 as ->.
      rewrite replace_all_other; [reflexivity|].
      rewrite Ek. cbn [starts_with].
      destruct (Z.eqb_spec m c) as [-> | _]; [congruence | reflexivity].
    + rewrite reduce_replace_cons. reflexivity.
Qed.

(** The replacements made one after the other come to one pass. *)
Lemma reduce_replace_one_pass (s : js_string) : reduce_replace T s = one_pass T s.
Proof.
  remember (length s) as n eqn:Hn. revert s Hn.
  induction n as [n IH] using lt_wf_ind. intros s Hn.
  destruct s as [|x s]; [apply reduce_replace_nil|].
  rewrite (reduce_replace_step T entries_in), one_pass_cons.
  cbn [length] in Hn.
  destruct (first_match T (x :: s)) as [[k v]|].
  - f_equal. apply (IH (length (drop (length k - 1) s))); [|reflexivity].
    rewrite length_drop. lia.
  - f_equal. apply (IH (length s)); [lia | reflexivity].
Qed.

(** A text in which no code unit begins a key is left as it is. *)
Lemma reduce_replace_id (s : js_string) :
  Forall (fun c => is_key_head T c = false) s -> reduce_replace T s = s.
Proof.
  induction 1 as [|x s Hx _ IH]; [apply reduce_replace_nil|].
  rewrite (reduce_replace_step T entries_in), (first_match_not_head T x s entries_in Hx), IH.
  reflexivity.
Qed.

Lemma reduce_replace_length (s : js_string) :
  (length (reduce_replace T s) <= length s)%nat.
Proof.
  remember (length s) as n eqn:Hn. revert s Hn.
  induction n as [n IH] using lt_wf_ind. intros s Hn.
  destruct s as [|x s]; [rewrite reduce_replace_nil; cbn; lia|].
  rewrite (reduce_replace_step T entries_in). cbn [length] in Hn.
  destruct (first_match T (x :: s)) as [[k v]|] eqn:F.
  - destruct (first_match_Some T _ _ _ entries_in F) as [He _].
    destruct (entry_in_inv k v He) as (c & k' & w & _ & -> & _).
    cbn [app length].
    pose proof (IH (length (drop (length k - 1) s))
                  ltac:(rewrite length_drop; lia) _ eq_refl) as H.
    rewrite length_drop in H. lia.
  - cbn [length]. pose proof (IH (length s) ltac:(lia) s eq_refl). lia.
Qed.

Hypothesis T_heads : heads_are_keys T = true.

Lemma first_match_head (x : Z) (s : js_string) :
  is_key_head T x = true -> first_match T (x :: s) <> None.
Proof.
  intros Hx H. unfold is_key_head in Hx. apply existsb_exists in Hx as (e & He & Hx).
  unfold heads_are_keys in T_heads. rewrite forallb_forall in T_heads.
  specialize (T_heads e He). unfold key_head in Hx.
  destruct (fst e) as [|c k]; [discriminate|]. apply Z.eqb_eq in Hx as ->.
  apply existsb_exists in T_heads as ([k1 v1] & He1 & Hk1).
  destruct (decide (fst (k1, v1) = [x])) as [E|]; [|discriminate]. cbn in E. subst k1.
  unfold first_match in H.
  apply (find_none _ _ H) in He1. cbn in He1. rewrite Z.eqb_refl in He1. discriminate.
Qed.

(** No code unit that begins a key is left. *)
Lemma reduce_replace_no_head (s : js_string) :
  Forall (fun c => is_key_head T c = false) (reduce_replace T s).
Proof.
  remember (length s) as n eqn:Hn. revert s Hn.
  induction n as [n IH] using lt_wf_ind. intros s Hn.
  destruct s as [|x s]; [rewrite reduce_replace_nil; constructor|].
  rewrite (reduce_replace_step T entries_in). cbn [length] in Hn.
  destruct (first_match T (x :: s)) as [[k v]|] eqn:F.
  - destruct (first_match_Some T _ _ _ entries_in F) as [He _].
    destruct (entry_in_inv k v He) as (c & k' & w & _ & -> & _ & Hw & _).
    cbn [app]. constructor; [exact Hw|].
    apply (IH (length (drop (length k - 1) s))); [rewrite length_drop; lia | reflexivity].
  - constructor.
    + destruct (is_key_head T x) eqn:Hx; [|reflexivity].
      exfalso. apply (first_match_head x s Hx F).
    + apply (IH (length s)); [lia | reflexivity].
Qed.

End OnePass.

Section WidthTheorems.

Lemma fixWidth_table_ok : table_ok fixWidth_table = true.
Proof. vm_compute. reflexivity. Qed.

Lemma fixWidth_heads_are_keys : heads_are_keys fixWidth_table = true.
Proof. vm_compute. reflexivity. Qed.

(** X17: the replacements [fixWidth] makes one after the other, one for
    each entry of its table, come to one pass over the text from left to
    right: at each position the first entry of the table whose key is
    found there is applied (the keys of two characters, a kana and its
    voicing mark, come first), and what has been written is not
    converted again. *)
Theorem X17_fixWidth_one_pass (s : js_string) :
  fixWidth s = one_pass fixWidth_table s.
Proof. apply reduce_replace_one_pass, fixWidth_table_ok. Qed.

(** X18: [fixWidth] leaves a text as it is when none of its characters
    begins a key of the table. *)
Theorem X18_fixWidth_unchanged (s : js_string) :
  Forall (fun c => is_key_head fixWidth_table c = false) s ->
  fixWidth s = s.
Proof. apply reduce_replace_id, fixWidth_table_ok. Qed.

(** X19: no character that begins a key of the table is left in the
    result of [fixWidth], and a second call changes nothing. *)
Theorem X19_fixWidth_idempotent (s : js_string) :
  Forall (fun c => is_key_head fixWidth_table c = false) (fixWidth s)
  /\ fixWidth (fixWidth s) = fixWidth s.
Proof.
  pose proof (reduce_replace_no_head _ fixWidth_table_ok fixWidth_heads_are_keys s) as H.
  split; [exact H|]. apply reduce_replace_id; [apply fixWidth_table_ok | exact H].
Qed.

(** X20: [fixWidth] never makes a text longer. *)
Theorem X20_fixWidth_length (s : js_string) :
  (length (fixWidth s) <= length s)%nat.
Proof. apply reduce_replace_length, fixWidth_table_ok. Qed.

(** X21: the result of [cleanText] holds no character that begins a key
    of the table of [fixWidth], and no carriage return. *)
Theorem X21_cleanText_characters (s : js_string) :
  Forall (fun c => is_key_head fixWidth_table c = false /\ c <> 0x0D) (cleanText s).
Proof.
  unfold cleanText.
  pose proof (reduce_replace_no_head _ fixWidth_table_ok fixWidth_heads_are_keys s) as H.
  fold (fixWidth s) in H.
  destruct (trimExtend_blanks_trim (fixWidth s)) as [S1 _].
  destruct (remove_unit_blanks 0x0D (String_trim (fixWidth s)) eq_refl) as [S2 _].
  destruct (String_trim_blanks (fixWidth s)) as [S3 _].
  assert (S : trimExtend (fixWidth s) `sublist_of` fixWidth s)
    by (etransitivity; [exact S1 | etransitivity; eassumption]).
  pose proof (sublist_Forall _ _ _ S H) as H1.
  assert (H2 : Forall (fun c => c <> 0x0D) (trimExtend (fixWidth s))).
  { apply (sublist_Forall _ _ _ S1). generalize (String_trim (fixWidth s)). intros t.
    unfold remove_unit. induction t as [|x t IH]; [constructor|].
    cbn [List.filter]. destruct (Z.eqb_spec x 0x0D); cbn [negb]; [exact IH|].
    constructor; assumption. }
  clear - H1 H2. induction H1 as [|x l Hx _ IH]; [constructor|].
  apply Forall_cons in H2 as [Hx2 H2]. constructor; auto.
Qed.

End WidthTheorems.

(** ** [utfEncode] and [utfDecode] on every input *)

Section UtfAll.

Lemma scalar_FFFD : scalar 0xFFFD.
Proof. unfold scalar. lia. Qed.

Lemma code_units_cons (c : Z) (s : js_string) :
  code_units (c :: s) = true -> 0 <= c <= 0xFFFF /\ code_units s = true.
Proof.
  unfold code_units. cbn [forallb]. intros H. apply andb_prop in H as [H Hs].
  apply andb_prop in H as [H1 H2]. split; [lia | exact Hs].
Qed.

(** The code points [TextEncoder] reads in a string are scalar values,
    and their code units are the string with its lone surrogates
    replaced. *)
Lemma code_points_replace (n : nat) :
  forall s : js_string,
    (length s <= n)%nat -> code_units s = true ->
    Forall scalar (code_points s)
    /\ concat (map utf16_units (code_points s)) = replace_lone_surrogates s.
Proof.
  induction n as [|n IH]; intros s Hn Hs.
  - destruct s; [|cbn in Hn; lia]. split; [constructor | reflexivity].
  - destruct s as [|c s']; [split; [constructor | reflexivity]|].
    apply code_units_cons in Hs as [Hc Hs']. cbn [length] in Hn.
    cbn [code_points replace_lone_surrogates].
    destruct (IH s' ltac:(lia) Hs') as [Hsc' Hback'].
    destruct (is_lead c) eqn:Hl.
    + destruct s' as [|d s'']; [split; [repeat constructor; apply scalar_FFFD | reflexivity]|].
      destruct (is_trail d) eqn:Ht.
      * apply code_units_cons in Hs' as [Hd Hs'']. cbn [length] in Hn.
        destruct (IH s'' ltac:(lia) Hs'') as [Hsc Hback].
        apply surrogates_spec in Hl. apply surrogates_spec in Ht.
        destruct (utf16_units_pair c d Hl Ht) as (Hcp & Hu & _).
        split; [constructor; assumption|].
        cbn [map concat]. rewrite Hu, Hback. reflexivity.
      * split; [constructor; [apply scalar_FFFD | exact Hsc']|].
        cbn [map concat]. rewrite Hback'. reflexivity.
    + destruct (is_trail c) eqn:Ht.
      * split; [constructor; [apply scalar_FFFD | exact Hsc']|].
        cbn [map concat]. rewrite Hback'. reflexivity.
      * destruct (utf16_units_bmp c Hc Hl Ht) as [Hcp Hu].
        split; [constructor; assumption|].
        cbn [map concat]. rewrite Hu, Hback'. reflexivity.
Qed.

Lemma utf16_units_supplementary (cp : Z) :
  0x10000 <= cp <= 0x10FFFF ->
  exists hi lo,
    utf16_units cp = [hi; lo] /\ 0xD800 <= hi <= 0xDBFF /\ 0xDC00 <= lo <= 0xDFFF.
Proof.
  intros H. unfold utf16_units. destruct (Z.ltb_spec cp 0x10000); [lia|].
  eexists _, _. split; [reflexivity|].
  rewrite land_0x3FF, Z.shiftr_div_pow2 by lia. change (2 ^ 10) with 1024.
  split; Z.div_mod_to_equations; lia.
Qed.

Lemma strip_bom_units (cps : list Z) :
  Forall scalar cps ->
  concat (map utf16_units (strip_bom cps)) = drop_bom (concat (map utf16_units cps)).
Proof.
  intros H. destruct H as [|cp cps Hcp _]; [reflexivity|].
  cbn [strip_bom]. destruct (Z.eqb_spec cp 0xFEFF) as [-> | Hne]; [reflexivity|].
  cbn [map concat]. unfold scalar in Hcp.
  destruct (Z.lt_ge_cases cp 0x10000) as [Hlt | Hge].
  - unfold utf16_units. destruct (Z.ltb_spec cp 0x10000); [|lia].
    cbn [app drop_bom]. destruct (Z.eqb_spec cp 0xFEFF); [contradiction | reflexivity].
  - destruct (utf16_units_supplementary cp ltac:(lia)) as (hi & lo & -> & Hhi & _).
    cbn [app drop_bom]. destruct (Z.eqb_spec hi 0xFEFF); [lia | reflexivity].
Qed.

Lemma utfDecode_utfEncode_replace (s : js_string) :
  code_units s = true ->
  utfDecode (utfEncode s) = drop_bom (replace_lone_surrogates s).
Proof.
  intros Hs.
  destruct (code_points_replace (length s) s (Nat.le_refl _) Hs) as [Hsc Hback].
  unfold utfDecode, utfEncode, TextDecoder_decode, TextEncoder_encode.
  rewrite utf8_decode_encode by exact Hsc.
  rewrite strip_bom_units by exact Hsc. rewrite Hback. reflexivity.
Qed.

(** X22: for every string, [utfDecode(utfEncode(s))] is [s] with each
    surrogate that is not half of a pair replaced by U+FFFD, and then
    without the U+FEFF it starts with, if it does. *)
Theorem X22_utfDecode_utfEncode_all (s : js_string) :
  code_units s = true ->
  utfDecode (utfEncode s) = drop_bom (replace_lone_surrogates s).
Proof. apply utfDecode_utfEncode_replace. Qed.

Lemma length_utf8_encode_code_point (cp : Z) :
  length (utf8_encode_code_point cp)
  = if cp <=? 0x7F then 1%nat
    else if cp <=? 0x7FF then 2%nat
    else if cp <=? 0xFFFF then 3%nat else 4%nat.
Proof.
  unfold utf8_encode_code_point.
  destruct (cp <=? 0x7F); [reflexivity|].
  destruct (cp <=? 0x7FF); [reflexivity|].
  destruct (cp <=? 0xFFFF); reflexivity.
Qed.

Lemma length_utfEncode (n : nat) :
  forall s : js_string,
    (length s <= n)%nat -> code_units s = true ->
    (length s <= length (utfEncode s) <= 3 * length s)%nat.
Proof.
  unfold utfEncode, TextEncoder_encode.
  induction n as [|n IH]; intros s Hn Hs.
  - destruct s; [cbn; lia | cbn in Hn; lia].
  - destruct s as [|c s']; [cbn; lia|].
    apply code_units_cons in Hs as [Hc Hs']. cbn [length] in Hn.
    pose proof (IH s' ltac:(lia) Hs') as IH'.
    cbn [code_points].
    destruct (is_lead c) eqn:Hl.
    + destruct s' as [|d s'']; [cbn; lia|].
      destruct (is_trail d) eqn:Ht.
      * apply code_units_cons in Hs' as [Hd Hs'']. cbn [length] in Hn.
        pose proof (IH s'' ltac:(lia) Hs'') as IH''.
        apply surrogates_spec in Hl. apply surrogates_spec in Ht.
        destruct (utf16_units_pair c d Hl Ht) as ([Hcp _] & _ & _).
        cbn [map concat]. rewrite length_app, length_utf8_encode_code_point.
        rewrite Z.shiftl_mul_pow2 in * by lia. change (2 ^ 10) with 1024 in *.
        destruct (Z.leb_spec (65536 + (c - 55296) * 1024 + (d - 56320)) 0x7F); [lia|].
        destruct (Z.leb_spec (65536 + (c - 55296) * 1024 + (d - 56320)) 0x7FF); [lia|].
        destruct (Z.leb_spec (65536 + (c - 55296) * 1024 + (d - 56320)) 0xFFFF); [lia|].
        cbn [length]. lia.
      * cbn [map concat]. rewrite length_app. change (length (utf8_encode_code_point 65533)) with 3%nat.
        cbn [length] in *. lia.
    + destruct (is_trail c) eqn:Ht.
      * cbn [map concat]. rewrite length_app. change (length (utf8_encode_code_point 65533)) with 3%nat.
        cbn [length] in *. lia.
      * cbn [map concat]. rewrite length_app, length_utf8_encode_code_point.
        destruct (c <=? 0x7F); [cbn [length]; lia|].
        destruct (c <=? 0x7FF); [cbn [length]; lia|].
        destruct (Z.leb_spec c 0xFFFF); [cbn [length]; lia | lia].
Qed.

(** X23: the UTF-8 encoding of a string has at least one byte and at
    most three bytes for each code unit. *)
Theorem X23_utfEncode_length (s : js_string) :
  code_units s = true ->
  (length s <= length (utfEncode s) <= 3 * length s)%nat.
Proof. apply (length_utfEncode (length s)). lia. Qed.

End UtfAll.

Section UtfDecoderAll.

Lemma feed_invalid (b : Z) :
  (0x80 <= b <= 0xC1 \/ 0xF5 <= b) ->
  utf8_feed utf8_start b = ([0xFFFD], utf8_start).
Proof.
  intros H. unfold utf8_feed, utf8_handler, in_range. cbn [bytes_needed utf8_start Z.eqb].
  destruct (Z.leb_spec b 0x7F); [lia|]. rewrite andb_false_r.
  destruct (Z.leb_spec 0xC2 b), (Z.leb_spec b 0xDF), (Z.leb_spec 0xE0 b), (Z.leb_spec b 0xEF),
    (Z.leb_spec 0xF0 b), (Z.leb_spec b 0xF4); try lia; reflexivity.
Qed.

(** A byte that does not continue the sequence under way is read again
    from the start state, after U+FFFD. *)
Lemma feed_restore (st : utf8_state) (b : Z) :
  bytes_needed st <> 0 ->
  in_range (lower_boundary st) (upper_boundary st) b = false ->
  0 <= b ->
  utf8_feed st b
  = (0xFFFD :: fst (utf8_feed utf8_start b), snd (utf8_feed utf8_start b)).
Proof.
  intros Hn Hr Hb. unfold utf8_feed at 1. unfold utf8_handler at 1.
  destruct (Z.eqb_spec (bytes_needed st) 0); [contradiction|].
  rewrite Hr. cbn [negb].
  unfold utf8_feed, utf8_handler, in_range. cbn [bytes_needed utf8_start Z.eqb].
  destruct (Z.leb_spec 0 b); [|lia].
  destruct (Z.leb_spec b 0x7F); [reflexivity|]. cbn [andb].
  destruct (Z.leb_spec 0xC2 b), (Z.leb_spec b 0xDF), (Z.leb_spec 0xE0 b), (Z.leb_spec b 0xEF),
    (Z.leb_spec 0xF0 b), (Z.leb_spec b 0xF4); try lia; reflexivity.
Qed.

Lemma feed_start_inv (b : Z) :
  0 <= b <= 255 ->
  Forall scalar (fst (utf8_feed utf8_start b)) /\ utf8_inv (snd (utf8_feed utf8_start b)).
Proof.
  intros Hb.
  destruct (Z.le_gt_cases b 0x7F).
  { rewrite feed_ascii by lia. split; [repeat constructor; unfold scalar; lia | left; reflexivity]. }
  destruct (Z.le_gt_cases b 0xC1).
  { rewrite feed_invalid by lia.
    split; [repeat constructor; apply scalar_FFFD | left; reflexivity]. }
  destruct (Z.le_gt_cases b 0xDF).
  { rewrite feed_lead2 by lia. cbn [fst snd]. split; [constructor|]. right.
    unfold utf8_under_way, utf8_low, utf8_high.
    cbn [bytes_needed bytes_seen code_point lower_boundary upper_boundary].
    change (64 ^ (1 - 0 - 1)) with 1.
    repeat split; try lia. left. Z.div_mod_to_equations. lia. }
  destruct (Z.le_gt_cases b 0xEF).
  { rewrite feed_lead3 by lia. cbn [fst snd]. split; [constructor|]. right.
    unfold utf8_under_way, utf8_low, utf8_high.
    cbn [bytes_needed bytes_seen code_point lower_boundary upper_boundary].
    change (64 ^ (2 - 0 - 1)) with 64.
    destruct (Z.eqb_spec b 0xE0) as [E0 | N0], (Z.eqb_spec b 0xED) as [ED | ND];
      repeat split; try lia.
    - left. Z.div_mod_to_equations. lia.
    - left. Z.div_mod_to_equations. lia.
    - destruct (Z.le_gt_cases b 0xEC); [left | right]; Z.div_mod_to_equations; lia. }
  destruct (Z.le_gt_cases b 0xF4).
  { rewrite feed_lead4 by lia. cbn [fst snd]. split; [constructor|]. right.
    unfold utf8_under_way, utf8_low, utf8_high.
    cbn [bytes_needed bytes_seen code_point lower_boundary upper_boundary].
    change (64 ^ (3 - 0 - 1)) with 4096.
    destruct (Z.eqb_spec b 0xF0) as [E0 | N0], (Z.eqb_spec b 0xF4) as [E4 | N4];
      repeat split; try lia; right; Z.div_mod_to_equations; lia. }
  rewrite feed_invalid by lia.
  split; [repeat constructor; apply scalar_FFFD | left; reflexivity].
Qed.

(** One byte keeps the decoder in a state from which only scalar values
    can come, and yields scalar values only. *)
Lemma feed_inv (st : utf8_state) (b : Z) :
  utf8_inv st -> 0 <= b <= 255 ->
  Forall scalar (fst (utf8_feed st b)) /\ utf8_inv (snd (utf8_feed st b)).
Proof.
  intros [-> | Hst] Hb; [apply feed_start_inv, Hb|].
  destruct Hst as (Hr & Hseen & Hlo & Hhi & Hspan).
  destruct st as [cp seen needed lo hi].
  unfold utf8_low, utf8_high in Hspan.
  cbn [bytes_needed bytes_seen code_point lower_boundary upper_boundary] in *.
  destruct (in_range lo hi b) eqn:Hin.
  - unfold in_range in Hin. apply andb_prop in Hin as [H1 H2].
    apply Z.leb_le in H1, H2.
    rewrite feed_continuation by lia.
    destruct (Z.eqb_spec (seen + 1) needed) as [E | E].
    + cbn [fst snd]. split; [|left; reflexivity].
      replace (needed - seen - 1) with 0 in Hspan by lia.
      change (64 ^ 0) with 1 in Hspan.
      repeat constructor; unfold scalar; lia.
    + cbn [fst snd]. split; [constructor|]. right.
      unfold utf8_under_way, utf8_low, utf8_high.
      cbn [bytes_needed bytes_seen code_point lower_boundary upper_boundary].
      assert (Hcases : needed - seen = 2 \/ needed - seen = 3) by lia.
      destruct Hcases as [E2 | E3].
      * replace (needed - seen - 1) with 1 in Hspan by lia.
        replace (needed - (seen + 1) - 1) with 0 by lia.
        change (64 ^ 1) with 64 in Hspan. change (64 ^ 0) with 1.
        repeat split; try lia.
      * replace (needed - seen - 1) with 2 in Hspan by lia.
        replace (needed - (seen + 1) - 1) with 1 by lia.
        change (64 ^ 2) with 4096 in Hspan. change (64 ^ 1) with 64.
        repeat split; try lia.
  - rewrite feed_restore by (cbn [bytes_needed lower_boundary upper_boundary]; lia || assumption).
    cbn [fst snd]. destruct (feed_start_inv b Hb) as [H1 H2].
    split; [constructor; [apply scalar_FFFD | exact H1] | exact H2].
Qed.

Lemma utf8_decode_scalar (bs : list byte) :
  forall st, utf8_inv st -> Forall scalar (utf8_decode st bs).
Proof.
  induction bs as [|b bs IH]; intros st Hst.
  - cbn [utf8_decode].
    destruct (bytes_needed st =? 0); [constructor | constructor; [apply scalar_FFFD | constructor]].
  - rewrite utf8_decode_cons.
    destruct (feed_inv st (Z_of_byte b) Hst) as [H1 H2].
    { pose proof (Z_of_byte_range b). lia. }
    apply Forall_app. split; [exact H1 | apply IH, H2].
Qed.

Lemma strip_bom_scalar (cps : list Z) : Forall scalar cps -> Forall scalar (strip_bom cps).
Proof.
  intros H. destruct H as [|cp cps Hcp Hcps]; [constructor|].
  cbn [strip_bom]. destruct (cp =? 0xFEFF); [exact Hcps | constructor; assumption].
Qed.

Lemma well_formed_units (cps : list Z) :
  Forall scalar cps -> well_formed (concat (map utf16_units cps)) = true.
Proof.
  induction 1 as [|cp cps Hcp _ IH]; [reflexivity|].
  cbn [map concat]. unfold scalar in Hcp.
  destruct (Z.lt_ge_cases cp 0x10000) as [Hlt | Hge].
  - unfold utf16_units. destruct (Z.ltb_spec cp 0x10000); [|lia].
    cbn [app well_formed]. unfold is_lead, is_trail.
    destruct (Z.leb_spec 0xD800 cp), (Z.leb_spec cp 0xDBFF), (Z.leb_spec 0xDC00 cp),
      (Z.leb_spec cp 0xDFFF), (Z.leb_spec 0 cp), (Z.leb_spec cp 0xFFFF);
      try lia; cbn [andb negb]; exact IH.
  - destruct (utf16_units_supplementary cp ltac:(lia)) as (hi & lo & -> & Hhi & Hlo).
    cbn [app well_formed].
    rewrite (proj2 (proj1 (surrogates_spec hi)) Hhi).
    rewrite (proj2 (proj2 (surrogates_spec lo)) Hlo). exact IH.
Qed.

(** X24: whatever the bytes, the string [utfDecode] returns is well
    formed: its code units are 16-bit numbers and it holds no surrogate
    that is not half of a pair. *)
Theorem X24_utfDecode_well_formed (bs : list byte) :
  well_formed (utfDecode bs) = true.
Proof.
  unfold utfDecode, TextDecoder_decode.
  apply well_formed_units, strip_bom_scalar, utf8_decode_scalar. left. reflexivity.
Qed.

End UtfDecoderAll.

(** ** The earlier revision of the text module *)

(** Its functions are those of [src/text.ts] under other names, so that
    what is proved of the ones holds of the others. *)
Lemma earlier_text_functions :
  (forall s, textEncode s = utfEncode s)
  /\ (forall bs, textDecode bs = utfDecode bs)
  /\ (forall s, textPurgeSuperfluous s = trimExtend s)
  /\ (forall s, textFixWidth s = fixWidth s)
  /\ (forall s, textGetReady s = cleanText s).
Proof. repeat split. Qed.

(** ** [minipackEncode] and [minipackDecode]: more properties *)

Section MinipackMore.

Variable cryptoHash : list byte -> list byte.
Hypothesis cryptoHash_length : forall data, length (cryptoHash data) = 32%nat.

(** [subarray] gives a window inside the array it is taken from. *)
Lemma subarray_window (h : heap) (a : Uint8Array) (s e : Z) :
  view_ok h a = true ->
  view_ok h (subarray a s e) = true
  /\ buffer (subarray a s e) = buffer a
  /\ byteOffset a <= byteOffset (subarray a s e)
  /\ byteOffset (subarray a s e) + byteLength (subarray a s e)
     <= byteOffset a + byteLength a.
Proof.
  unfold view_ok, subarray, clamp_index. cbn [buffer byteOffset byteLength].
  destruct (h !! buffer a) as [bs|]; [|discriminate].
  intros H. apply andb_prop in H as [H H3]. apply andb_prop in H as [H1 H2].
  apply Z.leb_le in H1, H2, H3.
  destruct (Z.ltb_spec s 0), (Z.ltb_spec e 0); repeat split; try lia;
    apply andb_true_intro; (split; [apply andb_true_intro; split|]); apply Z.leb_le; lia.
Qed.

Lemma loop_reaches_windows (h : heap) (archive : Uint8Array) (i : Z) (files : list FileInit) :
  view_ok h archive = true ->
  loop_reaches cryptoHash h archive i files ->
  Forall (fun f => view_ok h (snd f) = true
                   /\ buffer (snd f) = buffer archive
                   /\ byteOffset archive <= byteOffset (snd f)
                   /\ byteOffset (snd f) + byteLength (snd f)
                      <= byteOffset archive + byteLength archive) files.
Proof.
  intros Hv. induction 1 as [|i i' files file _ IH _ E]; [constructor|].
  apply Forall_app. split; [exact IH|]. constructor; [|constructor].
  apply decode_record_inv in E as (hash & E & _).
  apply read_record_inv in E as (ns & bs & _ & _ & _ & _ & _ & ->).
  apply subarray_window, Hv.
Qed.

(** X25: [minipackDecode] copies no body: every body it returns is a
    window on the buffer of the archive, inside the window of the
    archive. *)
Theorem X25_decode_bodies_are_windows (h : heap) (archive : Uint8Array)
        (result : list FileInit) :
  view_ok h archive = true ->
  minipackDecode cryptoHash h archive = Some (Ok result) ->
  Forall (fun f => view_ok h (snd f) = true
                   /\ buffer (snd f) = buffer archive
                   /\ byteOffset archive <= byteOffset (snd f)
                   /\ byteOffset (snd f) + byteLength (snd f)
                      <= byteOffset archive + byteLength archive) result.
Proof.
  intros Hv Hd. apply minipackDecode_result in Hd as (j & Hreach & _).
  apply (loop_reaches_windows h archive j result Hv Hreach).
Qed.

Lemma loop_reaches_count (h : heap) (archive : Uint8Array) (i : Z) (files : list FileInit) :
  loop_reaches cryptoHash h archive i files ->
  37 * Z.of_nat (length files) <= i
  /\ (files = [] \/ 37 * Z.of_nat (length files) < byteLength archive + 37).
Proof.
  induction 1 as [|i i' files file _ [IH1 IH2] Hlt E]; [split; [cbn; lia | left; reflexivity]|].
  apply decode_record_advance in E. rewrite length_app. cbn [length]. split; [lia|].
  right. lia.
Qed.

(** X26: every entry takes the 37 bytes of a header at least, the last
    one begins inside the archive: an archive of [n] bytes gives fewer
    than [n / 37 + 1] entries. *)
Theorem X26_decode_entries_bound (h : heap) (archive : Uint8Array)
        (result : list FileInit) :
  0 <= byteLength archive ->
  minipackDecode cryptoHash h archive = Some (Ok result) ->
  37 * Z.of_nat (length result) < byteLength archive + 37.
Proof.
  intros Hn Hd. apply minipackDecode_result in Hd as (j & Hreach & _).
  destruct (loop_reaches_count h archive j result Hreach) as [_ [-> | H]]; [cbn; lia | exact H].
Qed.

(** X27: the format has no header and no trailer: the archive of two
    lists of entries put one after the other is the archive of the first
    followed by the archive of the second. *)
Theorem X27_encode_app (h : heap) (fs gs : list FileInit) :
  files_ok h (fs ++ gs) = true ->
  exists (a1 a2 a : Uint8Array) (h1 h2 h' : heap),
    minipackEncode cryptoHash fs h = Ok (a1, h1)
    /\ minipackEncode cryptoHash gs h = Ok (a2, h2)
    /\ minipackEncode cryptoHash (fs ++ gs) h = Ok (a, h')
    /\ u8_bytes h' a = u8_bytes h1 a1 ++ u8_bytes h2 a2.
Proof.
  intros Hok.
  assert (Hf : files_ok h fs = true /\ files_ok h gs = true).
  { unfold files_ok in *. rewrite forallb_app in Hok. apply andb_prop in Hok. exact Hok. }
  destruct Hf as [Hf Hg].
  do 6 eexists. split; [|split; [|split]].
  - apply (minipackEncode_layout cryptoHash cryptoHash_length h fs Hf).
  - apply (minipackEncode_layout cryptoHash cryptoHash_length h gs Hg).
  - apply (minipackEncode_layout cryptoHash cryptoHash_length h (fs ++ gs) Hok).
  - rewrite !u8_bytes_fresh
      by (symmetry; apply (length_archive_layout cryptoHash cryptoHash_length); assumption).
    apply archive_layout_app.
Qed.

(** X28: whatever the names, within the limits of the format: decoding
    the archive of a list of entries gives the entries back in order,
    each body as it was and each name with its lone surrogates replaced
    by U+FFFD and without the U+FEFF it starts with, if it does. *)
Theorem X28_round_trip_names (h : heap) (files : list FileInit) :
  files_ok h files = true ->
  forallb entry_in_range files = true ->
  forallb (fun f => code_units (fst f)) files = true ->
  exists (a : Uint8Array) (h' : heap) (result : list FileInit),
    minipackEncode cryptoHash files h = Ok (a, h')
    /\ minipackDecode cryptoHash h' a = Some (Ok result)
    /\ contents h' result
       = map (fun f => (drop_bom (replace_lone_surrogates (fst f)), u8_bytes h (snd f))) files.
Proof.
  intros Hok Hr Hu.
  destruct (encode_decode_contents cryptoHash cryptoHash_length h files Hok Hr)
    as (a & h' & result & He & _ & Hd & Hc).
  exists a, h', result. split; [exact He|]. split; [exact Hd|].
  rewrite Hc. apply map_ext_in. intros f Hf.
  rewrite forallb_forall in Hu. specialize (Hu f Hf).
  unfold entry_content. rewrite utfDecode_utfEncode_replace by exact Hu. reflexivity.
Qed.

End MinipackMore.

(** * Instances of the properties above *)

Lemma X3_witness :
  is_hex_digit 0x20 = false
  /\ hexDecode (str "0a" ++ 0x20 :: str "ff") = hexDecode (str "0a") ++ hexDecode (str "ff").
Proof.
  split; [reflexivity|].
  apply (X3_hexDecode_separator (str "0a") (str "ff") 0x20). reflexivity.
Defined.

Lemma X4_witness :
  (Forall (fun c => is_hex_digit c = true) (str "0aFf") /\ Nat.Even (length (str "0aFf")))
  /\ str (hexEncode (hexDecode (str "0aFf"))) = map upper_unit (str "0aFf").
Proof.
  assert (H1 : Forall (fun c => is_hex_digit c = true) (str "0aFf"))
    by (repeat constructor).
  assert (H2 : Nat.Even (length (str "0aFf"))) by (exists 2%nat; reflexivity).
  split; [split; assumption|].
  apply (X4_hexEncode_hexDecode (str "0aFf") H1 H2).
Defined.

Lemma X5_witness :
  (Forall (fun c => is_hex_digit c = true) (str "0a") /\ Nat.Even (length (str "0a")))
  /\ hexDecode (str "0a" ++ [0x31]) = hexDecode (str "0a").
Proof.
  assert (H1 : Forall (fun c => is_hex_digit c = true) (str "0a"))
    by (repeat constructor).
  assert (H2 : Nat.Even (length (str "0a"))) by (exists 1%nat; reflexivity).
  split; [split; assumption|].
  apply (X5_hexDecode_odd_length (str "0a") 0x31 H1 H2).
Defined.

Lemma X8_witness :
  (0 <= 255 < 2 ^ 53 /\ 2 <= 16 <= 36)
  /\ 4 <= Z.of_nat (length (str (pad0 255 (Some 4) (Some 16))))
  /\ parseInt (str (pad0 255 (Some 4) (Some 16))) 16 = Some 255.
Proof.
  split; [lia|]. apply (X8_pad0_read_back 255 4 16); lia.
Defined.



Lemma X13_witness :
  trimExtend [0x61; 0x09; 0x09; 0x62] = [0x61] ++ 0x09 :: 0x62 :: []
  /\ both 0x09 0x09 0x62 = false.
Proof.
  split; [reflexivity|].
  apply (X13_trimExtend_tabs [0x61; 0x09; 0x09; 0x62] [0x61] [] 0x09 0x62). reflexivity.
Defined.

Lemma X14_witness :
  trimExtend (str " a  b ") = [0x61] ++ 0x20 :: [0x62]
  /\ exists l1' p n l2',
      [0x61] = l1' ++ [p] /\ [0x62] = n :: l2'
      /\ p <> 0x20 /\ is_line_terminator p = false
      /\ n <> 0x20 /\ is_line_terminator n = false.
Proof.
  split; [reflexivity|].
  apply (X14_trimExtend_spaces (str " a  b ") [0x61] [0x62]). reflexivity.
Defined.

Lemma X16_witness :
  (Forall (fun x => visible x = true) [0x61] /\ Forall (fun x => visible x = true) [0x62]
   /\ [0x61] <> [] /\ [0x62] <> [])
  /\ trimExtend ([0x61] ++ [0x0A; 0x20; 0x0A] ++ [0x62]) = [0x61] ++ [0x0A; 0x0A] ++ [0x62].
Proof.
  assert (H1 : Forall (fun x => visible x = true) [0x61]) by (repeat constructor).
  assert (H2 : Forall (fun x => visible x = true) [0x62]) by (repeat constructor).
  assert (H3 : [0x61] <> @nil Z) by discriminate.
  assert (H4 : [0x62] <> @nil Z) by discriminate.
  split; [repeat split; assumption|].
  apply (X16_trimExtend_blank_line [0x61] [0x62] H1 H2 H3 H4).
Defined.

Lemma X18_witness :
  Forall (fun c => is_key_head fixWidth_table c = false) (str "a1")
  /\ fixWidth (str "a1") = str "a1".
Proof.
  assert (H : Forall (fun c => is_key_head fixWidth_table c = false) (str "a1"))
    by (repeat constructor).
  split; [exact H|]. apply (X18_fixWidth_unchanged (str "a1") H).
Defined.

Lemma X22_witness :
  code_units ex_text_bom_surrogate = true
  /\ utfDecode (utfEncode ex_text_bom_surrogate)
     = drop_bom (replace_lone_surrogates ex_text_bom_surrogate).
Proof.
  split; [reflexivity|].
  apply (X22_utfDecode_utfEncode_all ex_text_bom_surrogate). reflexivity.
Defined.

Lemma X23_witness :
  code_units ex_text = true
  /\ (length ex_text
      <= length (utfEncode ex_text)
      <= 3 * length ex_text)%nat.
Proof.
  split; [reflexivity|].
  apply (X23_utfEncode_length ex_text). reflexivity.
Defined.

Lemma X25_witness :
  (view_ok ex_archive_store ex_archive = true
   /\ minipackDecode SHA256.sha256 ex_archive_store ex_archive
      = Some (Ok [(str "a.txt", mkU8 1 42 3)]))
  /\ Forall (fun f => view_ok ex_archive_store (snd f) = true
                      /\ buffer (snd f) = buffer ex_archive
                      /\ byteOffset ex_archive <= byteOffset (snd f)
                      /\ byteOffset (snd f) + byteLength (snd f)
                         <= byteOffset ex_archive + byteLength ex_archive)
            [(str "a.txt", mkU8 1 42 3)].
Proof.
  assert (H1 : view_ok ex_archive_store ex_archive = true) by (vm_compute; reflexivity).
  assert (H2 : minipackDecode SHA256.sha256 ex_archive_store ex_archive
               = Some (Ok [(str "a.txt", mkU8 1 42 3)])) by (vm_compute; reflexivity).
  split; [split; assumption|].
  apply (X25_decode_bodies_are_windows SHA256.sha256 ex_archive_store ex_archive _ H1 H2).
Defined.

Lemma X26_witness :
  (0 <= byteLength ex_archive
   /\ minipackDecode SHA256.sha256 ex_archive_store ex_archive
      = Some (Ok [(str "a.txt", mkU8 1 42 3)]))
  /\ 37 * Z.of_nat (length [(str "a.txt", mkU8 1 42 3)]) < byteLength ex_archive + 37.
Proof.
  assert (H1 : 0 <= byteLength ex_archive) by (vm_compute; discriminate).
  assert (H2 : minipackDecode SHA256.sha256 ex_archive_store ex_archive
               = Some (Ok [(str "a.txt", mkU8 1 42 3)])) by (vm_compute; reflexivity).
  split; [split; assumption|].
  apply (X26_decode_entries_bound SHA256.sha256 ex_archive_store ex_archive _ H1 H2).
Defined.

Lemma X27_witness :
  files_ok ex_store (ex_files ++ ex_bom_files) = true
  /\ exists (a1 a2 a : Uint8Array) (h1 h2 h' : heap),
      minipackEncode SHA256.sha256 ex_files ex_store = Ok (a1, h1)
      /\ minipackEncode SHA256.sha256 ex_bom_files ex_store = Ok (a2, h2)
      /\ minipackEncode SHA256.sha256 (ex_files ++ ex_bom_files) ex_store = Ok (a, h')
      /\ u8_bytes h' a = u8_bytes h1 a1 ++ u8_bytes h2 a2.
Proof.
  split; [reflexivity|].
  apply (X27_encode_app SHA256.sha256 sha256_length ex_store ex_files ex_bom_files).
  reflexivity.
Defined.

Lemma X28_witness :
  (files_ok ex_store (ex_bom_files ++ ex_surrogate_files) = true
   /\ forallb entry_in_range (ex_bom_files ++ ex_surrogate_files) = true
   /\ forallb (fun f => code_units (fst f)) (ex_bom_files ++ ex_surrogate_files) = true)
  /\ exists (a : Uint8Array) (h' : heap) (result : list FileInit),
      minipackEncode SHA256.sha256 (ex_bom_files ++ ex_surrogate_files) ex_store = Ok (a, h')
      /\ minipackDecode SHA256.sha256 h' a = Some (Ok result)
      /\ contents h' result
         = map (fun f => (drop_bom (replace_lone_surrogates (fst f)), u8_bytes ex_store (snd f)))
               (ex_bom_files ++ ex_surrogate_files).
Proof.
  split; [repeat split; reflexivity|].
  apply (X28_round_trip_names SHA256.sha256 sha256_length ex_store
           (ex_bom_files ++ ex_surrogate_files)); reflexivity.
Defined.
